(** * Monte Carlo price-path engine of [src/App.tsx]: [generateGaussian] and [runGBM]

    A shallow embedding of the "MATH ENGINE" block of [src/App.tsx]
    (lines 54-140) with the result types it imports from [./types], and the
    properties the specification states about them.

    Around the engine the file also embeds the code of [src/App.tsx] that
    feeds it and shows its results: the two utilities [getCoinLogo] and
    [formatCurrency], the coin list built by [fetchCoins], the search
    [filteredCoins], the Gemini helpers [getGenAI], [fetchAIInsight] and
    [fetchNewsSummary], and the handlers that run a simulation
    ([triggerSimulation], [handleDurationChange] and the simulation callback
    of [runAnalysis]).  What the host provides ([Intl.NumberFormat],
    [parseFloat], the conversion of a number to a string, the Gemini
    service) is a parameter of the definitions that use it.  Rendering,
    the network calls and the timers themselves are not modelled.

    ** Numbers

    A JavaScript number is modelled by [num]: a real number, one of the two
    infinities, or NaN.  The special values are produced and propagated as
    IEEE 754 arithmetic does (0/0, Infinity - Infinity, 0 * Infinity, the
    logarithm or square root of a negative number are NaN; x/0 is an
    infinity for x <> 0; and so on).  Two things are idealised: finite
    results are exact (no rounding, no overflow to an infinity), and the two
    zeros are identified, a zero divisor counting as +0.  The divisors the
    engine builds itself ([n], [n - 1] and [2]) are never -0.

    Because finite results are exact, the quotient of 1e300 by 1e-300 and
    the exponential of 1000 are finite reals here, where doubles give
    Infinity, and a NaN a few operations later.  The statements are written
    so that this does not decide them.  Those about the shape of a result,
    about the array element a field holds, about the draws read, and about
    the NaN of a series of one or two prices hold whatever the finite
    values are.  Those that give the statistics as real numbers assume
    [bounded_ratios], under which the quotient of two consecutive prices is
    a normal double, and bound every statistic far below the largest
    double.  Those about the order of percentiles and outliers assume that
    the prices compared are not NaN.  [valid_run_reports_positive_prices]
    alone is a statement about exact arithmetic as such.

    The one place where the specification questions the rounding itself is
    the index [Math.floor(numSimulations * q)] of a percentile.  The section
    on binary64 arithmetic computes that index with the kernel's doubles and
    shows that, for every path count up to 1 000 000, it is the index of the
    embedding.

    The two counts [days] and [numSimulations] are natural numbers.

    ** Randomness

    [Math.random] is a global source.  It is modelled by a tape: the list of
    the values the successive calls return.  A computation that asks for a
    draw when the tape is empty is [Starved]; theorems that state that the
    engine returns a result show that a tape with enough non-zero draws is
    never exhausted.

    ** Exceptions

    Reading a property of [undefined] raises a [TypeError] in JavaScript; the
    embedding keeps these as the outcome [Thrown]. *)

From Stdlib Require Import Ascii String.
From Stdlib Require Import Floats Uint63.
From Stdlib Require Import Reals Lra Lia List ZArith Bool Permutation Sorted.
Import ListNotations.

Open Scope R_scope.

(* ================================================================== *)
(** * JavaScript numbers *)
(* ================================================================== *)

Inductive num : Type :=
| Fin (r : R)
| PInf
| NInf
| NaN.

(** Sign of a real, through the decidable order of [R]. *)
Definition Rsgn (r : R) : comparison :=
  if Rlt_dec 0 r then Gt else if Rlt_dec r 0 then Lt else Eq.

Definition num_neg (x : num) : num :=
  match x with
  | Fin r => Fin (- r)
  | PInf => NInf
  | NInf => PInf
  | NaN => NaN
  end.

Definition num_add (x y : num) : num :=
  match x, y with
  | NaN, _ | _, NaN => NaN
  | Fin a, Fin b => Fin (a + b)
  | PInf, NInf | NInf, PInf => NaN
  | PInf, _ | _, PInf => PInf
  | NInf, _ | _, NInf => NInf
  end.

Definition num_sub (x y : num) : num := num_add x (num_neg y).

(** The product of an infinity and a finite factor: its sign is the product
    of the signs, and 0 * Infinity is NaN. *)
Definition inf_times (positive : bool) (a : R) : num :=
  match Rsgn a with
  | Gt => if positive then PInf else NInf
  | Lt => if positive then NInf else PInf
  | Eq => NaN
  end.

Definition num_mul (x y : num) : num :=
  match x, y with
  | NaN, _ | _, NaN => NaN
  | Fin a, Fin b => Fin (a * b)
  | Fin a, PInf | PInf, Fin a => inf_times true a
  | Fin a, NInf | NInf, Fin a => inf_times false a
  | PInf, PInf | NInf, NInf => PInf
  | PInf, NInf | NInf, PInf => NInf
  end.

(** The quotient of two finite numbers is the exact real quotient: it is
    never rounded, and never replaced by an infinity or by zero as a
    quotient of doubles outside the double range is. *)
Definition num_div (x y : num) : num :=
  match x, y with
  | NaN, _ | _, NaN => NaN
  | Fin a, Fin b =>
      match Rsgn b with
      | Eq => match Rsgn a with Gt => PInf | Lt => NInf | Eq => NaN end
      | _ => Fin (a / b)
      end
  | Fin _, PInf | Fin _, NInf => Fin 0
  | PInf, Fin b => match Rsgn b with Lt => NInf | _ => PInf end
  | NInf, Fin b => match Rsgn b with Lt => PInf | _ => NInf end
  | _, _ => NaN
  end.

Declare Scope num_scope.
Delimit Scope num_scope with num.
Bind Scope num_scope with num.
Infix "+" := num_add : num_scope.
Infix "-" := num_sub : num_scope.
Infix "*" := num_mul : num_scope.
Infix "/" := num_div : num_scope.

(** [Math.log], [Math.exp], [Math.sqrt], [Math.cos], [Math.floor]. *)
Definition Math_log (x : num) : num :=
  match x with
  | Fin r => match Rsgn r with Gt => Fin (ln r) | Eq => NInf | Lt => NaN end
  | PInf => PInf
  | NInf => NaN
  | NaN => NaN
  end.

(** [Math.exp] of a finite number is the exact real exponential: it does
    not overflow to an infinity or underflow to zero. *)
Definition Math_exp (x : num) : num :=
  match x with
  | Fin r => Fin (exp r)
  | PInf => PInf
  | NInf => Fin 0
  | NaN => NaN
  end.

Definition Math_sqrt (x : num) : num :=
  match x with
  | Fin r => match Rsgn r with Lt => NaN | _ => Fin (sqrt r) end
  | PInf => PInf
  | NInf => NaN
  | NaN => NaN
  end.

Definition Math_cos (x : num) : num :=
  match x with
  | Fin r => Fin (cos r)
  | _ => NaN
  end.

Definition Math_floor (x : num) : num :=
  match x with
  | Fin r => Fin (IZR (Int_part r))
  | _ => x
  end.

Definition Math_PI : num := Fin PI.

(** [Math.pow(x, k)] for a non-negative integer exponent [k]; the engine
    only squares. *)
Definition Math_pow (x : num) (k : nat) : num :=
  match k with
  | O => Fin 1
  | S _ =>
      match x with
      | Fin r => Fin (r ^ k)
      | PInf => PInf
      | NInf => if Nat.even k then PInf else NInf
      | NaN => NaN
      end
  end.

(** A count or a loop counter used as a number. *)
Definition of_nat (n : nat) : num := Fin (INR n).

(** [x === 0]. *)
Definition is_zero (x : num) : bool :=
  match x with
  | Fin r => if Req_dec_T r 0 then true else false
  | _ => false
  end.

(** [x > 0], false on NaN: what [Array.prototype.sort] asks of the number a
    comparator returns before it moves an element (NaN counts as 0). *)
Definition is_positive (x : num) : bool :=
  match x with
  | Fin r => if Rlt_dec 0 r then true else false
  | PInf => true
  | _ => false
  end.

(** The order [<=] of JavaScript numbers: every comparison with NaN fails. *)
Definition num_le (x y : num) : Prop :=
  match x, y with
  | NaN, _ | _, NaN => False
  | NInf, _ => True
  | _, PInf => True
  | Fin a, Fin b => a <= b
  | _, _ => False
  end.

Definition is_finite (x : num) : Prop :=
  match x with Fin _ => True | _ => False end.

(** The string [x.toFixed(digits)], kept symbolic: the engine only stores
    it. *)
Inductive jsstring : Type :=
| toFixed (x : num) (digits : nat).

(* ================================================================== *)
(** * Random source, exceptions and loops *)
(* ================================================================== *)

(** The values [Math.random] returns, in the order of the calls. *)
Definition tape : Type := list R.

Inductive error : Type :=
| TypeError.

Inductive outcome (A : Type) : Type :=
| Done (a : A) (rest : tape)
| Thrown (e : error)
| Starved.

Arguments Done {A} a rest.
Arguments Thrown {A} e.
Arguments Starved {A}.

Definition M (A : Type) : Type := tape -> outcome A.

Definition ret {A : Type} (a : A) : M A := fun tp => Done a tp.

Definition bind {A B : Type} (m : M A) (k : A -> M B) : M B :=
  fun tp =>
    match m tp with
    | Done a tp' => k a tp'
    | Thrown e => Thrown e
    | Starved => Starved
    end.

Definition throw {A : Type} (e : error) : M A := fun _ => Thrown e.

Notation "x <- m ;; k" := (bind m (fun x => k))
  (at level 61, m at next level, right associativity).

(** [Math.random()]. *)
Definition Math_random : M num :=
  fun tp =>
    match tp with
    | [] => Starved
    | x :: tp' => Done (Fin x) tp'
    end.

(** Reading a property of [o]: a [TypeError] when [o] is [undefined]. *)
Definition defined {A : Type} (o : option A) : M A :=
  match o with
  | Some a => ret a
  | None => throw TypeError
  end.

(** [for (let i = lo; i < lo + count; i++) s = body(i, s)], without and with
    effects. *)
Fixpoint for_each {S : Type} (lo count : nat) (body : nat -> S -> S) (s : S) : S :=
  match count with
  | O => s
  | Datatypes.S c => for_each (Datatypes.S lo) c body (body lo s)
  end.

Fixpoint for_loop {S : Type} (lo count : nat) (body : nat -> S -> M S) (s : S) : M S :=
  match count with
  | O => ret s
  | Datatypes.S c => s' <- body lo s ;; for_loop (Datatypes.S lo) c body s'
  end.

(** [l.forEach(f)] where each call stores one value. *)
Fixpoint mapM {A B : Type} (f : A -> M B) (l : list A) : M (list B) :=
  match l with
  | [] => ret []
  | a :: l' => b <- f a ;; bs <- mapM f l' ;; ret (b :: bs)
  end.

(* ================================================================== *)
(** * Arrays *)
(* ================================================================== *)

(** The array index a number denotes: a non-negative integer. Any other
    number names a property an array does not have. *)
Definition array_index (i : num) : option nat :=
  match i with
  | Fin r =>
      let z := Int_part r in
      if Req_dec_T r (IZR z)
      then if Z_le_dec 0 z then Some (Z.to_nat z) else None
      else None
  | _ => None
  end.

(** [l[i]] for an array of arrays or objects: [None] is [undefined]. *)
Definition item {A : Type} (l : list A) (i : num) : option A :=
  match array_index i with
  | Some k => nth_error l k
  | None => None
  end.

(** [l[i]] for an array of numbers. A read past the end is [undefined],
    which comparisons and arithmetic coerce to NaN. The engine makes no such
    read: every path has [days + 1] prices ([generated_path]) and every
    percentile index is in range ([percentile_index_in_range]). *)
Definition number_at (l : list num) (i : nat) : num := nth i l NaN.

Definition number_item (l : list num) (i : num) : num :=
  match array_index i with
  | Some k => number_at l k
  | None => NaN
  end.

(** [l.map((x, index) => f x index)]. *)
Definition mapi {A B : Type} (f : A -> nat -> B) (l : list A) : list B :=
  map (fun p => f (snd p) (fst p)) (combine (seq 0 (length l)) l).

(** [l.sort(cmp)]: a stable sort, as ECMAScript requires. An element moves
    behind another only when the comparator returns a positive number. *)
Fixpoint insert {A : Type} (cmp : A -> A -> num) (x : A) (l : list A) : list A :=
  match l with
  | [] => [x]
  | y :: l' => if is_positive (cmp x y) then y :: insert cmp x l' else x :: l
  end.

Definition Array_sort {A : Type} (cmp : A -> A -> num) (l : list A) : list A :=
  fold_right (insert cmp) [] l.

(* ================================================================== *)
(** * The Gaussian sampler (App.tsx, lines 55-60) *)
(* ================================================================== *)

(** [let u = 0; while (u === 0) u = Math.random();] The loop ends at the
    first non-zero draw; the recursion is on the tape. *)
Fixpoint draw_nonzero (tp : tape) : outcome num :=
  match tp with
  | [] => Starved
  | x :: tp' => if is_zero (Fin x) then draw_nonzero tp' else Done (Fin x) tp'
  end.

(** The value [generateGaussian] returns for the two accepted draws. *)
Definition box_muller (u v : num) : num :=
  (Math_sqrt (Fin (-2) * Math_log u) * Math_cos (Fin 2 * Math_PI * v))%num.

Definition generateGaussian : M num :=
  u <- draw_nonzero ;;
  v <- draw_nonzero ;;
  ret (box_muller u v).

(* ================================================================== *)
(** * Result types (types.ts) *)
(* ================================================================== *)

(** [SimDataPoint]. [simLines] is the empty object of line 120, which
    nothing fills. The properties [sim0] ... [sim29] that line 124 adds to
    the object are the entries 0 ... 29 of [sims]. *)
Record SimDataPoint : Type := {
  day : nat;
  median : num;
  range : num * num;
  innerRange : num * num;
  p5 : num;
  p95 : num;
  outlierMin : num;
  outlierMax : num;
  simLines : unit;
  sims : list num
}.

Record Stats : Type := {
  current : num;
  projectedMedian : num;
  projectedLow : num;
  projectedHigh : num;
  volatility : jsstring
}.

Record SimResult : Type := {
  data : list SimDataPoint;
  stats : Stats
}.

(* ================================================================== *)
(** * The engine (App.tsx, lines 62-140) *)
(* ================================================================== *)

(** Lines 65-70: the log returns. *)
Definition log_returns (historicalPrices : list num) : list num :=
  for_each 1 (length historicalPrices - 1)
    (fun i returns =>
       let current := number_at historicalPrices i in
       let prev := number_at historicalPrices (i - 1) in
       returns ++ [Math_log (current / prev)%num])
    [].

(** Lines 72-76. *)
Definition meanReturn_of (returns : list num) : num :=
  (fold_left (fun a b => a + b) returns (Fin 0) / of_nat (length returns))%num.

Definition variance_of (returns : list num) : num :=
  let meanReturn := meanReturn_of returns in
  (fold_left (fun acc val => acc + Math_pow (val - meanReturn) 2) returns (Fin 0)
   / (of_nat (length returns) - Fin 1))%num.

Definition volatility_of (returns : list num) : num :=
  Math_sqrt (variance_of returns).

Definition drift_of (returns : list num) : num :=
  (meanReturn_of returns - variance_of returns / Fin 2)%num.

(** Line 78. *)
Definition lastPrice_of (historicalPrices : list num) : num :=
  number_at historicalPrices (length historicalPrices - 1).

(** Lines 85-88: one simulated day. The state of the loop is the path so far
    and the running price. *)
Definition path_step (drift volatility : num) (st : list num * num)
  : M (list num * num) :=
  let path := fst st in
  let currentPrice := snd st in
  Z <- generateGaussian ;;
  let shock := (drift + volatility * Z)%num in
  let currentPrice := (currentPrice * Math_exp shock)%num in
  ret (path ++ [currentPrice], currentPrice).

(** Lines 82-89: one path. *)
Definition simulate_path (drift volatility lastPrice : num) (days : nat)
  : M (list num) :=
  st <- for_loop 1 days (fun _ => path_step drift volatility)
          ([lastPrice], lastPrice) ;;
  ret (fst st).

(** Lines 82-90: one path, pushed on the ensemble. *)
Definition push_path (drift volatility lastPrice : num) (days : nat)
  (allPaths : list (list num)) : M (list (list num)) :=
  path <- simulate_path drift volatility lastPrice days ;;
  ret (allPaths ++ [path]).

(** Lines 79-91: the ensemble. *)
Definition simulate_paths (drift volatility lastPrice : num)
  (days numSimulations : nat) : M (list (list num)) :=
  for_loop 0 numSimulations (fun _ => push_path drift volatility lastPrice days) [].

(** Lines 93-95. *)
Record ranked : Type := {
  index : nat;
  finalPrice : num
}.

Definition sortedPathIndices_of (allPaths : list (list num)) (days : nat)
  : list ranked :=
  Array_sort (fun a b => (finalPrice a - finalPrice b)%num)
    (mapi (fun path index => {| index := index; finalPrice := number_at path days |})
       allPaths).

(** Line 100. *)
Definition draw_index (numSimulations : nat) (indices : list num) : M (list num) :=
  r <- Math_random ;;
  ret (indices ++ [Math_floor (r * of_nat numSimulations)%num]).

Definition draw_randomIndices (numSimulations : nat) : M (list num) :=
  for_loop 0 30 (fun _ => draw_index numSimulations) [].

(** Lines 104-109. *)
Definition pricesAtT_of (allPaths : list (list num)) (t : nat) : list num :=
  Array_sort (fun a b => (a - b)%num) (map (fun path => number_at path t) allPaths).

Definition percentile_index (numSimulations : nat) (q : R) : num :=
  Math_floor (of_nat numSimulations * Fin q)%num.

(** Line 124: [allPaths[simIndex][t]]. *)
Definition sample_value (allPaths : list (list num)) (t : nat) (simIndex : num)
  : M num :=
  path <- defined (item allPaths simIndex) ;;
  ret (number_at path t).

(** Lines 104-125: the aggregate of day [t]. *)
Definition dayData_of (allPaths : list (list num)) (numSimulations : nat)
  (minPathIndex maxPathIndex : nat) (randomIndices : list num) (t : nat)
  : M SimDataPoint :=
  let pricesAtT := pricesAtT_of allPaths t in
  let p5 := number_item pricesAtT (percentile_index numSimulations (5 / 100)) in
  let p25 := number_item pricesAtT (percentile_index numSimulations (25 / 100)) in
  let p50 := number_item pricesAtT (percentile_index numSimulations (50 / 100)) in
  let p75 := number_item pricesAtT (percentile_index numSimulations (75 / 100)) in
  let p95 := number_item pricesAtT (percentile_index numSimulations (95 / 100)) in
  minPath <- defined (nth_error allPaths minPathIndex) ;;
  maxPath <- defined (nth_error allPaths maxPathIndex) ;;
  simValues <- mapM (sample_value allPaths t) randomIndices ;;
  ret {| day := t;
         median := p50;
         range := (p5, p95);
         innerRange := (p25, p75);
         p5 := p5;
         p95 := p95;
         outlierMin := number_at minPath t;
         outlierMax := number_at maxPath t;
         simLines := tt;
         sims := simValues |}.

(** Lines 103-128. *)
Definition push_dayData (allPaths : list (list num)) (numSimulations : nat)
  (minPathIndex maxPathIndex : nat) (randomIndices : list num) (t : nat)
  (aggregatedData : list SimDataPoint) : M (list SimDataPoint) :=
  dayData <- dayData_of allPaths numSimulations minPathIndex maxPathIndex
               randomIndices t ;;
  ret (aggregatedData ++ [dayData]).

Definition aggregate (allPaths : list (list num)) (numSimulations : nat)
  (minPathIndex maxPathIndex : nat) (randomIndices : list num) (days : nat)
  : M (list SimDataPoint) :=
  for_loop 0 (S days)
    (push_dayData allPaths numSimulations minPathIndex maxPathIndex randomIndices)
    [].

(** [runGBM]. The argument is [None] when the caller passes [null] or
    [undefined]; the result is [None] when [runGBM] returns [null]. *)
Definition runGBM (historicalPrices : option (list num)) (days numSimulations : nat)
  : M (option SimResult) :=
  match historicalPrices with
  | None => ret None
  | Some [] => ret None
  | Some historicalPrices =>
      let returns := log_returns historicalPrices in
      let volatility := volatility_of returns in
      let drift := drift_of returns in
      let lastPrice := lastPrice_of historicalPrices in
      allPaths <- simulate_paths drift volatility lastPrice days numSimulations ;;
      let sortedPathIndices := sortedPathIndices_of allPaths days in
      first <- defined (nth_error sortedPathIndices 0) ;;
      let minPathIndex := index first in
      last <- defined (nth_error sortedPathIndices (length sortedPathIndices - 1)) ;;
      let maxPathIndex := index last in
      randomIndices <- draw_randomIndices numSimulations ;;
      aggregatedData <- aggregate allPaths numSimulations minPathIndex maxPathIndex
                          randomIndices days ;;
      final <- defined (nth_error aggregatedData days) ;;
      ret (Some {| data := aggregatedData;
                   stats := {| current := lastPrice;
                               projectedMedian := median final;
                               projectedLow := p5 final;
                               projectedHigh := p95 final;
                               volatility := toFixed (volatility * Fin 100) 2 |} |})
  end.

(** The defaults of the two optional parameters. *)
Definition default_days : nat := 20.
Definition default_numSimulations : nat := 500.

(* ================================================================== *)
(** * Notions of the specification *)
(* ================================================================== *)

(** The statistics as section 3 of the specification words them, over the
    reals: the log return of day [i], the arithmetic mean, the sample
    variance with divisor [n - 1], the volatility and the drift. *)
Definition Rsum (l : list R) : R := fold_right Rplus 0 l.

Definition spec_log_return (prices : list R) (i : nat) : R :=
  ln (nth (i + 1) prices 0 / nth i prices 0).

Definition spec_log_returns (prices : list R) : list R :=
  map (spec_log_return prices) (seq 0 (length prices - 1)).

Definition spec_mean (returns : list R) : R :=
  Rsum returns / INR (length returns).

Definition spec_variance (returns : list R) : R :=
  Rsum (map (fun r => (r - spec_mean returns) ^ 2) returns)
  / (INR (length returns) - 1).

Definition spec_volatility (returns : list R) : R := sqrt (spec_variance returns).

Definition spec_drift (returns : list R) : R :=
  spec_mean returns - spec_variance returns / 2.

(** A price series as the specification has it: positive reals. *)
Definition price_series (prices : list R) : list num := map Fin prices.

Definition positive_prices (prices : list R) : Prop := Forall (fun p => 0 < p) prices.

(** What [Math.random] promises of a draw, and the draws a run needs: two
    accepted (non-zero) draws per simulated day of every path, then thirty
    draws for the sample indices. *)
Definition unit_draw (x : R) : Prop := 0 <= x < 1.

Fixpoint nonzero_draws (tp : tape) : nat :=
  match tp with
  | [] => 0
  | x :: tp' => (if is_zero (Fin x) then 0 else 1) + nonzero_draws tp'
  end.

Definition enough_draws (tp : tape) (days numSimulations : nat) : Prop :=
  (2 * (days * numSimulations) + 30 <= nonzero_draws tp)%nat.

Definition fair_tape (tp : tape) (days numSimulations : nat) : Prop :=
  Forall unit_draw tp /\ enough_draws tp days numSimulations.

(** Clamping an index to [lo, hi]. *)
Definition clamp (lo hi i : Z) : Z := Z.max lo (Z.min hi i).

(** The five quantiles of lines 105-109. *)
Definition quantiles : list R := [5 / 100; 25 / 100; 50 / 100; 75 / 100; 95 / 100].

(** The terminal value of path [j] of an ensemble. *)
Definition terminal (allPaths : list (list num)) (days j : nat) : num :=
  number_at (nth j allPaths []) days.

(** The price of path [j] at day [t]. *)
Definition price_at (allPaths : list (list num)) (j t : nat) : num :=
  number_at (nth j allPaths []) t.

(** The ensemble a run of [runGBM] generates: what line 91 has pushed when the
    loop of line 81 ends. *)
Definition ensemble_of (historicalPrices : list num) (days numSimulations : nat)
  : M (list (list num)) :=
  let returns := log_returns historicalPrices in
  simulate_paths (drift_of returns) (volatility_of returns)
    (lastPrice_of historicalPrices) days numSimulations.

(** A computation that leaves [rest] of the tape [tp] has read a prefix of
    it; [accepted] counts the non-zero draws of that prefix. *)
Definition consumes (tp rest : tape) (accepted : nat) : Prop :=
  (exists read, tp = read ++ rest)
  /\ (nonzero_draws rest + accepted = nonzero_draws tp)%nat.

(** A positive real number (neither an infinity nor NaN). *)
Definition positive_finite (x : num) : Prop :=
  match x with Fin r => 0 < r | _ => False end.

(** What [dayData_of] builds when none of its reads is [undefined]: the
    outlier paths are the paths [minPathIndex] and [maxPathIndex], and the
    sample paths are the paths [sampled]. *)
Definition dayData_value (allPaths : list (list num)) (numSimulations : nat)
  (minPathIndex maxPathIndex : nat) (sampled : list nat) (t : nat) : SimDataPoint :=
  let pricesAtT := pricesAtT_of allPaths t in
  let pct q := number_item pricesAtT (percentile_index numSimulations q) in
  {| day := t;
     median := pct (50 / 100);
     range := (pct (5 / 100), pct (95 / 100));
     innerRange := (pct (25 / 100), pct (75 / 100));
     p5 := pct (5 / 100);
     p95 := pct (95 / 100);
     outlierMin := price_at allPaths minPathIndex t;
     outlierMax := price_at allPaths maxPathIndex t;
     simLines := tt;
     sims := map (fun j => price_at allPaths j t) sampled |}.

(** The aggregate of day [t] of a result ([undefined] past the end, which no
    statement below reads). *)
Definition no_day : SimDataPoint :=
  {| day := 0; median := NaN; range := (NaN, NaN); innerRange := (NaN, NaN);
     p5 := NaN; p95 := NaN; outlierMin := NaN; outlierMax := NaN;
     simLines := tt; sims := [] |}.

Definition day_aggregate (res : SimResult) (t : nat) : SimDataPoint :=
  nth t (data res) no_day.

(** The 25th and 75th percentiles are stored in [innerRange]. *)
Definition p25 (d : SimDataPoint) : num := fst (innerRange d).
Definition p75 (d : SimDataPoint) : num := snd (innerRange d).

(** p5 <= p25 <= median <= p75 <= p95. *)
Definition percentiles_ordered (d : SimDataPoint) : Prop :=
  num_le (p5 d) (p25 d) /\ num_le (p25 d) (median d)
  /\ num_le (median d) (p75 d) /\ num_le (p75 d) (p95 d).

(** The outlier lines of a result are two whole paths of the ensemble, and
    those two paths end lowest and highest. *)
Definition outliers_track_paths (allPaths : list (list num)) (days : nat)
  (res : SimResult) (imin imax : nat) : Prop :=
  forall t, (t <= days)%nat ->
    outlierMin (day_aggregate res t) = price_at allPaths imin t
    /\ outlierMax (day_aggregate res t) = price_at allPaths imax t.

Definition outliers_are_extreme (allPaths : list (list num)) (days : nat)
  (imin imax : nat) : Prop :=
  forall j, (j < length allPaths)%nat ->
    (j <> imax -> num_le (terminal allPaths days j) (terminal allPaths days imax))
    /\ (j <> imin -> num_le (terminal allPaths days imin) (terminal allPaths days j)).

Definition outlier_paths (allPaths : list (list num)) (days : nat)
  (res : SimResult) : Prop :=
  exists imin imax,
    (imin < length allPaths)%nat /\ (imax < length allPaths)%nat
    /\ outliers_track_paths allPaths days res imin imax
    /\ outliers_are_extreme allPaths days imin imax.


(** What line 82-89 give for one path: [days + 1] prices from the last
    historical price on; nothing but NaN after day 0 when the drift is NaN;
    and positive real prices when drift and volatility are real numbers and
    the last price is positive. *)
Definition generated_path (drift volatility lastPrice : num) (days : nat)
  (path : list num) : Prop :=
  length path = S days
  /\ number_at path 0 = lastPrice
  /\ (drift = NaN -> path = lastPrice :: repeat NaN days)
  /\ (is_finite drift -> is_finite volatility -> positive_finite lastPrice ->
      Forall positive_finite path).

(** The result of [runGBM] when none of its reads is [undefined]. *)
Definition result_value (historicalPrices : list num) (allPaths : list (list num))
  (days numSimulations minPathIndex maxPathIndex : nat) (sampled : list nat)
  : SimResult :=
  let aggregatedData :=
    map (dayData_value allPaths numSimulations minPathIndex maxPathIndex sampled)
        (seq 0 (S days)) in
  let final :=
    dayData_value allPaths numSimulations minPathIndex maxPathIndex sampled days in
  {| data := aggregatedData;
     stats := {| current := lastPrice_of historicalPrices;
                 projectedMedian := median final;
                 projectedLow := p5 final;
                 projectedHigh := p95 final;
                 volatility :=
                   toFixed (volatility_of (log_returns historicalPrices) * Fin 100) 2
              |} |}.

(** The sample indices are the floors of thirty consecutive draws, each
    scaled by the path count. *)
Definition indices_of_draws (numSimulations : nat) (draws : list R)
  (sampled : list nat) : Prop :=
  Forall2 (fun x k => INR k <= x * INR numSimulations < INR k + 1) draws sampled.

(** The record line 94 builds for path [j]. *)
Definition rank_of (allPaths : list (list num)) (days j : nat) : ranked :=
  {| index := j; finalPrice := terminal allPaths days j |}.

(** A run of [runGBM] that returns a result, phase by phase: the ensemble
    [allPaths] generated from the tape [tp], leaving [tp1]; the outlier
    paths [imin] and [imax] selected from the sorted terminal prices; the
    thirty draws [draws] read next, leaving [rest], and the sample indices
    [sampled] computed from them; and the result itself. *)
Record run_of (historicalPrices : list num) (days numSimulations : nat) (tp : tape)
  (allPaths : list (list num)) (tp1 : tape) (imin imax : nat)
  (draws : list R) (sampled : list nat) (rest : tape) : Prop := {
  run_ensemble :
    ensemble_of historicalPrices days numSimulations tp = Done allPaths tp1;
  run_count : length allPaths = numSimulations;
  run_paths :
    Forall (generated_path (drift_of (log_returns historicalPrices))
              (volatility_of (log_returns historicalPrices))
              (lastPrice_of historicalPrices) days) allPaths;
  run_imin : (imin < numSimulations)%nat;
  run_imax : (imax < numSimulations)%nat;
  run_first :
    nth_error (sortedPathIndices_of allPaths days) 0
    = Some (rank_of allPaths days imin);
  run_last :
    nth_error (sortedPathIndices_of allPaths days)
      (length (sortedPathIndices_of allPaths days) - 1)
    = Some (rank_of allPaths days imax);
  run_draws : tp1 = draws ++ rest;
  run_draws_count : length draws = 30%nat;
  run_sampled_count : length sampled = 30%nat;
  run_sampled_range : Forall (fun k => (k < numSimulations)%nat) sampled;
  run_sampled : indices_of_draws numSimulations draws sampled;
  run_result :
    runGBM (Some historicalPrices) days numSimulations tp
    = Done (Some (result_value historicalPrices allPaths days numSimulations
                    imin imax sampled)) rest
}.

(** The aggregate of a day at which every path is at the price [p]. *)
Definition flat_day (p : num) (t : nat) : SimDataPoint :=
  {| day := t; median := p; range := (p, p); innerRange := (p, p);
     p5 := p; p95 := p; outlierMin := p; outlierMax := p;
     simLines := tt; sims := repeat p 30 |}.

(** ** The percentile indices in binary64 arithmetic

    The engine computes [Math.floor(numSimulations * q)] on doubles. These
    definitions state, with the kernel's binary64 numbers and 63-bit
    integers, that an integer [k] is that floor: [k <= x < k + 1], the two
    integers being exactly representable. [double_quantiles] pairs the
    numerator of each quantile with the double its decimal literal denotes
    (0.05, 0.25, 0.5, 0.75, 0.95). *)
Definition is_floor_of (k : int) (x : float) : bool :=
  PrimFloat.leb (PrimFloat.of_uint63 k) x
  && PrimFloat.ltb x (PrimFloat.of_uint63 (Uint63.add k 1)).

Definition double_quantiles : list (int * float) :=
  [(5%uint63, 0x1.999999999999ap-5%float);
   (25%uint63, 0x1p-2%float);
   (50%uint63, 0x1p-1%float);
   (75%uint63, 0x1.8p-1%float);
   (95%uint63, 0x1.e666666666666p-1%float)].

(** For the path count [n], the floor of the double product [n * q] is the
    integer quotient [n * a / 100], for each quantile [q = a / 100]. *)
Definition double_index_agrees (n : int) : bool :=
  forallb (fun aq => is_floor_of (Uint63.div (Uint63.mul n (fst aq)) 100)
                       (PrimFloat.mul (PrimFloat.of_uint63 n) (snd aq)))
          double_quantiles.

Fixpoint all_from (fuel : nat) (n : int) (check : int -> bool) : bool :=
  match fuel with
  | O => true
  | S f => check n && all_from f (Uint63.add n 1) check
  end.

(* ================================================================== *)
(** * Strings (App.tsx, lines 33-52, 547 and 668) *)
(* ================================================================== *)

(** A JavaScript string is modelled by [string], one character per code
    unit. The embedding is exact for ASCII text, which is what ticker
    symbols are; the two case conversions change the ASCII letters only, so
    the statements about them are made for ASCII strings. *)
Definition is_ascii (s : string) : Prop :=
  Forall (fun c => (nat_of_ascii c < 128)%nat) (list_ascii_of_string s).

Definition is_upper_case (c : ascii) : bool :=
  ((65 <=? nat_of_ascii c) && (nat_of_ascii c <=? 90))%nat.

Definition is_lower_case (c : ascii) : bool :=
  ((97 <=? nat_of_ascii c) && (nat_of_ascii c <=? 122))%nat.

Definition char_toLowerCase (c : ascii) : ascii :=
  if is_upper_case c then ascii_of_nat (nat_of_ascii c + 32) else c.

Definition char_toUpperCase (c : ascii) : ascii :=
  if is_lower_case c then ascii_of_nat (nat_of_ascii c - 32) else c.

Fixpoint map_chars (f : ascii -> ascii) (s : string) : string :=
  match s with
  | EmptyString => EmptyString
  | String c s' => String (f c) (map_chars f s')
  end.

(** [s.toLowerCase()] and [s.toUpperCase()]. *)
Definition toLowerCase (s : string) : string := map_chars char_toLowerCase s.
Definition toUpperCase (s : string) : string := map_chars char_toUpperCase s.

(** [s.includes(x)]: [x] occurs in [s]. *)
Definition String_includes (s x : string) : bool :=
  match String.index 0 x s with
  | Some _ => true
  | None => false
  end.

(** [s.endsWith(suffix)]. *)
Definition String_endsWith (s suffix : string) : bool :=
  (String.length suffix <=? String.length s)%nat
  && String.eqb
       (String.substring (String.length s - String.length suffix)
          (String.length suffix) s)
       suffix.

(** [s.replace(pattern, replacement)] for a string pattern: the first
    occurrence only. The two replacements of the source, the empty string
    and a single dollar sign, contain no replacement pattern. *)
Definition String_replace (s pattern replacement : string) : string :=
  match String.index 0 pattern s with
  | Some i =>
      (String.substring 0 i s ++ replacement
       ++ String.substring (i + String.length pattern)
            (String.length s - (i + String.length pattern)) s)%string
  | None => s
  end.

(** [l.slice(start, stop)] for [0 <= start <= stop]. *)
Definition Array_slice {A : Type} (l : list A) (start stop : nat) : list A :=
  firstn (stop - start) (skipn start l).

(* ================================================================== *)
(** * Utilities (App.tsx, lines 33-52) *)
(* ================================================================== *)

Definition logo_directory : string :=
  "https://raw.githubusercontent.com/spothq/cryptocurrency-icons/master/128/color/".

(** [getCoinLogo]; the empty string is the only falsy string. *)
Definition getCoinLogo (symbol : string) : string :=
  match symbol with
  | EmptyString => EmptyString
  | _ =>
      let rawSymbol := toLowerCase (String_replace symbol "USDT" EmptyString) in
      (logo_directory ++ rawSymbol ++ ".png")%string
  end.

(** [x < y] on JavaScript numbers: false when either is NaN. *)
Definition num_lt (x y : num) : bool :=
  match x, y with
  | NaN, _ | _, NaN => false
  | Fin a, Fin b => if Rlt_dec a b then true else false
  | NInf, NInf => false
  | NInf, _ => true
  | PInf, _ => false
  | Fin _, PInf => true
  | Fin _, NInf => false
  end.

Section Currency.

(** [new Intl.NumberFormat('tr-TR', { style: 'currency', currency: 'USD',
    minimumFractionDigits: digits, maximumFractionDigits: digits })
    .format(val)]: the formatter of the host, a function of [digits] and
    [val]. *)
Variable Intl_NumberFormat_format : nat -> num -> string.

(** [formatCurrency]; [None] is [undefined] or [null]. *)
Definition formatCurrency (val : option num) : string :=
  match val with
  | None => "$0,00"%string
  | Some val =>
      let digits := 2%nat in
      let digits := if num_lt val (Fin 1) then 4%nat else digits in
      let digits := if num_lt val (Fin (1 / 1000)) then 7%nat else digits in
      String_replace (Intl_NumberFormat_format digits val) "$" "$"
  end.

End Currency.

(* ================================================================== *)
(** * The coin list and the search (types.ts; App.tsx, lines 546-554 and
      666-669) *)
(* ================================================================== *)

Record Coin : Type := {
  symbol : string;
  price : num;
  change : num
}.

Module BinanceTicker.

Record t : Type := {
  symbol : string;
  lastPrice : string;
  priceChangePercent : string;
  quoteVolume : string
}.

End BinanceTicker.

Section CoinList.

(** [parseFloat], kept abstract: the pipeline compares and stores the
    numbers it returns. *)
Variable parseFloat : string -> num.

(** Line 547. *)
Definition is_USDT_pair (t : BinanceTicker.t) : bool :=
  String_endsWith (BinanceTicker.symbol t) "USDT".

(** Line 548: the comparator, highest quote volume first. *)
Definition by_quoteVolume (a b : BinanceTicker.t) : num :=
  (parseFloat (BinanceTicker.quoteVolume b)
   - parseFloat (BinanceTicker.quoteVolume a))%num.

(** Lines 550-554. *)
Definition coin_of (t : BinanceTicker.t) : Coin :=
  {| symbol := BinanceTicker.symbol t;
     price := parseFloat (BinanceTicker.lastPrice t);
     change := parseFloat (BinanceTicker.priceChangePercent t) |}.

(** Lines 546-554: the list [fetchCoins] stores with [setCoins]. *)
Definition filtered_of (data : list BinanceTicker.t) : list Coin :=
  map coin_of
    (Array_slice (Array_sort by_quoteVolume (filter is_USDT_pair data)) 0 300).

End CoinList.

(** Lines 666-669: the suggestions under the search box. *)
Definition filteredCoins (coins : list Coin) (searchTerm : string) : list Coin :=
  match searchTerm with
  | EmptyString => []
  | _ =>
      Array_slice
        (filter (fun c => String_includes (symbol c) (toUpperCase searchTerm)) coins)
        0 5
  end.

(** The quote volume the comparator of line 548 reads, and the order it
    asks for: highest volume first. *)
Definition volume_of (parseFloat : string -> num) (t : BinanceTicker.t) : num :=
  parseFloat (BinanceTicker.quoteVolume t).

Definition volume_descending (parseFloat : string -> num)
  (a b : BinanceTicker.t) : Prop :=
  num_le (volume_of parseFloat b) (volume_of parseFloat a).

(** The coins the search box matches. *)
Definition matching_coins (coins : list Coin) (searchTerm : string) : list Coin :=
  filter (fun c => String_includes (symbol c) (toUpperCase searchTerm)) coins.

(* ================================================================== *)
(** * The Gemini helpers (App.tsx, lines 143-201) *)
(* ================================================================== *)

(** A line written with [console.error]: the message and, where the source
    passes one, the error caught. *)
Inductive console_line : Type :=
| console_error (message : string) (caught : option string).

(** The client [new GoogleGenAI({ apiKey })]. *)
Record GoogleGenAI : Type := {
  apiKey : string
}.

Inductive tool : Type :=
| googleSearch.

(** The argument of [ai.models.generateContent]; [tools] is [None] where the
    source gives none. *)
Record GenerateContentParameters : Type := {
  model : string;
  contents : string;
  systemInstruction : string;
  tools : option (list tool)
}.

(** How the awaited call ends: the promise is fulfilled with a response,
    whose [text] may be [undefined], or it is rejected with an error. *)
Inductive reply : Type :=
| fulfilled (text : option string)
| rejected (error : string).

(** [text || fallback]: [undefined] and the empty string are falsy. *)
Definition or_else (text : option string) (fallback : string) : string :=
  match text with
  | Some (String c s) => String c s
  | _ => fallback
  end.

Definition LF : string := String (ascii_of_nat 10) EmptyString.

Section Gemini.

(** The environment variable [process.env.API_KEY], the service behind
    [generateContent], and the conversion of a number inside a template
    literal. *)
Variable API_KEY : option string.
Variable generateContent : GoogleGenAI -> GenerateContentParameters -> reply.
Variable Number_toString : num -> string.

(** [getGenAI]: what it logs and the client it returns ([None] is [null]). *)
Definition getGenAI : list console_line * option GoogleGenAI :=
  match API_KEY with
  | Some (String c k) => ([], Some {| apiKey := String c k |})
  | _ => ([console_error "API_KEY is missing in environment variables." None], None)
  end.

(** Lines 156-164. *)
Definition insight_query (symbol : string) (stats : Stats) (duration : nat)
  : string :=
  (LF ++ "    Aşağıdaki Monte Carlo simülasyon sonuçlarını analiz et ve kullanıcının yatırım yapmaması gerektiğini vurgulayan, tarafsız, tek paragraftan oluşan bir risk değerlendirmesi yap."
   ++ LF ++ "    Coin: " ++ symbol
   ++ LF ++ "    Süre: " ++ Number_toString (of_nat duration) ++ " gün"
   ++ LF ++ "    Güncel Fiyat: " ++ Number_toString (current stats)
   ++ LF ++ "    Medyan Tahmin (P50): " ++ Number_toString (projectedMedian stats)
   ++ LF ++ "    Kötü Senaryo (P5): " ++ Number_toString (projectedLow stats)
   ++ LF ++ "    İyi Senaryo (P95): " ++ Number_toString (projectedHigh stats)
   ++ LF ++ "  ")%string.

(** [fetchAIInsight]: the lines logged and the string the promise is
    fulfilled with. [stats] is [None] when the caller passes a falsy value. *)
Definition fetchAIInsight (symbol : string) (stats : option Stats) (duration : nat)
  : list console_line * string :=
  let (log, ai) := getGenAI in
  match ai, stats with
  | Some ai, Some stats =>
      let userQuery := insight_query symbol stats duration in
      match generateContent ai
              {| model := "gemini-2.5-flash";
                 contents := userQuery;
                 systemInstruction :=
                   "Sen bir Finansal AI Analistisin. Kısa, öz ve tarafsız ol. Yatırım tavsiyesi verme.";
                 tools := None |}
      with
      | fulfilled text => (log, or_else text "Yapay zeka yanıtı alınamadı.")
      | rejected error =>
          (log ++ [console_error "Gemini Error:" (Some error)],
           "Analiz servisi şu anda kullanılamıyor."%string)
      end
  | _, _ => (log, "API Anahtarı eksik veya veri yok."%string)
  end.

(** [fetchNewsSummary]. *)
Definition fetchNewsSummary (symbol : string) : list console_line * string :=
  let (log, ai) := getGenAI in
  match ai with
  | Some ai =>
      let userQuery :=
        (symbol ++ " kripto parası için son piyasa gelişmeleri ve duyarlılık özeti (3 kısa madde).")%string in
      match generateContent ai
              {| model := "gemini-2.5-flash";
                 contents := userQuery;
                 systemInstruction := "Güncel verilere dayan. Yatırım tavsiyesi verme.";
                 tools := Some [googleSearch] |}
      with
      | fulfilled text => (log, or_else text "Haber verisi alınamadı.")
      | rejected error =>
          (log ++ [console_error "Gemini News Error:" (Some error)],
           "Haber servisi şu anda kullanılamıyor."%string)
      end
  | None => (log, "API Anahtarı eksik."%string)
  end.

End Gemini.

(* ================================================================== *)
(** * Running a simulation from the page (App.tsx, lines 575-664) *)
(* ================================================================== *)

Inductive view : Type :=
| home
| analysis.

(** What a handler of the component does, in order: the calls of the state
    setters, and the two requests it starts. [start_fetchAIInsight] is the
    call [fetchAIInsight(...).then(setAiInsight).finally(() =>
    setAiLoading(false))], which sets the insight and clears the flag when
    the request settles; [start_fetchNewsSummary] likewise. *)
Inductive action : Type :=
| setSimResult (result : option SimResult)
| setView (v : view)
| setIsSimulating (b : bool)
| setSimulationText (text : string)
| setAiInsight (text : string)
| setNewsSummary (text : string)
| setAiLoading (b : bool)
| setNewsLoading (b : bool)
| setDuration (d : nat)
| start_fetchAIInsight (symbol : string) (stats : Stats) (duration : nat)
| start_fetchNewsSummary (symbol : string).

(** A handler: it reads the random tape, performs actions, and returns or
    throws. The actions performed before an exception stay performed. *)
Definition handler (A : Type) : Type := tape -> list action * outcome A.

Definition perform (a : action) : handler unit := fun tp => ([a], Done tt tp).

Definition run {A : Type} (m : M A) : handler A := fun tp => ([], m tp).

Definition and_then {A B : Type} (m : handler A) (k : A -> handler B) : handler B :=
  fun tp =>
    match m tp with
    | (performed, Done a tp') =>
        let (more, r) := k a tp' in (performed ++ more, r)
    | (performed, Thrown e) => (performed, Thrown e)
    | (performed, Starved) => (performed, Starved)
    end.

Notation "x <~ m ;; k" := (and_then m (fun x => k))
  (at level 61, m at next level, right associativity).
Notation "m ;;; k" := (and_then m (fun _ => k))
  (at level 61, right associativity).

(** Lines 631-647: the innermost timer callback of [runAnalysis]. The
    non-null assertion [result!] is erased by the compiler, so
    [result!.stats] reads a property of [null] when [runGBM] returns
    [null]. *)
Definition runAnalysis_simulation (coin : Coin) (closingPrices : list num)
  (duration : nat) : handler unit :=
  result <~ run (runGBM (Some closingPrices) duration default_numSimulations) ;;
  perform (setSimResult result) ;;;
  perform (setView analysis) ;;;
  perform (setIsSimulating false) ;;;
  perform (setAiLoading true) ;;;
  result_stats <~ run (r <- defined result ;; ret (stats r)) ;;
  perform (start_fetchAIInsight (symbol coin) result_stats duration) ;;;
  perform (setNewsLoading true) ;;;
  perform (start_fetchNewsSummary (symbol coin)).

(** Lines 587-603: the last timer callback of [triggerSimulation]. *)
Definition triggerSimulation_simulation (selectedCoin : option Coin)
  (dataToSimulate : list num) (dayDuration : nat) : handler unit :=
  result <~ run (runGBM (Some dataToSimulate) dayDuration default_numSimulations) ;;
  perform (setSimResult result) ;;;
  perform (setIsSimulating false) ;;;
  match selectedCoin, result with
  | Some selectedCoin, Some result =>
      perform (setAiLoading true) ;;;
      perform (start_fetchAIInsight (symbol selectedCoin) (stats result) dayDuration) ;;;
      perform (setNewsLoading true) ;;;
      perform (start_fetchNewsSummary (symbol selectedCoin))
  | _, _ => run (ret tt)
  end.

(** [triggerSimulation]: what it does at once, and the timers it sets, each
    with its delay in milliseconds. *)
Definition triggerSimulation (selectedCoin : option Coin)
  (dataToSimulate : list num) (dayDuration : nat)
  : list action * list (nat * handler unit) :=
  match selectedCoin with
  | None => ([], [])
  | Some _ =>
      ([setIsSimulating true;
        setAiInsight EmptyString;
        setNewsSummary EmptyString;
        setSimulationText "Monte Carlo Motoru Isınıyor..."],
       [(1500%nat, perform (setSimulationText "Geçmiş Volatilite Taranıyor..."));
        (2800%nat, perform (setSimulationText "10,000+ Olasılık Hesaplanıyor..."));
        (4000%nat,
         triggerSimulation_simulation selectedCoin dataToSimulate dayDuration)])
  end.

(** [handleDurationChange], with the state it reads: [duration],
    [historicalData] and [selectedCoin]. *)
Definition handleDurationChange (duration : nat) (historicalData : list num)
  (selectedCoin : option Coin) (newDuration : nat)
  : list action * list (nat * handler unit) :=
  if Nat.eqb newDuration duration then ([], [])
  else
    let (performed, timers) :=
      match historicalData, selectedCoin with
      | _ :: _, Some _ => triggerSimulation selectedCoin historicalData newDuration
      | _, _ => ([], [])
      end in
    (setDuration newDuration :: performed, timers).

Section Settling.

Variable API_KEY : option string.
Variable generateContent : GoogleGenAI -> GenerateContentParameters -> reply.
Variable Number_toString : num -> string.

(** What a started request does when it settles: [then] passes the string
    to its setter, [finally] clears the loading flag. *)
Definition settle (a : action) : list action :=
  match a with
  | start_fetchAIInsight symbol stats duration =>
      [setAiInsight
         (snd (fetchAIInsight API_KEY generateContent Number_toString
                 symbol (Some stats) duration));
       setAiLoading false]
  | start_fetchNewsSummary symbol =>
      [setNewsSummary (snd (fetchNewsSummary API_KEY generateContent symbol));
       setNewsLoading false]
  | _ => []
  end.

End Settling.

(** The trace of a run of the simulation callback that shows a result
    [res] for the coin [symbol] and starts the two requests. *)
Definition shown_and_requested (res : SimResult) (symbol : string) (duration : nat)
  : list action :=
  [setAiLoading true;
   start_fetchAIInsight symbol (stats res) duration;
   setNewsLoading true;
   start_fetchNewsSummary symbol].

(** ** The range of the statistics

    The embedding computes with exact reals, where doubles overflow to an
    infinity or underflow to zero. The statements that give the statistics
    as real numbers are therefore made for a series whose consecutive
    prices differ by a factor of at most [max_ratio]: the quotient of line
    68 is then a normal double, and the theorems bound every statistic far
    below the largest double. *)
Definition max_ratio : R := 10 ^ 300.

Definition bounded_ratios (prices : list R) : Prop :=
  forall i, (S i < length prices)%nat ->
    / max_ratio <= nth (S i) prices 0 / nth i prices 0 <= max_ratio.

(** The quantile each percentile field of a day aggregate is read at
    (lines 105-117). *)
Definition percentile_fields : list ((SimDataPoint -> num) * R) :=
  [(p5, 5 / 100); (p25, 25 / 100); (median, 50 / 100); (p75, 75 / 100);
   (p95, 95 / 100)].

(** ** The paths in terms of the tape

    The draws the two loops of [generateGaussian] accept are the non-zero
    draws of the tape, in order; the Box-Muller values of a run are built
    from consecutive pairs of them; and a path is the walk that multiplies
    the running price by [exp (drift + volatility * Z)] for each of its
    values [Z]. Path [j] uses the accepted draws from position
    [2 * days * j] on. *)
Definition accepted (tp : tape) : list R :=
  filter (fun x => negb (is_zero (Fin x))) tp.

Fixpoint gaussians (count : nat) (draws : list R) : list num :=
  match count, draws with
  | S count', u :: v :: draws' =>
      box_muller (Fin u) (Fin v) :: gaussians count' draws'
  | _, _ => []
  end.

Fixpoint walk (drift volatility cur : num) (zs : list num) : list num :=
  match zs with
  | [] => []
  | Z :: zs' =>
      let next := (cur * Math_exp (drift + volatility * Z))%num in
      next :: walk drift volatility next zs'
  end.

Definition gbm_path_of (drift volatility lastPrice : num) (days : nat)
  (tp : tape) (j : nat) : list num :=
  lastPrice
  :: walk drift volatility lastPrice
       (gaussians days (skipn (2 * days * j) (accepted tp))).

(** The Box-Muller value of step [t + 1] of path [j]. *)
Definition shock_draws (days : nat) (tp : tape) (j t : nat) : num :=
  box_muller (Fin (nth (2 * (days * j + t)) (accepted tp) 0))
             (Fin (nth (2 * (days * j + t) + 1) (accepted tp) 0)).

(* ================================================================== *)
(** * Numbers: basic facts *)
(* ================================================================== *)

Lemma Rsgn_pos (r : R) : 0 < r -> Rsgn r = Gt.
Proof.
  intros H. unfold Rsgn. destruct (Rlt_dec 0 r); [reflexivity | contradiction].
Qed.

Lemma Rsgn_zero : Rsgn 0 = Eq.
Proof.
  unfold Rsgn.
  destruct (Rlt_dec 0 0); [lra |]. destruct (Rlt_dec 0 0); [lra | reflexivity].
Qed.

Lemma Rsgn_nonneg (r : R) : 0 <= r -> Rsgn r <> Lt.
Proof.
  intros H. unfold Rsgn.
  destruct (Rlt_dec 0 r); [discriminate |].
  destruct (Rlt_dec r 0); [lra | discriminate].
Qed.

Lemma is_zero_Fin_0 : is_zero (Fin 0) = true.
Proof. simpl. destruct (Req_dec_T 0 0); [reflexivity | contradiction]. Qed.

Lemma is_zero_Fin_nonzero (r : R) : r <> 0 -> is_zero (Fin r) = false.
Proof. intros H. simpl. destruct (Req_dec_T r 0); [contradiction | reflexivity]. Qed.

Lemma num_mul_NaN_r (x : num) : (x * NaN)%num = NaN.
Proof. destruct x; reflexivity. Qed.

Lemma num_sub_NaN_r (x : num) : (x - NaN)%num = NaN.
Proof. destruct x; reflexivity. Qed.

Lemma num_le_NaN_l (x : num) : ~ num_le NaN x.
Proof. simpl. tauto. Qed.

(* ================================================================== *)
(** * The Gaussian sampler *)
(* ================================================================== *)

Lemma draw_nonzero_skips_zeros (k : nat) (tp : tape) :
  draw_nonzero (repeat 0 k ++ tp) = draw_nonzero tp.
Proof.
  induction k as [| k IH]; [reflexivity |].
  cbn [repeat app draw_nonzero]. rewrite is_zero_Fin_0. exact IH.
Qed.

Lemma draw_nonzero_accepts (x : R) (tp : tape) :
  x <> 0 -> draw_nonzero (x :: tp) = Done (Fin x) tp.
Proof.
  intros H. cbn [draw_nonzero]. rewrite (is_zero_Fin_nonzero _ H). reflexivity.
Qed.

(** The loop of lines 57-58 is a re-draw while the draw is zero. *)
Lemma draw_nonzero_unfold (tp : tape) :
  draw_nonzero tp =
  (u <- Math_random ;; if is_zero u then draw_nonzero else ret u) tp.
Proof.
  destruct tp as [| x tp]; [reflexivity |].
  unfold bind, Math_random. cbn [draw_nonzero].
  destruct (is_zero (Fin x)); reflexivity.
Qed.

Lemma box_muller_unit (u v : R) :
  0 < u < 1 ->
  box_muller (Fin u) (Fin v) = Fin (sqrt (-2 * ln u) * cos (2 * PI * v)).
Proof.
  intros [Hu0 Hu1]. unfold box_muller, Math_PI.
  cbn [Math_log]. rewrite (Rsgn_pos _ Hu0). cbn [num_mul Math_cos].
  assert (Hln : ln u < 0) by (rewrite <- ln_1; apply ln_increasing; lra).
  cbn [Math_sqrt].
  destruct (Rsgn (-2 * ln u)) eqn:E; try reflexivity.
  exfalso. revert E. apply Rsgn_nonneg. nra.
Qed.

(** C9. [generateGaussian] rejects every draw that is 0, then returns
    sqrt(-2 ln u) * cos(2 pi v) for the two accepted draws [u] and [v]; for
    [u] and [v] in the open interval (0,1) that value is a finite number
    (the square root is taken of a non-negative number), neither NaN nor an
    infinity. *)
Theorem generateGaussian_box_muller_finite
  (zeros_u zeros_v : nat) (u v : R) (rest : tape) :
  0 < u < 1 -> 0 < v < 1 ->
  generateGaussian (repeat 0 zeros_u ++ u :: repeat 0 zeros_v ++ v :: rest)
  = Done (Fin (sqrt (-2 * ln u) * cos (2 * PI * v))) rest
  /\ 0 <= -2 * ln u
  /\ is_finite (box_muller (Fin u) (Fin v)).
Proof.
  intros Hu Hv.
  assert (Hln : ln u < 0) by (rewrite <- ln_1; apply ln_increasing; lra).
  split; [| split; [lra | rewrite (box_muller_unit _ v Hu); exact I]].
  unfold generateGaussian, bind.
  rewrite draw_nonzero_skips_zeros, draw_nonzero_accepts by lra.
  rewrite draw_nonzero_skips_zeros, draw_nonzero_accepts by lra.
  unfold ret. rewrite (box_muller_unit _ v Hu). reflexivity.
Qed.

Lemma generateGaussian_box_muller_finite_witness :
  generateGaussian (repeat 0 1 ++ (1 / 2) :: repeat 0 2 ++ (1 / 4) :: [])
  = Done (Fin (sqrt (-2 * ln (1 / 2)) * cos (2 * PI * (1 / 4)))) []
  /\ 0 <= -2 * ln (1 / 2)
  /\ is_finite (box_muller (Fin (1 / 2)) (Fin (1 / 4))).
Proof.
  apply (generateGaussian_box_muller_finite 1 2 (1 / 2) (1 / 4) []); lra.
Defined.

(* ================================================================== *)
(** * Loops and arrays: basic facts *)
(* ================================================================== *)

Lemma for_each_push {A : Type} (f : nat -> A) (count lo : nat) (acc : list A) :
  for_each lo count (fun i acc => acc ++ [f i]) acc = acc ++ map f (seq lo count).
Proof.
  revert lo acc. induction count as [| c IH]; intros lo acc.
  - cbn. now rewrite app_nil_r.
  - cbn [for_each seq map]. rewrite IH, <- app_assoc. reflexivity.
Qed.

Lemma number_at_price_series (prices : list R) (i : nat) :
  (i < length prices)%nat ->
  number_at (price_series prices) i = Fin (nth i prices 0).
Proof.
  intros H. unfold number_at, price_series.
  rewrite (nth_indep _ NaN (Fin 0)) by (now rewrite length_map).
  apply (map_nth Fin).
Qed.

Lemma positive_prices_nth (prices : list R) (i : nat) :
  positive_prices prices -> (i < length prices)%nat -> 0 < nth i prices 0.
Proof.
  intros Hpos Hi. unfold positive_prices in Hpos.
  rewrite Forall_forall in Hpos. apply Hpos, nth_In, Hi.
Qed.

(* ================================================================== *)
(** * The statistics (lines 65-76) *)
(* ================================================================== *)

Lemma log_returns_map (historicalPrices : list num) :
  log_returns historicalPrices =
  map (fun i => Math_log (number_at historicalPrices i
                          / number_at historicalPrices (i - 1))%num)
      (seq 1 (length historicalPrices - 1)).
Proof.
  unfold log_returns.
  exact (for_each_push
           (fun i => Math_log (number_at historicalPrices i
                               / number_at historicalPrices (i - 1))%num)
           (length historicalPrices - 1) 1 []).
Qed.



Lemma log_return_positive (a b : R) :
  0 < a -> 0 < b -> Math_log (Fin a / Fin b)%num = Fin (ln (a / b)).
Proof.
  intros Ha Hb. cbn [num_div]. rewrite (Rsgn_pos _ Hb). cbn [Math_log].
  rewrite Rsgn_pos; [reflexivity |]. now apply Rdiv_lt_0_compat.
Qed.

Lemma log_returns_price_series (prices : list R) :
  positive_prices prices ->
  log_returns (price_series prices) = map Fin (spec_log_returns prices).
Proof.
  intros Hpos. rewrite log_returns_map. unfold spec_log_returns.
  unfold price_series at 3. rewrite length_map.
  rewrite <- seq_shift, !map_map. apply map_ext_in.
  intros i Hi. apply in_seq in Hi.
  replace (S i - 1)%nat with i by lia.
  rewrite !number_at_price_series by lia. unfold spec_log_return.
  replace (i + 1)%nat with (S i) by lia.
  apply log_return_positive; apply positive_prices_nth; trivial; lia.
Qed.

Lemma sum_reduce_finite (rs : list R) (acc : R) :
  fold_left (fun a b => a + b)%num (map Fin rs) (Fin acc) = Fin (acc + Rsum rs).
Proof.
  revert acc. induction rs as [| r rs IH]; intros acc; cbn [map fold_left num_add].
  - f_equal. cbn. lra.
  - rewrite IH. f_equal. unfold Rsum. cbn [fold_right]. lra.
Qed.

Lemma squares_reduce_finite (m : R) (rs : list R) (acc : R) :
  fold_left (fun acc val => acc + Math_pow (val - Fin m) 2)%num (map Fin rs) (Fin acc)
  = Fin (acc + Rsum (map (fun r => (r - m) ^ 2) rs)).
Proof.
  revert acc. induction rs as [| r rs IH]; intros acc; cbn [map fold_left Rsum fold_right].
  - f_equal. lra.
  - cbn [num_sub num_neg num_add Math_pow]. rewrite IH. f_equal.
    unfold Rsum. cbn [fold_right map]. ring.
Qed.

Lemma Rsum_squares_nonneg (m : R) (rs : list R) :
  0 <= Rsum (map (fun r => (r - m) ^ 2) rs).
Proof.
  induction rs as [| r rs IH]; unfold Rsum in *; cbn [map fold_right]; [lra |].
  pose proof (pow2_ge_0 (r - m)). lra.
Qed.

Lemma meanReturn_finite (rs : list R) :
  (1 <= length rs)%nat -> meanReturn_of (map Fin rs) = Fin (spec_mean rs).
Proof.
  intros Hn. unfold meanReturn_of, spec_mean, of_nat.
  rewrite sum_reduce_finite, length_map. cbn [num_div].
  rewrite Rsgn_pos by (apply lt_0_INR; lia). f_equal. lra.
Qed.

Lemma variance_finite (rs : list R) :
  (2 <= length rs)%nat -> variance_of (map Fin rs) = Fin (spec_variance rs).
Proof.
  intros Hn. unfold variance_of. rewrite meanReturn_finite by lia.
  rewrite squares_reduce_finite, length_map. unfold spec_variance, of_nat.
  cbn [num_sub num_neg num_add num_div].
  assert (H2 : 2 <= INR (length rs)) by (apply (le_INR 2); lia).
  rewrite Rsgn_pos by lra. f_equal.
  replace (INR (length rs) + - (1)) with (INR (length rs) - 1) by lra.
  now rewrite Rplus_0_l.
Qed.

Lemma spec_variance_nonneg (rs : list R) :
  (2 <= length rs)%nat -> 0 <= spec_variance rs.
Proof.
  intros Hn. unfold spec_variance.
  assert (H2 : 2 <= INR (length rs)) by (apply (le_INR 2); lia).
  apply Rmult_le_pos; [apply Rsum_squares_nonneg |].
  left. apply Rinv_0_lt_compat. lra.
Qed.

Lemma volatility_finite (rs : list R) :
  (2 <= length rs)%nat -> volatility_of (map Fin rs) = Fin (spec_volatility rs).
Proof.
  intros Hn. unfold volatility_of. rewrite variance_finite by assumption.
  cbn [Math_sqrt]. pose proof (Rsgn_nonneg _ (spec_variance_nonneg rs Hn)) as H.
  destruct (Rsgn (spec_variance rs)); [reflexivity | contradiction | reflexivity].
Qed.

Lemma drift_finite (rs : list R) :
  (2 <= length rs)%nat -> drift_of (map Fin rs) = Fin (spec_drift rs).
Proof.
  intros Hn. unfold drift_of.
  rewrite meanReturn_finite, variance_finite by lia.
  cbn [num_div]. rewrite Rsgn_pos by lra. cbn [num_sub num_neg num_add].
  unfold spec_drift. f_equal.
Qed.

(** ** The statistics stay far inside the range of doubles *)

Lemma max_ratio_ge_1 : 1 <= max_ratio.
Proof. unfold max_ratio. apply pow_R1_Rle. lra. Qed.

Lemma max_ratio_ge_10 : 10 <= max_ratio.
Proof.
  unfold max_ratio. rewrite <- (pow_1 10) at 1. apply Rle_pow; [lra | lia].
Qed.

Lemma Rabs_between (x y : R) : Rabs x <= y -> - y <= x <= y.
Proof. intros H. unfold Rabs in H. destruct (Rcase_abs x); lra. Qed.

Lemma div_le_upper (a b c : R) : 0 < c -> a <= b * c -> a / c <= b.
Proof.
  intros Hc H. replace b with (b * c / c) by (field; lra).
  unfold Rdiv. apply Rmult_le_compat_r; [left; now apply Rinv_0_lt_compat | exact H].
Qed.

Lemma div_ge_lower (a b c : R) : 0 < c -> a * c <= b -> a <= b / c.
Proof.
  intros Hc H. replace a with (a * c / c) by (field; lra).
  unfold Rdiv. apply Rmult_le_compat_r; [left; now apply Rinv_0_lt_compat | exact H].
Qed.

Lemma ln_le_mono (x y : R) : 0 < x -> x <= y -> ln x <= ln y.
Proof.
  intros Hx [H | ->]; [left; now apply ln_increasing | right; reflexivity].
Qed.

Lemma ln_max_ratio_nonneg : 0 <= ln max_ratio.
Proof. rewrite <- ln_1. apply ln_le_mono; [lra | apply max_ratio_ge_1]. Qed.

Lemma log_return_bounded (x : R) :
  / max_ratio <= x <= max_ratio -> Rabs (ln x) <= ln max_ratio.
Proof.
  intros [Hlo Hhi]. pose proof max_ratio_ge_1 as HB.
  assert (HB0 : 0 < max_ratio) by lra.
  assert (Hinv : 0 < / max_ratio) by now apply Rinv_0_lt_compat.
  assert (Hx : 0 < x) by lra.
  apply Rabs_le. split.
  - rewrite <- ln_Rinv by exact HB0. now apply ln_le_mono.
  - now apply ln_le_mono.
Qed.

Lemma log_returns_bounded (prices : list R) :
  bounded_ratios prices ->
  Forall (fun r => Rabs r <= ln max_ratio) (spec_log_returns prices).
Proof.
  intros Hb. apply Forall_forall. intros r Hr. unfold spec_log_returns in Hr.
  apply in_map_iff in Hr. destruct Hr as (i & <- & Hi). apply in_seq in Hi.
  unfold spec_log_return. apply log_return_bounded.
  replace (i + 1)%nat with (S i) by lia. apply Hb. lia.
Qed.

Lemma Rsum_bounded (L : R) (rs : list R) :
  Forall (fun r => Rabs r <= L) rs -> Rabs (Rsum rs) <= INR (length rs) * L.
Proof.
  induction 1 as [| r rs Hr _ IH]; unfold Rsum in *.
  - cbn [fold_right length INR]. rewrite Rabs_R0. lra.
  - cbn [fold_right]. change (length (r :: rs)) with (S (length rs)).
    rewrite S_INR. pose proof (Rabs_triang r (fold_right Rplus 0 rs)). lra.
Qed.

Lemma Rsum_below (M : R) (xs : list R) :
  Forall (fun x => x <= M) xs -> Rsum xs <= INR (length xs) * M.
Proof.
  induction 1 as [| x xs Hx _ IH]; unfold Rsum in *.
  - cbn [fold_right length INR]. lra.
  - cbn [fold_right]. change (length (x :: xs)) with (S (length xs)).
    rewrite S_INR. lra.
Qed.

Lemma mean_bounded (L : R) (rs : list R) :
  (1 <= length rs)%nat ->
  Forall (fun r => Rabs r <= L) rs -> Rabs (spec_mean rs) <= L.
Proof.
  intros Hn Hrs. pose proof (Rsum_bounded L rs Hrs) as Hsum.
  assert (H1 : 1 <= INR (length rs)) by (apply (le_INR 1); lia).
  apply Rabs_between in Hsum. destruct Hsum as [Hlo Hhi].
  unfold spec_mean. apply Rabs_le. split.
  - apply div_ge_lower; [lra |]. nra.
  - apply div_le_upper; [lra |]. nra.
Qed.

Lemma variance_bounded (L : R) (rs : list R) :
  (2 <= length rs)%nat ->
  Forall (fun r => Rabs r <= L) rs ->
  0 <= spec_variance rs <= 8 * L ^ 2.
Proof.
  intros Hn Hrs. split; [now apply spec_variance_nonneg |].
  assert (Hm : Rabs (spec_mean rs) <= L) by (apply mean_bounded; trivial; lia).
  apply Rabs_between in Hm.
  assert (H2 : 2 <= INR (length rs)) by (apply (le_INR 2); lia).
  assert (Hsq : Rsum (map (fun r => (r - spec_mean rs) ^ 2) rs)
                <= INR (length rs) * (4 * L ^ 2)).
  { rewrite <- (length_map (fun r => (r - spec_mean rs) ^ 2) rs).
    apply Rsum_below. apply Forall_forall. intros x Hx.
    apply in_map_iff in Hx. destruct Hx as (r & <- & Hr).
    rewrite Forall_forall in Hrs. pose proof (Hrs r Hr) as Hr'.
    apply Rabs_between in Hr'. nra. }
  unfold spec_variance. apply div_le_upper; [lra |].
  pose proof (pow2_ge_0 L). nra.
Qed.


Lemma volatility_bounded (L : R) (rs : list R) :
  0 <= L -> (2 <= length rs)%nat ->
  Forall (fun r => Rabs r <= L) rs ->
  0 <= spec_volatility rs <= 3 * L.
Proof.
  intros HL Hn Hrs. destruct (variance_bounded L rs Hn Hrs) as [Hv0 Hv].
  unfold spec_volatility. split; [apply sqrt_pos |].
  rewrite <- (sqrt_square (3 * L)) by lra.
  apply sqrt_le_1; try nra.
Qed.

(** Prices between two bounds whose quotient is at most [max_ratio] have
    bounded ratios. *)
Lemma bounded_ratios_between (lo hi : R) (prices : list R) :
  0 < lo -> hi / lo <= max_ratio ->
  Forall (fun p => lo <= p <= hi) prices -> bounded_ratios prices.
Proof.
  intros Hlo Hq Hall i Hi. rewrite Forall_forall in Hall.
  assert (Ha : lo <= nth (S i) prices 0 <= hi) by (apply Hall, nth_In; lia).
  assert (Hb : lo <= nth i prices 0 <= hi) by (apply Hall, nth_In; lia).
  pose proof max_ratio_ge_1 as HB.
  set (a := nth (S i) prices 0) in *. set (b := nth i prices 0) in *.
  assert (Hhi : 0 < hi) by lra.
  assert (Hq' : hi <= max_ratio * lo).
  { replace hi with (hi / lo * lo) by (field; lra).
    apply Rmult_le_compat_r; lra. }
  split.
  - apply div_ge_lower; [lra |].
    apply (Rmult_le_reg_l max_ratio); [lra |].
    rewrite <- Rmult_assoc, Rinv_r, Rmult_1_l by lra. nra.
  - apply div_le_upper; [lra |]. nra.
Qed.



(* ================================================================== *)
(** * Sorting (lines 95 and 104) *)
(* ================================================================== *)

Lemma num_le_trans (x y z : num) : num_le x y -> num_le y z -> num_le x z.
Proof.
  destruct x, y, z; simpl; try tauto. intros; lra.
Qed.

Lemma num_le_refl (x : num) : x <> NaN -> num_le x x.
Proof.
  destruct x; simpl; try tauto. intros _. lra.
Qed.

(** The comparator [a - b] decides the order of two numbers that are not
    NaN. *)
Lemma comparator_positive (x y : num) :
  x <> NaN -> y <> NaN -> is_positive (x - y) = true -> num_le y x.
Proof.
  destruct x as [a | | |], y as [b | | |]; simpl; try tauto; try discriminate.
  destruct (Rlt_dec 0 (a + - b)); [intros; lra | discriminate].
Qed.

Lemma comparator_not_positive (x y : num) :
  x <> NaN -> y <> NaN -> is_positive (x - y) = false -> num_le x y.
Proof.
  destruct x as [a | | |], y as [b | | |]; simpl; try tauto; try discriminate.
  destruct (Rlt_dec 0 (a + - b)); [discriminate | intros; lra].
Qed.

Section Sort.

Variable A : Type.
Variable cmp : A -> A -> num.

Lemma insert_perm (x : A) (l : list A) : Permutation (insert cmp x l) (x :: l).
Proof.
  induction l as [| y l IH]; cbn [insert]; [reflexivity |].
  destruct (is_positive (cmp x y)); [| reflexivity].
  rewrite IH. apply perm_swap.
Qed.

Lemma Array_sort_perm (l : list A) : Permutation (Array_sort cmp l) l.
Proof.
  induction l as [| x l IH]; cbn [Array_sort fold_right]; [reflexivity |].
  rewrite insert_perm. now apply perm_skip.
Qed.

Lemma Array_sort_length (l : list A) : length (Array_sort cmp l) = length l.
Proof. apply Permutation_length, Array_sort_perm. Qed.

Lemma Array_sort_Forall (P : A -> Prop) (l : list A) :
  Forall P l -> Forall P (Array_sort cmp l).
Proof.
  intros H. eapply Permutation_Forall; [| exact H].
  symmetry. apply Array_sort_perm.
Qed.

(** Sorting an array whose elements are all the same leaves it as it is,
    whatever the comparator says. *)
Lemma insert_repeat (x : A) (k : nat) :
  insert cmp x (repeat x k) = repeat x (S k).
Proof.
  induction k as [| k IH]; [reflexivity |].
  cbn [repeat insert]. destruct (is_positive (cmp x x)); [| reflexivity].
  rewrite IH. reflexivity.
Qed.

Lemma Array_sort_repeat (x : A) (k : nat) :
  Array_sort cmp (repeat x k) = repeat x k.
Proof.
  induction k as [| k IH]; [reflexivity |].
  cbn [repeat Array_sort fold_right]. fold (Array_sort cmp (repeat x k)).
  rewrite IH. apply insert_repeat.
Qed.

End Sort.

Section SortByKey.

Variable A : Type.
Variable key : A -> num.

Let by_key (a b : A) : num := (key a - key b)%num.
Let key_le (a b : A) : Prop := num_le (key a) (key b).
Let has_key (a : A) : Prop := key a <> NaN.

Lemma insert_sorted (x : A) (l : list A) :
  has_key x -> Forall has_key l ->
  StronglySorted key_le l -> StronglySorted key_le (insert by_key x l).
Proof.
  intros Hx Hl Hs. induction Hs as [| y l Hs IH Hy]; cbn [insert].
  - repeat constructor.
  - inversion Hl as [| ? ? Hky Hl']; subst.
    destruct (is_positive (by_key x y)) eqn:E.
    + constructor; [now apply IH |].
      eapply Permutation_Forall; [symmetry; apply insert_perm |].
      constructor; [| exact Hy].
      now apply comparator_positive.
    + assert (Hxy : key_le x y) by now apply comparator_not_positive.
      constructor; [now constructor |].
      constructor; [exact Hxy |].
      eapply Forall_impl; [| exact Hy].
      intros z Hz. exact (num_le_trans _ _ _ Hxy Hz).
Qed.

Lemma Array_sort_sorted (l : list A) :
  Forall has_key l -> StronglySorted key_le (Array_sort by_key l).
Proof.
  induction l as [| x l IH]; intros H; cbn [Array_sort fold_right].
  - constructor.
  - inversion H; subst. apply insert_sorted; trivial.
    + now apply Array_sort_Forall.
    + now apply IH.
Qed.

Lemma sorted_nth (l : list A) (d : A) (i j : nat) :
  Forall has_key l -> StronglySorted key_le l ->
  (i <= j < length l)%nat -> key_le (nth i l d) (nth j l d).
Proof.
  intros Hk Hs. revert i j.
  induction Hs as [| y l Hs IH Hy]; intros i j Hij; cbn [length] in Hij; [lia |].
  inversion Hk as [| ? ? Hky Hl']; subst.
  destruct i as [| i], j as [| j]; cbn [nth]; try lia.
  - now apply num_le_refl.
  - rewrite Forall_forall in Hy. apply Hy, nth_In. lia.
  - apply IH; [assumption | lia].
Qed.

End SortByKey.

(* ================================================================== *)
(** * Array indices (lines 100 and 105-109) *)
(* ================================================================== *)

Lemma Int_part_IZR (z : Z) : Int_part (IZR z) = z.
Proof. symmetry. apply Int_part_spec. lra. Qed.

Lemma Int_part_nonneg (r : R) : 0 <= r -> (0 <= Int_part r)%Z.
Proof.
  intros Hr. destruct (base_Int_part r) as [_ H].
  assert (H1 : IZR (-1) < IZR (Int_part r)) by lra.
  apply lt_IZR in H1. lia.
Qed.

Lemma Int_part_below (r : R) (n : nat) : r < INR n -> (Int_part r < Z.of_nat n)%Z.
Proof.
  intros Hr. destruct (base_Int_part r) as [H _].
  apply lt_IZR. rewrite <- INR_IZR_INZ. lra.
Qed.

(** The floor of a number of [0, n) is an index of an array of length [n]. *)
Lemma floor_is_index (r : R) (n : nat) :
  0 <= r < INR n ->
  exists k : nat,
    Math_floor (Fin r) = of_nat k
    /\ array_index (Math_floor (Fin r)) = Some k
    /\ (k < n)%nat
    /\ INR k <= r < INR k + 1.
Proof.
  intros [H0 Hn].
  pose proof (Int_part_nonneg _ H0) as Hz0.
  pose proof (Int_part_below _ _ Hn) as Hzn.
  destruct (base_Int_part r) as [Hlo Hhi].
  exists (Z.to_nat (Int_part r)).
  assert (HINR : INR (Z.to_nat (Int_part r)) = IZR (Int_part r))
    by (rewrite INR_IZR_INZ, Z2Nat.id; trivial).
  repeat split.
  - unfold of_nat. cbn [Math_floor]. now rewrite HINR.
  - cbn [Math_floor array_index]. rewrite Int_part_IZR.
    destruct (Req_dec_T (IZR (Int_part r)) (IZR (Int_part r))); [| contradiction].
    destruct (Z_le_dec 0 (Int_part r)); [reflexivity | contradiction].
  - lia.
  - rewrite HINR. exact Hlo.
  - rewrite HINR. lra.
Qed.

Lemma quantile_in_unit (q : R) : In q quantiles -> 0 < q < 1.
Proof.
  unfold quantiles. cbn [In].
  intros [H | [H | [H | [H | [H | []]]]]]; subst q; lra.
Qed.

Lemma percentile_index_in_range (numSimulations : nat) (q : R) :
  (1 <= numSimulations)%nat -> 0 <= q < 1 ->
  exists k : nat,
    percentile_index numSimulations q = of_nat k
    /\ array_index (percentile_index numSimulations q) = Some k
    /\ (k < numSimulations)%nat
    /\ INR k <= INR numSimulations * q < INR k + 1.
Proof.
  intros Hn Hq. unfold percentile_index, of_nat. cbn [num_mul].
  apply floor_is_index.
  assert (H1 : 1 <= INR numSimulations) by (apply (le_INR 1); lia).
  nra.
Qed.

Lemma pricesAtT_length (allPaths : list (list num)) (t : nat) :
  length (pricesAtT_of allPaths t) = length allPaths.
Proof. unfold pricesAtT_of. now rewrite Array_sort_length, length_map. Qed.

(* ================================================================== *)
(** * The percentile indices in binary64 arithmetic *)
(* ================================================================== *)

(** In exact arithmetic the index of the quantile a/100 is the integer
    quotient of [n * a] by 100. *)
Lemma percentile_index_exact (n a : nat) :
  percentile_index n (IZR (Z.of_nat a) / 100) = of_nat (n * a / 100).
Proof.
  unfold percentile_index, of_nat. cbn [num_mul Math_floor]. f_equal.
  rewrite (INR_IZR_INZ (n * a / 100)). f_equal. symmetry. apply Int_part_spec.
  rewrite <- !INR_IZR_INZ.
  pose proof (Nat.div_mod_eq (n * a) 100) as E.
  pose proof (Nat.mod_upper_bound (n * a) 100) as Hm.
  apply (f_equal INR) in E. rewrite mult_INR, plus_INR, mult_INR in E.
  assert (H0 : 0 <= INR ((n * a) mod 100)) by apply pos_INR.
  assert (H1 : INR ((n * a) mod 100) < 100).
  { replace 100 with (INR 100) by (rewrite INR_IZR_INZ; reflexivity).
    apply lt_INR, Hm. discriminate. }
  replace (INR 100) with 100 in E by (rewrite INR_IZR_INZ; reflexivity).
  lra.
Qed.

Lemma all_from_spec (check : int -> bool) (fuel : nat) (n : int) :
  (Uint63.to_Z n + Z.of_nat fuel < Uint63.wB)%Z ->
  all_from fuel n check = true ->
  forall m, (Uint63.to_Z n <= Uint63.to_Z m < Uint63.to_Z n + Z.of_nat fuel)%Z ->
            check m = true.
Proof.
  revert n. induction fuel as [| f IH]; intros n Hb H m Hm; [lia |].
  cbn [all_from] in H. apply andb_prop in H. destruct H as [H0 H1].
  destruct (Z.eq_dec (Uint63.to_Z m) (Uint63.to_Z n)) as [E | Hne].
  - apply Uint63.to_Z_inj in E. now subst m.
  - assert (Hn1 : Uint63.to_Z (Uint63.add n 1) = (Uint63.to_Z n + 1)%Z).
    { rewrite Uint63.add_spec, Uint63.to_Z_1. apply Z.mod_small.
      pose proof (Uint63.to_Z_bounded n). lia. }
    apply (IH (Uint63.add n 1)); trivial; rewrite Hn1; lia.
Qed.

(** Checked by evaluation for every path count from 1 to 1 000 000. *)
Lemma double_indices_agree (n : int) :
  (1 <= Uint63.to_Z n <= 1000000)%Z -> double_index_agrees n = true.
Proof.
  intros H. apply (all_from_spec double_index_agrees (Z.to_nat 1000000) 1).
  - vm_compute. reflexivity.
  - vm_compute. reflexivity.
  - rewrite Uint63.to_Z_1, Z2Nat.id by lia. lia.
Qed.

(** The doubles of the table are the ones the decimal literals of lines
    105-109 denote. *)
#[warnings="-inexact-float"]
Example double_quantiles_literals :
  map snd double_quantiles = [0.05; 0.25; 0.5; 0.75; 0.95]%float.
Proof. reflexivity. Qed.

Lemma double_quantiles_numerators :
  map (fun aq => IZR (Uint63.to_Z (fst aq)) / 100) double_quantiles = quantiles.
Proof. reflexivity. Qed.

Lemma double_quantile_numerator (a : int) (q : float) :
  In (a, q) double_quantiles -> (0 <= Uint63.to_Z a < 100)%Z.
Proof.
  unfold double_quantiles. cbn [In].
  intros [H | [H | [H | [H | [H | []]]]]];
    apply (f_equal fst) in H; cbn [fst] in H; subst a;
    vm_compute; split; discriminate || reflexivity.
Qed.

Lemma int_index_value (n : nat) (a : int) :
  (Z.of_nat n <= 1000000)%Z -> (0 <= Uint63.to_Z a <= 100)%Z ->
  Uint63.div (Uint63.mul (Uint63.of_Z (Z.of_nat n)) a) 100
  = Uint63.of_Z (Z.of_nat (n * Z.to_nat (Uint63.to_Z a) / 100)).
Proof.
  intros Hn Ha. apply Uint63.to_Z_inj.
  assert (HwB : (Uint63.wB = 9223372036854775808)%Z) by reflexivity.
  assert (H100 : Uint63.to_Z 100 = 100%Z) by reflexivity.
  rewrite Uint63.div_spec, Uint63.mul_spec, !Uint63.of_Z_spec, H100.
  rewrite (Z.mod_small (Z.of_nat n)) by lia.
  rewrite (Z.mod_small (Z.of_nat n * Uint63.to_Z a)) by nia.
  rewrite Nat2Z.inj_div, Nat2Z.inj_mul, Z2Nat.id by lia.
  change (Z.of_nat 100) with 100%Z.
  symmetry. apply Z.mod_small. split.
  - apply Z.div_pos; nia.
  - apply Z.div_lt_upper_bound; nia.
Qed.

(** For every path count from 1 to 1 000 000 and each of the five
    quantiles, the index the engine computes on doubles is the index of the
    embedding: rounding does not move the floor. *)
Lemma double_index_is_exact_index (n : nat) (a : int) (q : float) :
  (1 <= Z.of_nat n <= 1000000)%Z ->
  In (a, q) double_quantiles ->
  exists k : nat,
    percentile_index n (IZR (Uint63.to_Z a) / 100) = of_nat k
    /\ (k < n)%nat
    /\ is_floor_of (Uint63.of_Z (Z.of_nat k))
         (PrimFloat.mul (PrimFloat.of_uint63 (Uint63.of_Z (Z.of_nat n))) q) = true.
Proof.
  intros Hn Hin. pose proof (double_quantile_numerator a q Hin) as Ha.
  exists (n * Z.to_nat (Uint63.to_Z a) / 100)%nat. split; [| split].
  - rewrite <- percentile_index_exact. now rewrite Z2Nat.id by lia.
  - apply Nat.Div0.div_lt_upper_bound. nia.
  - assert (Hn' : (1 <= Uint63.to_Z (Uint63.of_Z (Z.of_nat n)) <= 1000000)%Z).
    { assert (HwB : (Uint63.wB = 9223372036854775808)%Z) by reflexivity.
      rewrite Uint63.of_Z_spec, Z.mod_small; lia. }
    pose proof (double_indices_agree _ Hn') as H.
    unfold double_index_agrees in H. rewrite forallb_forall in H.
    specialize (H (a, q) Hin). cbn [fst snd] in H.
    now rewrite int_index_value in H by lia.
Qed.

(** For a path count of at least 1, the index floor(pathCount * q) of each
    of the five quantiles lies in [0, pathCount - 1]: clamping it to that
    range changes nothing, and the read at it returns an element of the
    sorted cross-section, never [undefined]. Up to a million paths the same
    index is the floor of the product computed on doubles. *)
Lemma quantile_read_in_bounds
  (allPaths : list (list num)) (numSimulations t : nat) (q : R) :
  (1 <= numSimulations)%nat ->
  length allPaths = numSimulations ->
  In q quantiles ->
  exists k : nat,
    percentile_index numSimulations q = of_nat k
    /\ INR k <= INR numSimulations * q < INR k + 1
    /\ (0 <= Z.of_nat k <= Z.of_nat numSimulations - 1)%Z
    /\ clamp 0 (Z.of_nat numSimulations - 1) (Z.of_nat k) = Z.of_nat k
    /\ (k < length (pricesAtT_of allPaths t))%nat
    /\ (exists x,
         nth_error (pricesAtT_of allPaths t) k = Some x
         /\ number_item (pricesAtT_of allPaths t)
              (percentile_index numSimulations q) = x)
    /\ ((Z.of_nat numSimulations <= 1000000)%Z ->
        forall (a : int) (qd : float),
          In (a, qd) double_quantiles -> q = IZR (Uint63.to_Z a) / 100 ->
          is_floor_of (Uint63.of_Z (Z.of_nat k))
            (PrimFloat.mul
               (PrimFloat.of_uint63 (Uint63.of_Z (Z.of_nat numSimulations))) qd)
          = true).
Proof.
  intros Hn Hlen Hq. apply quantile_in_unit in Hq.
  destruct (percentile_index_in_range numSimulations q Hn) as (k & Hk & Hidx & Hlt & Hfl);
    [lra |].
  exists k. rewrite pricesAtT_length, Hlen.
  split; [exact Hk |]. split; [exact Hfl |]. split; [lia |].
  split; [unfold clamp; lia |]. split; [exact Hlt |]. split.
  - exists (nth k (pricesAtT_of allPaths t) NaN). split.
    + apply nth_error_nth'. rewrite pricesAtT_length. lia.
    + unfold number_item. now rewrite Hidx.
  - intros Hmax a qd Hin ->.
    destruct (double_index_is_exact_index numSimulations a qd) as (k' & Hk' & _ & Hfloor);
      [lia | exact Hin |].
    rewrite Hk in Hk'. injection Hk' as Hk'. apply INR_eq in Hk'. now subst k'.
Qed.

(* ================================================================== *)
(** * The tape *)
(* ================================================================== *)

Lemma nonzero_draws_le_length (tp : tape) : (nonzero_draws tp <= length tp)%nat.
Proof.
  induction tp as [| x tp IH]; cbn [nonzero_draws length]; [lia |].
  destruct (is_zero (Fin x)); lia.
Qed.

Lemma nonzero_draws_repeat (x : R) (k : nat) :
  x <> 0 -> nonzero_draws (repeat x k) = k.
Proof.
  intros Hx. induction k as [| k IH]; [reflexivity |].
  cbn [repeat nonzero_draws]. rewrite (is_zero_Fin_nonzero _ Hx), IH. reflexivity.
Qed.

Lemma consumes_refl (tp : tape) : consumes tp tp 0.
Proof. split; [now exists [] | lia]. Qed.

Lemma consumes_trans {tp r1 r2 : tape} {a b : nat} :
  consumes tp r1 a -> consumes r1 r2 b -> consumes tp r2 (a + b).
Proof.
  intros [[read1 H1] Ha] [[read2 H2] Hb]. split; [| lia].
  exists (read1 ++ read2). subst tp r1. now rewrite app_assoc.
Qed.

Lemma consumes_Forall {P : R -> Prop} {tp rest : tape} {k : nat} :
  consumes tp rest k -> Forall P tp -> Forall P rest.
Proof.
  intros [[read H] _] HP. subst tp. now apply Forall_app in HP.
Qed.

(* ================================================================== *)
(** * Path generation (lines 79-91) *)
(* ================================================================== *)

Lemma draw_nonzero_runs (tp : tape) :
  (1 <= nonzero_draws tp)%nat ->
  exists x rest,
    draw_nonzero tp = Done (Fin x) rest /\ x <> 0 /\ In x tp /\ consumes tp rest 1.
Proof.
  induction tp as [| y tp IH]; cbn [nonzero_draws]; [lia |].
  intros H. cbn [draw_nonzero]. destruct (is_zero (Fin y)) eqn:E.
  - destruct IH as (x & rest & Hrun & Hx & Hin & Hc); [lia |].
    exists x, rest. repeat split; trivial.
    + now right.
    + destruct Hc as [[read Hr] _]. exists (y :: read). now subst tp.
    + cbn [nonzero_draws]. rewrite E. destruct Hc as [_ Hc]. lia.
  - exists y, tp. repeat split.
    + intros ->. now rewrite is_zero_Fin_0 in E.
    + now left.
    + now exists [y].
    + cbn [nonzero_draws]. rewrite E. lia.
Qed.

Lemma generateGaussian_runs {tp : tape} :
  Forall unit_draw tp ->
  (2 <= nonzero_draws tp)%nat ->
  exists z rest,
    generateGaussian tp = Done (Fin z) rest /\ consumes tp rest 2.
Proof.
  intros Hu H.
  destruct (draw_nonzero_runs tp) as (u & r1 & Hr1 & Hu0 & Hin1 & Hc1); [lia |].
  destruct (draw_nonzero_runs r1) as (v & r2 & Hr2 & Hv0 & Hin2 & Hc2);
    [destruct Hc1; lia |].
  assert (Hur : 0 < u < 1).
  { rewrite Forall_forall in Hu. specialize (Hu u Hin1). unfold unit_draw in Hu. lra. }
  exists (sqrt (-2 * ln u) * cos (2 * PI * v)), r2. split.
  - unfold generateGaussian, bind. rewrite Hr1, Hr2. unfold ret.
    now rewrite (box_muller_unit _ v Hur).
  - exact (consumes_trans Hc1 Hc2).
Qed.

Lemma positive_step (d v z p : R) :
  0 < p ->
  (Fin p * Math_exp (Fin d + Fin v * Fin z))%num = Fin (p * exp (d + v * z))
  /\ 0 < p * exp (d + v * z).
Proof.
  intros Hp. split; [reflexivity |].
  apply Rmult_lt_0_compat; [exact Hp | apply exp_pos].
Qed.

Lemma NaN_step (v z cur : num) : (cur * Math_exp (NaN + v * z))%num = NaN.
Proof. cbn [num_add Math_exp]. apply num_mul_NaN_r. Qed.

Lemma path_loop (drift volatility : num) (count lo : nat)
  (path : list num) (cur : num) (tp : tape) :
  Forall unit_draw tp ->
  (2 * count <= nonzero_draws tp)%nat ->
  exists steps cur' rest,
    for_loop lo count (fun _ => path_step drift volatility) (path, cur) tp
    = Done (path ++ steps, cur') rest
    /\ length steps = count
    /\ consumes tp rest (2 * count)
    /\ (drift = NaN -> steps = repeat NaN count)
    /\ (is_finite drift -> is_finite volatility -> positive_finite cur ->
        Forall positive_finite steps /\ positive_finite cur').
Proof.
  revert lo path cur tp. induction count as [| c IH]; intros lo path cur tp Hu Hn.
  - exists [], cur, tp. cbn [for_loop]. unfold ret. rewrite app_nil_r.
    split; [reflexivity |]. split; [reflexivity |].
    split; [apply consumes_refl |]. split; [reflexivity |].
    intros _ _ Hcur. split; [constructor | exact Hcur].
  - destruct (generateGaussian_runs Hu) as (z & r1 & Hz & Hc1); [lia |].
    set (cur1 := (cur * Math_exp (drift + volatility * Fin z))%num).
    destruct (IH (S lo) (path ++ [cur1]) cur1 r1) as (steps & cur' & rest & Hrun & Hlen & Hc & HNaN & Hfin).
    { exact (consumes_Forall Hc1 Hu). }
    { destruct Hc1. lia. }
    exists (cur1 :: steps), cur', rest. split; [| split; [| split; [| split]]].
    + cbn [for_loop]. unfold bind at 1. unfold path_step at 1. unfold bind at 1.
      rewrite Hz. cbn [fst snd]. unfold ret at 1. fold cur1.
      rewrite Hrun, <- app_assoc. reflexivity.
    + cbn [length]. now rewrite Hlen.
    + replace (2 * S c)%nat with (2 + 2 * c)%nat by lia.
      exact (consumes_trans Hc1 Hc).
    + intros Hd. cbn [repeat]. rewrite (HNaN Hd). f_equal.
      unfold cur1. rewrite Hd. apply NaN_step.
    + intros Hfd Hfv Hcur.
      destruct drift as [d | | |], volatility as [v | | |], cur as [p | | |];
        try contradiction.
      destruct (positive_step d v z p Hcur) as [Hstep Hpos].
      assert (Hcur1 : positive_finite cur1) by (unfold cur1; rewrite Hstep; exact Hpos).
      destruct (Hfin I I Hcur1) as [Hsteps Hcur'].
      split; [now constructor | exact Hcur'].
Qed.

Lemma simulate_path_runs (drift volatility lastPrice : num) (days : nat) (tp : tape) :
  Forall unit_draw tp ->
  (2 * days <= nonzero_draws tp)%nat ->
  exists path rest,
    simulate_path drift volatility lastPrice days tp = Done path rest
    /\ generated_path drift volatility lastPrice days path
    /\ consumes tp rest (2 * days).
Proof.
  intros Hu Hn.
  destruct (path_loop drift volatility days 1 [lastPrice] lastPrice tp Hu Hn)
    as (steps & cur' & rest & Hrun & Hlen & Hc & HNaN & Hfin).
  exists (lastPrice :: steps), rest. split; [| split]; trivial.
  - unfold simulate_path, bind. rewrite Hrun. reflexivity.
  - repeat split.
    + cbn [length]. now rewrite Hlen.
    + intros Hd. now rewrite (HNaN Hd).
    + intros Hfd Hfv Hp. constructor; [exact Hp |]. now apply Hfin.
Qed.

Lemma paths_loop (drift volatility lastPrice : num) (days count lo : nat)
  (acc : list (list num)) (tp : tape) :
  Forall unit_draw tp ->
  (2 * (days * count) <= nonzero_draws tp)%nat ->
  exists paths rest,
    for_loop lo count (fun _ => push_path drift volatility lastPrice days) acc tp
    = Done (acc ++ paths) rest
    /\ length paths = count
    /\ Forall (generated_path drift volatility lastPrice days) paths
    /\ consumes tp rest (2 * (days * count)).
Proof.
  revert lo acc tp. induction count as [| c IH]; intros lo acc tp Hu Hn.
  - exists [], tp. cbn [for_loop]. unfold ret. rewrite app_nil_r.
    repeat split; trivial.
    + exists []. reflexivity.
    + lia.
  - destruct (simulate_path_runs drift volatility lastPrice days tp Hu)
      as (path & r1 & Hpath & Hgen & Hc1); [lia |].
    destruct (IH (S lo) (acc ++ [path]) r1) as (paths & rest & Hrun & Hlen & Hall & Hc).
    { exact (consumes_Forall Hc1 Hu). }
    { destruct Hc1. nia. }
    exists (path :: paths), rest. split; [| split; [| split]].
    + cbn [for_loop]. unfold bind at 1. unfold push_path at 1. unfold bind at 1.
      rewrite Hpath. unfold ret at 1. rewrite Hrun, <- app_assoc. reflexivity.
    + cbn [length]. now rewrite Hlen.
    + now constructor.
    + replace (2 * (days * S c))%nat with (2 * days + 2 * (days * c))%nat by lia.
      exact (consumes_trans Hc1 Hc).
Qed.

Lemma simulate_paths_runs (drift volatility lastPrice : num)
  (days numSimulations : nat) (tp : tape) :
  Forall unit_draw tp ->
  (2 * (days * numSimulations) <= nonzero_draws tp)%nat ->
  exists allPaths rest,
    simulate_paths drift volatility lastPrice days numSimulations tp
    = Done allPaths rest
    /\ length allPaths = numSimulations
    /\ Forall (generated_path drift volatility lastPrice days) allPaths
    /\ consumes tp rest (2 * (days * numSimulations)).
Proof.
  intros Hu Hn.
  destruct (paths_loop drift volatility lastPrice days numSimulations 0 [] tp Hu Hn)
    as (paths & rest & Hrun & Hlen & Hall & Hc).
  exists paths, rest. repeat split; trivial; apply Hc.
Qed.

(* ================================================================== *)
(** * Selection of the outlier paths (lines 93-98) *)
(* ================================================================== *)

Lemma mapi_from {A B : Type} (f : A -> nat -> B) (d : A) (l : list A) (s : nat) :
  map (fun p => f (snd p) (fst p)) (combine (seq s (length l)) l)
  = map (fun j => f (nth (j - s) l d) j) (seq s (length l)).
Proof.
  revert s. induction l as [| a l IH]; intros s; [reflexivity |].
  cbn [length seq combine map fst snd]. rewrite Nat.sub_diag. cbn [nth].
  f_equal. rewrite IH. apply map_ext_in. intros j Hj. apply in_seq in Hj.
  replace (j - s)%nat with (S (j - S s)) by lia. reflexivity.
Qed.

Lemma mapi_seq {A B : Type} (f : A -> nat -> B) (d : A) (l : list A) :
  mapi f l = map (fun j => f (nth j l d) j) (seq 0 (length l)).
Proof.
  unfold mapi. rewrite (mapi_from f d l 0). apply map_ext.
  intros j. now rewrite Nat.sub_0_r.
Qed.

Lemma sortedPathIndices_perm (allPaths : list (list num)) (days : nat) :
  Permutation (sortedPathIndices_of allPaths days)
    (map (rank_of allPaths days) (seq 0 (length allPaths))).
Proof.
  unfold sortedPathIndices_of. rewrite Array_sort_perm.
  rewrite (mapi_seq _ [] allPaths). reflexivity.
Qed.

Lemma sortedPathIndices_length (allPaths : list (list num)) (days : nat) :
  length (sortedPathIndices_of allPaths days) = length allPaths.
Proof.
  rewrite (Permutation_length (sortedPathIndices_perm allPaths days)).
  now rewrite length_map, length_seq.
Qed.

Lemma sortedPathIndices_In (allPaths : list (list num)) (days : nat) (e : ranked) :
  In e (sortedPathIndices_of allPaths days) <->
  exists j, (j < length allPaths)%nat /\ e = rank_of allPaths days j.
Proof.
  split.
  - intros H. apply (Permutation_in _ (sortedPathIndices_perm allPaths days)) in H.
    apply in_map_iff in H. destruct H as (j & <- & Hj). apply in_seq in Hj.
    exists j. split; [lia | reflexivity].
  - intros (j & Hj & ->).
    apply (Permutation_in _ (Permutation_sym (sortedPathIndices_perm allPaths days))).
    apply in_map, in_seq. lia.
Qed.

Lemma sortedPathIndices_nth (allPaths : list (list num)) (days i : nat) :
  (i < length allPaths)%nat ->
  exists j, (j < length allPaths)%nat
    /\ nth_error (sortedPathIndices_of allPaths days) i = Some (rank_of allPaths days j).
Proof.
  intros Hi.
  assert (Hlen : (i < length (sortedPathIndices_of allPaths days))%nat)
    by (now rewrite sortedPathIndices_length).
  destruct (nth_error (sortedPathIndices_of allPaths days) i) as [e |] eqn:E.
  - apply nth_error_In in E. apply sortedPathIndices_In in E.
    destruct E as (j & Hj & ->). now exists j.
  - apply nth_error_None in E. lia.
Qed.

(** When no terminal price is NaN, the first record of the sorted array has
    the least terminal price and the last record the greatest. *)
Lemma sortedPathIndices_extreme (allPaths : list (list num)) (days imin imax : nat) :
  (forall j, (j < length allPaths)%nat -> terminal allPaths days j <> NaN) ->
  nth_error (sortedPathIndices_of allPaths days) 0
  = Some (rank_of allPaths days imin) ->
  nth_error (sortedPathIndices_of allPaths days)
    (length (sortedPathIndices_of allPaths days) - 1)
  = Some (rank_of allPaths days imax) ->
  forall j, (j < length allPaths)%nat ->
    num_le (terminal allPaths days imin) (terminal allPaths days j)
    /\ num_le (terminal allPaths days j) (terminal allPaths days imax).
Proof.
  intros Hreal Hfirst Hlast j Hj.
  set (sorted := sortedPathIndices_of allPaths days) in *.
  assert (Hkeys : Forall (fun e => finalPrice e <> NaN) sorted).
  { apply Forall_forall. intros e He. apply sortedPathIndices_In in He.
    destruct He as (k & Hk & ->). now apply Hreal. }
  assert (Hsorted : StronglySorted (fun a b => num_le (finalPrice a) (finalPrice b))
                      sorted).
  { unfold sorted, sortedPathIndices_of. apply Array_sort_sorted.
    eapply Permutation_Forall; [| exact Hkeys].
    unfold sorted, sortedPathIndices_of. apply Array_sort_perm. }
  assert (Hin : In (rank_of allPaths days j) sorted)
    by (apply sortedPathIndices_In; now exists j).
  destruct (In_nth _ _ (rank_of allPaths days 0) Hin) as (i & Hi & Hnth).
  pose proof (nth_error_nth _ _ (rank_of allPaths days 0) Hfirst) as H0.
  pose proof (nth_error_nth _ _ (rank_of allPaths days 0) Hlast) as H1.
  split.
  - pose proof (sorted_nth ranked finalPrice sorted (rank_of allPaths days 0) 0 i
                  Hkeys Hsorted) as H.
    rewrite H0, Hnth in H. apply H. lia.
  - pose proof (sorted_nth ranked finalPrice sorted (rank_of allPaths days 0) i
                  (length sorted - 1) Hkeys Hsorted) as H.
    rewrite H1, Hnth in H. apply H. lia.
Qed.

(* ================================================================== *)
(** * The sample indices (line 100) *)
(* ================================================================== *)

Lemma indices_loop (numSimulations count lo : nat) (acc : list num) (tp : tape) :
  (count <= length tp)%nat ->
  exists draws rest,
    for_loop lo count (fun _ => draw_index numSimulations) acc tp
    = Done (acc ++ map (fun x => Math_floor (Fin x * of_nat numSimulations)%num) draws)
        rest
    /\ length draws = count
    /\ tp = draws ++ rest.
Proof.
  revert lo acc tp. induction count as [| c IH]; intros lo acc tp Hn.
  - exists [], tp. cbn [for_loop map]. unfold ret. now rewrite app_nil_r.
  - destruct tp as [| x tp]; cbn [length] in Hn; [lia |].
    destruct (IH (S lo) (acc ++ [Math_floor (Fin x * of_nat numSimulations)%num]) tp)
      as (draws & rest & Hrun & Hlen & Htp); [lia |].
    exists (x :: draws), rest. split; [| split].
    + cbn [for_loop]. unfold bind at 1. unfold draw_index at 1. unfold bind at 1.
      cbn [Math_random]. unfold ret at 1. rewrite Hrun, <- app_assoc. reflexivity.
    + cbn [length]. now rewrite Hlen.
    + now rewrite Htp.
Qed.

Lemma floors_are_indices (numSimulations : nat) (draws : list R) :
  (1 <= numSimulations)%nat ->
  Forall unit_draw draws ->
  exists sampled,
    map (fun x => Math_floor (Fin x * of_nat numSimulations)%num) draws
    = map of_nat sampled
    /\ length sampled = length draws
    /\ Forall (fun k => (k < numSimulations)%nat) sampled
    /\ indices_of_draws numSimulations draws sampled.
Proof.
  intros Hn Hu. induction Hu as [| x draws Hx Hu IH].
  - exists []. repeat split; constructor.
  - destruct IH as (sampled & Hmap & Hlen & Hrange & Hfl).
    assert (H1 : 1 <= INR numSimulations) by (apply (le_INR 1); lia).
    destruct (floor_is_index (x * INR numSimulations) numSimulations)
      as (k & Hk & _ & Hlt & Hbounds).
    { unfold unit_draw in Hx. nra. }
    exists (k :: sampled). repeat split.
    + cbn [map]. rewrite <- Hmap. f_equal. exact Hk.
    + cbn [length]. now rewrite Hlen.
    + now constructor.
    + now constructor.
Qed.

Lemma array_index_of_nat (k : nat) : array_index (of_nat k) = Some k.
Proof.
  unfold of_nat. cbn [array_index]. rewrite Int_part_INR.
  destruct (Req_dec_T (INR k) (IZR (Z.of_nat k))) as [_ | H];
    [| now rewrite INR_IZR_INZ in H].
  destruct (Z_le_dec 0 (Z.of_nat k)); [| lia]. now rewrite Nat2Z.id.
Qed.

(* ================================================================== *)
(** * Aggregation (lines 102-128) *)
(* ================================================================== *)

Lemma for_loop_push {A : Type} (f : nat -> A) (body : nat -> list A -> M (list A)) :
  (forall i acc tp, body i acc tp = Done (acc ++ [f i]) tp) ->
  forall count lo acc tp,
    for_loop lo count body acc tp = Done (acc ++ map f (seq lo count)) tp.
Proof.
  intros Hbody. induction count as [| c IH]; intros lo acc tp.
  - cbn. unfold ret. now rewrite app_nil_r.
  - cbn [for_loop seq map]. unfold bind. rewrite Hbody, IH, <- app_assoc.
    reflexivity.
Qed.

Lemma sample_values (allPaths : list (list num)) (t : nat) (sampled : list nat)
  (tp : tape) :
  Forall (fun k => (k < length allPaths)%nat) sampled ->
  mapM (sample_value allPaths t) (map of_nat sampled) tp
  = Done (map (fun j => price_at allPaths j t) sampled) tp.
Proof.
  intros H. induction H as [| k sampled Hk H IH]; [reflexivity |].
  cbn [map mapM]. unfold bind at 1. unfold sample_value at 1. unfold bind at 1.
  unfold item. rewrite array_index_of_nat.
  rewrite (nth_error_nth' allPaths [] Hk). cbn [defined]. unfold ret at 1 2.
  unfold bind. rewrite IH. reflexivity.
Qed.

Lemma dayData_of_runs (allPaths : list (list num)) (numSimulations imin imax : nat)
  (sampled : list nat) (t : nat) (tp : tape) :
  (imin < length allPaths)%nat -> (imax < length allPaths)%nat ->
  Forall (fun k => (k < length allPaths)%nat) sampled ->
  dayData_of allPaths numSimulations imin imax (map of_nat sampled) t tp
  = Done (dayData_value allPaths numSimulations imin imax sampled t) tp.
Proof.
  intros Hmin Hmax Hs. unfold dayData_of.
  rewrite (nth_error_nth' allPaths [] Hmin), (nth_error_nth' allPaths [] Hmax).
  cbn [defined]. unfold bind, ret. rewrite (sample_values allPaths t sampled tp Hs).
  reflexivity.
Qed.

Lemma aggregate_runs (allPaths : list (list num)) (numSimulations imin imax : nat)
  (sampled : list nat) (days : nat) (tp : tape) :
  (imin < length allPaths)%nat -> (imax < length allPaths)%nat ->
  Forall (fun k => (k < length allPaths)%nat) sampled ->
  aggregate allPaths numSimulations imin imax (map of_nat sampled) days tp
  = Done (map (dayData_value allPaths numSimulations imin imax sampled)
            (seq 0 (S days))) tp.
Proof.
  intros Hmin Hmax Hs. unfold aggregate.
  rewrite (for_loop_push (dayData_value allPaths numSimulations imin imax sampled));
    [reflexivity |].
  intros i acc tp'. unfold push_dayData, bind.
  rewrite dayData_of_runs by assumption. reflexivity.
Qed.

(* ================================================================== *)
(** * A run of the engine *)
(* ================================================================== *)

(** On a non-empty series, with at least one path and a tape that holds the
    draws the run needs, [runGBM] goes through all its phases and returns a
    result. *)
Lemma runGBM_runs (historicalPrices : list num) (days numSimulations : nat)
  (tp : tape) :
  historicalPrices <> [] ->
  (1 <= numSimulations)%nat ->
  fair_tape tp days numSimulations ->
  exists allPaths tp1 imin imax draws sampled rest,
    run_of historicalPrices days numSimulations tp
      allPaths tp1 imin imax draws sampled rest.
Proof.
  intros Hne Hn [Hu Hen]. unfold enough_draws in Hen.
  destruct (simulate_paths_runs
              (drift_of (log_returns historicalPrices))
              (volatility_of (log_returns historicalPrices))
              (lastPrice_of historicalPrices) days numSimulations tp Hu)
    as (allPaths & tp1 & Hrun & Hlen & Hall & Hc); [lia |].
  destruct (sortedPathIndices_nth allPaths days 0) as (imin & Himin & Hfirst);
    [lia |].
  destruct (sortedPathIndices_nth allPaths days (length allPaths - 1))
    as (imax & Himax & Hlast); [lia |].
  rewrite <- (sortedPathIndices_length allPaths days) in Hlast at 1.
  pose proof (consumes_Forall Hc Hu) as Hu1.
  assert (H30 : (30 <= length tp1)%nat).
  { pose proof (nonzero_draws_le_length tp1). destruct Hc. lia. }
  destruct (indices_loop numSimulations 30 0 [] tp1 H30)
    as (draws & rest & Hidx & Hdraws & Htp1).
  assert (Hud : Forall unit_draw draws).
  { rewrite Htp1 in Hu1. now apply Forall_app in Hu1. }
  destruct (floors_are_indices numSimulations draws Hn Hud)
    as (sampled & Hmap & Hslen & Hrange & Hfl).
  exists allPaths, tp1, imin, imax, draws, sampled, rest.
  constructor; trivial; try lia.
  destruct historicalPrices as [| p0 prices]; [contradiction |].
  unfold runGBM. cbv beta iota zeta. unfold bind at 1. rewrite Hrun.
  unfold bind at 1. rewrite Hfirst. cbn [defined]. unfold ret at 1.
  unfold bind at 1. rewrite Hlast. cbn [defined]. unfold ret at 1.
  unfold bind at 1. unfold draw_randomIndices. rewrite Hidx. cbn [app].
  rewrite Hmap. unfold bind at 1. cbn [index rank_of].
  rewrite aggregate_runs;
    [| lia | lia | eapply Forall_impl; [| exact Hrange]; cbv beta; intros; lia ].
  unfold bind.
  assert (Hfinal : nth_error
            (map (dayData_value allPaths numSimulations imin imax sampled)
               (seq 0 (S days))) days
          = Some (dayData_value allPaths numSimulations imin imax sampled days)).
  { rewrite nth_error_map, nth_error_nth' with (d := 0%nat)
      by (rewrite length_seq; lia).
    now rewrite seq_nth by lia. }
  rewrite Hfinal. reflexivity.
Qed.

Lemma lastPrice_of_last (historicalPrices : list num) :
  lastPrice_of historicalPrices = last historicalPrices NaN.
Proof.
  unfold lastPrice_of, number_at.
  induction historicalPrices as [| p l IH]; [reflexivity |].
  destruct l as [| p' l]; [reflexivity |].
  cbn [length last] in *. rewrite <- IH.
  replace (S (S (length l)) - 1)%nat with (S (length l)) by lia.
  cbn [nth]. now replace (S (length l) - 1)%nat with (length l) by lia.
Qed.

Lemma result_value_day (historicalPrices : list num) (allPaths : list (list num))
  (days numSimulations imin imax : nat) (sampled : list nat) (t : nat) :
  (t <= days)%nat ->
  day_aggregate
    (result_value historicalPrices allPaths days numSimulations imin imax sampled) t
  = dayData_value allPaths numSimulations imin imax sampled t.
Proof.
  intros Ht. unfold day_aggregate, result_value. cbn [data].
  rewrite (nth_indep _ no_day
             (dayData_value allPaths numSimulations imin imax sampled 0))
    by (rewrite length_map, length_seq; lia).
  rewrite map_nth, seq_nth by lia. reflexivity.
Qed.

Lemma generated_paths_nth {drift volatility lastPrice : num} {days : nat}
  {allPaths : list (list num)} (j : nat) :
  Forall (generated_path drift volatility lastPrice days) allPaths ->
  (j < length allPaths)%nat ->
  generated_path drift volatility lastPrice days (nth j allPaths []).
Proof.
  intros H Hj. rewrite Forall_forall in H. apply H, nth_In, Hj.
Qed.

(** The cross-section of day 0 holds the last price only. *)
Lemma pricesAtT_day0 {drift volatility lastPrice : num} {days : nat}
  {allPaths : list (list num)} :
  Forall (generated_path drift volatility lastPrice days) allPaths ->
  pricesAtT_of allPaths 0 = repeat lastPrice (length allPaths).
Proof.
  intros H. unfold pricesAtT_of.
  replace (map (fun path => number_at path 0) allPaths)
    with (repeat lastPrice (length allPaths)).
  - apply Array_sort_repeat.
  - induction H as [| path l Hp H IH]; [reflexivity |].
    cbn [length repeat map]. rewrite IH. f_equal.
    destruct Hp as (_ & H0 & _). now rewrite H0.
Qed.

Lemma number_item_repeat (x : num) (numSimulations : nat) (q : R) :
  (1 <= numSimulations)%nat -> 0 <= q < 1 ->
  number_item (repeat x numSimulations) (percentile_index numSimulations q) = x.
Proof.
  intros Hn Hq.
  destruct (percentile_index_in_range numSimulations q Hn Hq) as (k & _ & Hk & Hlt & _).
  unfold number_item, number_at. rewrite Hk.
  rewrite (nth_indep _ NaN x) by (now rewrite repeat_length).
  apply nth_repeat.
Qed.

(* ================================================================== *)
(** * Shape of the result *)
(* ================================================================== *)

(** C3. For a non-empty price series and at least one path, [runGBM]
    returns a result whose per-day aggregates are exactly [days + 1] in
    number, with the [day] fields 0, 1, ..., [days] in this order. *)
Theorem one_aggregate_per_day (historicalPrices : list num)
  (days numSimulations : nat) (tp : tape) :
  historicalPrices <> [] ->
  (1 <= numSimulations)%nat ->
  fair_tape tp days numSimulations ->
  exists res rest,
    runGBM (Some historicalPrices) days numSimulations tp = Done (Some res) rest
    /\ length (data res) = (days + 1)%nat
    /\ map day (data res) = seq 0 (days + 1).
Proof.
  intros Hne Hn Hfair.
  destruct (runGBM_runs historicalPrices days numSimulations tp Hne Hn Hfair)
    as (allPaths & tp1 & imin & imax & draws & sampled & rest & Hrun).
  eexists. exists rest. split; [exact (run_result _ _ _ _ _ _ _ _ _ _ _ Hrun) |].
  unfold result_value. cbn [data]. replace (days + 1)%nat with (S days) by lia.
  split.
  - now rewrite length_map, length_seq.
  - rewrite map_map. cbn [day dayData_value]. apply map_id.
Qed.

(** C4. For a non-empty price series and at least one path, the aggregate of
    day 0 has its median, p5, p95, outlierMin and outlierMax all equal to
    the last historical price, and so is [stats.current]. *)
Theorem day0_is_last_price (historicalPrices : list num)
  (days numSimulations : nat) (tp : tape) :
  historicalPrices <> [] ->
  (1 <= numSimulations)%nat ->
  fair_tape tp days numSimulations ->
  exists res rest,
    runGBM (Some historicalPrices) days numSimulations tp = Done (Some res) rest
    /\ median (day_aggregate res 0) = last historicalPrices NaN
    /\ p5 (day_aggregate res 0) = last historicalPrices NaN
    /\ p95 (day_aggregate res 0) = last historicalPrices NaN
    /\ outlierMin (day_aggregate res 0) = last historicalPrices NaN
    /\ outlierMax (day_aggregate res 0) = last historicalPrices NaN
    /\ current (stats res) = last historicalPrices NaN.
Proof.
  intros Hne Hn Hfair.
  destruct (runGBM_runs historicalPrices days numSimulations tp Hne Hn Hfair)
    as (allPaths & tp1 & imin & imax & draws & sampled & rest & Hrun).
  destruct Hrun as [_ Hlen Hall Himin Himax _ _ _ _ _ _ _ Hres].
  eexists. exists rest. split; [exact Hres |].
  rewrite result_value_day by lia. rewrite <- lastPrice_of_last.
  cbn [median p5 p95 outlierMin outlierMax dayData_value].
  rewrite (pricesAtT_day0 Hall), Hlen.
  rewrite !number_item_repeat by (trivial; lra).
  repeat split.
  - apply (generated_paths_nth imin Hall). lia.
  - apply (generated_paths_nth imax Hall). lia.
Qed.

Lemma fair_tape_repeat (k days numSimulations : nat) :
  (2 * (days * numSimulations) + 30 <= k)%nat ->
  fair_tape (repeat (1 / 2) k) days numSimulations.
Proof.
  intros H. split.
  - apply Forall_forall. intros x Hx. apply repeat_spec in Hx. subst x.
    unfold unit_draw. lra.
  - unfold enough_draws. rewrite nonzero_draws_repeat by lra. exact H.
Qed.

Lemma one_aggregate_per_day_witness :
  exists res rest,
    runGBM (Some [Fin 100; Fin 102; Fin 101; Fin 105; Fin 104]) 2 200
      (repeat (1 / 2) 830)
    = Done (Some res) rest
    /\ length (data res) = (2 + 1)%nat
    /\ map day (data res) = seq 0 (2 + 1).
Proof.
  apply (one_aggregate_per_day [Fin 100; Fin 102; Fin 101; Fin 105; Fin 104] 2 200).
  - discriminate.
  - lia.
  - apply fair_tape_repeat. simpl. lia.
Defined.

Lemma day0_is_last_price_witness :
  exists res rest,
    runGBM (Some [Fin 100; Fin 102; Fin 101; Fin 105; Fin 104]) 2 200
      (repeat (1 / 2) 830)
    = Done (Some res) rest
    /\ median (day_aggregate res 0) = Fin 104
    /\ p5 (day_aggregate res 0) = Fin 104
    /\ p95 (day_aggregate res 0) = Fin 104
    /\ outlierMin (day_aggregate res 0) = Fin 104
    /\ outlierMax (day_aggregate res 0) = Fin 104
    /\ current (stats res) = Fin 104.
Proof.
  apply (day0_is_last_price [Fin 100; Fin 102; Fin 101; Fin 105; Fin 104] 2 200).
  - discriminate.
  - lia.
  - apply fair_tape_repeat. simpl. lia.
Defined.

(* ================================================================== *)
(** * The null result (lines 62-63) *)
(* ================================================================== *)

Lemma bind_not_null {A : Type} (m : M A) (k : A -> M (option SimResult))
  (tp rest : tape) :
  (forall a tp', k a tp' <> Done None rest) -> bind m k tp <> Done None rest.
Proof.
  intros H. unfold bind. destruct (m tp); [apply H | discriminate | discriminate].
Qed.

Lemma runGBM_not_null (p0 : num) (prices : list num) (days numSimulations : nat)
  (tp rest : tape) :
  runGBM (Some (p0 :: prices)) days numSimulations tp <> Done None rest.
Proof.
  unfold runGBM. cbv beta iota zeta.
  repeat (apply bind_not_null; intros).
  unfold ret. discriminate.
Qed.

(** C6. [runGBM] returns [null] exactly when the price array is absent or
    empty, and then without an error (and without a draw); on a non-empty
    price array, with at least one path, it returns a result that is not
    [null]. *)
Theorem null_iff_no_prices (historicalPrices : option (list num))
  (days numSimulations : nat) (tp : tape) :
  (historicalPrices = None \/ historicalPrices = Some [] ->
   runGBM historicalPrices days numSimulations tp = Done None tp)
  /\ (forall rest,
        runGBM historicalPrices days numSimulations tp = Done None rest ->
        historicalPrices = None \/ historicalPrices = Some [])
  /\ (forall prices,
        historicalPrices = Some prices -> prices <> [] ->
        (1 <= numSimulations)%nat -> fair_tape tp days numSimulations ->
        exists res rest,
          runGBM historicalPrices days numSimulations tp = Done (Some res) rest).
Proof.
  split; [| split].
  - intros [-> | ->]; reflexivity.
  - intros rest H. destruct historicalPrices as [[| p0 prices] |]; auto.
    now apply runGBM_not_null in H.
  - intros prices -> Hne Hn Hfair.
    destruct (runGBM_runs prices days numSimulations tp Hne Hn Hfair)
      as (allPaths & tp1 & imin & imax & draws & sampled & rest & Hrun).
    eexists. exists rest. exact (run_result _ _ _ _ _ _ _ _ _ _ _ Hrun).
Qed.

Lemma null_iff_no_prices_witness :
  runGBM (Some []) 20 500 [] = Done None []
  /\ exists res rest,
       runGBM (Some [Fin 104]) 0 1 (repeat (1 / 2) 30) = Done (Some res) rest.
Proof.
  split.
  - apply (null_iff_no_prices (Some []) 20 500 []). now right.
  - apply (null_iff_no_prices (Some [Fin 104]) 0 1 (repeat (1 / 2) 30))
      with (prices := [Fin 104]).
    + reflexivity.
    + discriminate.
    + lia.
    + apply fair_tape_repeat. simpl. lia.
Defined.

(* ================================================================== *)
(** * Runs on a series of at least three positive prices *)
(* ================================================================== *)

Lemma lastPrice_positive (prices : list R) :
  prices <> [] -> positive_prices prices ->
  positive_finite (lastPrice_of (price_series prices)).
Proof.
  intros Hne Hpos. unfold lastPrice_of, price_series. rewrite length_map.
  assert (Hlen : (length prices - 1 < length prices)%nat)
    by (destruct prices; [contradiction | cbn [length]; lia]).
  fold (price_series prices). rewrite number_at_price_series by exact Hlen.
  now apply positive_prices_nth.
Qed.

Lemma valid_series_statistics (prices : list R) :
  (3 <= length prices)%nat -> positive_prices prices ->
  is_finite (drift_of (log_returns (price_series prices)))
  /\ is_finite (volatility_of (log_returns (price_series prices)))
  /\ positive_finite (lastPrice_of (price_series prices)).
Proof.
  intros Hlen Hpos. rewrite log_returns_price_series by assumption.
  assert (Hrs : (2 <= length (spec_log_returns prices))%nat).
  { unfold spec_log_returns. rewrite length_map, length_seq. lia. }
  rewrite drift_finite, volatility_finite by assumption.
  repeat split. apply lastPrice_positive; trivial.
  intros ->. cbn [length] in Hlen. lia.
Qed.

Lemma positive_finite_not_NaN (x : num) : positive_finite x -> x <> NaN.
Proof. destruct x; simpl; congruence || tauto. Qed.

(** Every price of every path of a valid run is a positive real number. *)
Lemma valid_price_at {drift volatility lastPrice : num} {days : nat}
  {allPaths : list (list num)} (j t : nat) :
  Forall (generated_path drift volatility lastPrice days) allPaths ->
  is_finite drift -> is_finite volatility -> positive_finite lastPrice ->
  (j < length allPaths)%nat -> (t <= days)%nat ->
  positive_finite (price_at allPaths j t).
Proof.
  intros Hall Hd Hv Hp Hj Ht.
  destruct (generated_paths_nth j Hall Hj) as (Hlen & _ & _ & Hfin).
  specialize (Hfin Hd Hv Hp). rewrite Forall_forall in Hfin.
  apply Hfin. unfold price_at, number_at. apply nth_In. lia.
Qed.

Lemma floor_monotone (numSimulations k k' : nat) (q q' : R) :
  INR k <= INR numSimulations * q < INR k + 1 ->
  INR k' <= INR numSimulations * q' < INR k' + 1 ->
  q <= q' -> (k <= k')%nat.
Proof.
  intros Hk Hk' Hq.
  assert (H0 : 0 <= INR numSimulations) by apply pos_INR.
  assert (H : INR k < INR (S k')) by (rewrite S_INR; nra).
  apply INR_lt in H. lia.
Qed.

(** Two reads of a cross-section without NaN, at the indices of two
    quantiles [q <= q'], return numbers in that order. *)
Lemma percentile_pair_ordered (allPaths : list (list num)) (numSimulations t : nat)
  (q q' : R) :
  (1 <= numSimulations)%nat ->
  length allPaths = numSimulations ->
  Forall (fun x => x <> NaN) (map (fun path => number_at path t) allPaths) ->
  0 <= q -> q <= q' -> q' < 1 ->
  num_le (number_item (pricesAtT_of allPaths t) (percentile_index numSimulations q))
         (number_item (pricesAtT_of allPaths t) (percentile_index numSimulations q')).
Proof.
  intros Hn Hlen Hreal Hq0 Hqq Hq1.
  destruct (percentile_index_in_range numSimulations q Hn) as (k & _ & Hk & Hlt & Hfl);
    [lra |].
  destruct (percentile_index_in_range numSimulations q' Hn)
    as (k' & _ & Hk' & Hlt' & Hfl'); [lra |].
  unfold number_item. rewrite Hk, Hk'. unfold number_at.
  apply (sorted_nth num (fun x => x)).
  - unfold pricesAtT_of. now apply Array_sort_Forall.
  - unfold pricesAtT_of. now apply (Array_sort_sorted num (fun x => x)).
  - rewrite pricesAtT_length, Hlen. split; [| exact Hlt'].
    exact (floor_monotone numSimulations k k' q q' Hfl Hfl' Hqq).
Qed.

Lemma cross_section_without_NaN (allPaths : list (list num)) (t : nat) :
  (forall j, (j < length allPaths)%nat -> price_at allPaths j t <> NaN) ->
  Forall (fun x => x <> NaN) (map (fun path => number_at path t) allPaths).
Proof.
  intros H. apply Forall_forall. intros x Hx.
  apply in_map_iff in Hx. destruct Hx as (path & <- & Hin).
  destruct (In_nth _ _ [] Hin) as (j & Hj & <-). exact (H j Hj).
Qed.

Lemma day_ordered (allPaths : list (list num)) (numSimulations imin imax : nat)
  (sampled : list nat) (t : nat) :
  (1 <= numSimulations)%nat -> length allPaths = numSimulations ->
  Forall (fun x => x <> NaN) (map (fun path => number_at path t) allPaths) ->
  percentiles_ordered (dayData_value allPaths numSimulations imin imax sampled t).
Proof.
  intros Hn Hlen Hreal.
  unfold percentiles_ordered, p25, p75.
  cbn [p5 p95 median innerRange dayData_value fst snd].
  repeat split; apply percentile_pair_ordered; trivial; lra.
Qed.

(** In the embedding's exact arithmetic a series of at least three positive
    prices gives an ensemble without NaN. *)
Lemma valid_ensemble_without_NaN (prices : list R) (days numSimulations : nat)
  (tp tp1 : tape) (allPaths : list (list num)) :
  (3 <= length prices)%nat -> positive_prices prices ->
  fair_tape tp days numSimulations ->
  ensemble_of (price_series prices) days numSimulations tp = Done allPaths tp1 ->
  forall t j, (t <= days)%nat -> (j < numSimulations)%nat ->
    price_at allPaths j t <> NaN.
Proof.
  intros Hlen Hpos [Hu Hd] Hens t j Ht Hj. unfold enough_draws in Hd.
  destruct (valid_series_statistics prices Hlen Hpos) as (Hfd & Hfv & Hfp).
  destruct (simulate_paths_runs (drift_of (log_returns (price_series prices)))
              (volatility_of (log_returns (price_series prices)))
              (lastPrice_of (price_series prices)) days numSimulations tp Hu)
    as (ps & r & Hps & Hcount & Hall & _); [lia |].
  unfold ensemble_of in Hens. cbv zeta in Hens. rewrite Hps in Hens.
  injection Hens as Ha Hr. subst ps r.
  apply positive_finite_not_NaN. rewrite <- Hcount in Hj.
  exact (valid_price_at j t Hall Hfd Hfv Hfp Hj Ht).
Qed.

(** C2 (amended). Every day aggregate whose cross-section holds no NaN has
    p5 <= p25 <= median <= p75 <= p95: the five are read, at non-decreasing
    indices, from one ascending cross-section. So every day aggregate of a
    result whose paths hold no NaN is ordered, and the aggregate of day 0
    is ordered whenever the last historical price is a number. *)
Theorem percentiles_ordered_without_NaN (historicalPrices : list num)
  (days numSimulations : nat) (tp : tape) :
  historicalPrices <> [] ->
  (1 <= numSimulations)%nat ->
  fair_tape tp days numSimulations ->
  exists allPaths tp1 res rest,
    ensemble_of historicalPrices days numSimulations tp = Done allPaths tp1
    /\ length allPaths = numSimulations
    /\ runGBM (Some historicalPrices) days numSimulations tp = Done (Some res) rest
    /\ length (data res) = S days
    /\ (forall t, (t <= days)%nat ->
          (forall j, (j < numSimulations)%nat -> price_at allPaths j t <> NaN) ->
          percentiles_ordered (day_aggregate res t))
    /\ ((forall t j, (t <= days)%nat -> (j < numSimulations)%nat ->
           price_at allPaths j t <> NaN) ->
        Forall percentiles_ordered (data res))
    /\ (last historicalPrices NaN <> NaN ->
        percentiles_ordered (day_aggregate res 0)).
Proof.
  intros Hne Hn Hfair.
  destruct (runGBM_runs historicalPrices days numSimulations tp Hne Hn Hfair)
    as (allPaths & tp1 & imin & imax & draws & sampled & rest & Hrun).
  destruct Hrun as [Hens Hcount Hall _ _ _ _ _ _ _ _ _ Hres].
  exists allPaths, tp1. eexists. exists rest.
  split; [exact Hens |]. split; [exact Hcount |]. split; [exact Hres |].
  assert (Hday : forall t, (t <= days)%nat ->
            (forall j, (j < numSimulations)%nat -> price_at allPaths j t <> NaN) ->
            percentiles_ordered
              (dayData_value allPaths numSimulations imin imax sampled t)).
  { intros t Ht Hreal. apply day_ordered; trivial.
    apply cross_section_without_NaN. now rewrite Hcount. }
  split; [| split; [| split]].
  - unfold result_value. cbn [data]. now rewrite length_map, length_seq.
  - intros t Ht Hreal. rewrite result_value_day by exact Ht. now apply Hday.
  - intros Hreal. unfold result_value. cbn [data]. apply Forall_forall.
    intros d Hin. apply in_map_iff in Hin. destruct Hin as (t & <- & Ht).
    apply in_seq in Ht. apply Hday; [lia |]. intros j Hj. apply Hreal; [lia | exact Hj].
  - intros Hlast. rewrite result_value_day by lia. apply Hday; [lia |].
    intros j Hj. rewrite <- Hcount in Hj.
    destruct (generated_paths_nth j Hall Hj) as (_ & H0 & _).
    unfold price_at. rewrite H0, lastPrice_of_last. exact Hlast.
Qed.

Lemma percentiles_ordered_without_NaN_witness :
  exists allPaths tp1 res rest,
    ensemble_of (price_series [100; 102; 101; 105; 104]) 2 200 (repeat (1 / 2) 830)
    = Done allPaths tp1
    /\ length allPaths = 200%nat
    /\ runGBM (Some (price_series [100; 102; 101; 105; 104])) 2 200
         (repeat (1 / 2) 830)
       = Done (Some res) rest
    /\ length (data res) = 3%nat
    /\ Forall percentiles_ordered (data res).
Proof.
  assert (Hfair : fair_tape (repeat (1 / 2) 830) 2 200)
    by (apply fair_tape_repeat; simpl; lia).
  destruct (percentiles_ordered_without_NaN
              (price_series [100; 102; 101; 105; 104]) 2 200 (repeat (1 / 2) 830))
    as (allPaths & tp1 & res & rest & Hens & Hcount & Hres & Hlen & _ & Hall & _).
  - discriminate.
  - lia.
  - exact Hfair.
  - exists allPaths, tp1, res, rest. repeat (split; [assumption |]).
    apply Hall. intros t j Ht Hj.
    apply (valid_ensemble_without_NaN [100; 102; 101; 105; 104] 2 200
             (repeat (1 / 2) 830) tp1 allPaths); trivial.
    + simpl. lia.
    + repeat constructor; lra.
Defined.

(* ================================================================== *)
(** * The outlier paths (lines 93-98, 118-119) *)
(* ================================================================== *)

Lemma result_tracks_outliers (historicalPrices : list num)
  (allPaths : list (list num)) (days numSimulations imin imax : nat)
  (sampled : list nat) :
  outliers_track_paths allPaths days
    (result_value historicalPrices allPaths days numSimulations imin imax sampled)
    imin imax.
Proof.
  intros t Ht. rewrite result_value_day by exact Ht. split; reflexivity.
Qed.

(** C5 (amended). The result's outlierMin and outlierMax at every day are
    the prices at that day of two paths of the ensemble, the same two at
    every day. When no terminal price is NaN, the terminal price of the
    first is <= the terminal price of every other path and the terminal
    price of the second is >= that of every other path. *)
Theorem outliers_are_whole_paths (historicalPrices : list num)
  (days numSimulations : nat) (tp : tape) :
  historicalPrices <> [] ->
  (1 <= numSimulations)%nat ->
  fair_tape tp days numSimulations ->
  exists allPaths tp1 res rest imin imax,
    ensemble_of historicalPrices days numSimulations tp = Done allPaths tp1
    /\ length allPaths = numSimulations
    /\ runGBM (Some historicalPrices) days numSimulations tp = Done (Some res) rest
    /\ (imin < numSimulations)%nat /\ (imax < numSimulations)%nat
    /\ outliers_track_paths allPaths days res imin imax
    /\ ((forall j, (j < numSimulations)%nat -> terminal allPaths days j <> NaN) ->
        outliers_are_extreme allPaths days imin imax
        /\ outlier_paths allPaths days res).
Proof.
  intros Hne Hn Hfair.
  destruct (runGBM_runs historicalPrices days numSimulations tp Hne Hn Hfair)
    as (allPaths & tp1 & imin & imax & draws & sampled & rest & Hrun).
  destruct Hrun as [Hens Hcount Hall Himin Himax Hfirst Hlast _ _ _ _ _ Hres].
  exists allPaths, tp1. eexists. exists rest, imin, imax.
  split; [exact Hens |]. split; [exact Hcount |]. split; [exact Hres |].
  split; [exact Himin |]. split; [exact Himax |].
  split; [apply result_tracks_outliers |].
  intros Hreal.
  assert (Hext : outliers_are_extreme allPaths days imin imax).
  { intros j Hj. rewrite <- Hcount in Hreal.
    destruct (sortedPathIndices_extreme allPaths days imin imax Hreal Hfirst Hlast j Hj)
      as [Hlo Hhi].
    split; intros _; assumption. }
  split; [exact Hext |].
  exists imin, imax. rewrite Hcount.
  split; [exact Himin |]. split; [exact Himax |].
  split; [apply result_tracks_outliers | exact Hext].
Qed.

Lemma outliers_are_whole_paths_witness :
  exists allPaths tp1 res rest,
    ensemble_of (price_series [100; 102; 101; 105; 104]) 2 200 (repeat (1 / 2) 830)
    = Done allPaths tp1
    /\ length allPaths = 200%nat
    /\ runGBM (Some (price_series [100; 102; 101; 105; 104])) 2 200
         (repeat (1 / 2) 830)
       = Done (Some res) rest
    /\ outlier_paths allPaths 2 res.
Proof.
  assert (Hfair : fair_tape (repeat (1 / 2) 830) 2 200)
    by (apply fair_tape_repeat; simpl; lia).
  destruct (outliers_are_whole_paths
              (price_series [100; 102; 101; 105; 104]) 2 200 (repeat (1 / 2) 830))
    as (allPaths & tp1 & res & rest & imin & imax
        & Hens & Hcount & Hres & _ & _ & _ & Hvalid).
  - discriminate.
  - lia.
  - exact Hfair.
  - exists allPaths, tp1, res, rest. repeat (split; [assumption |]).
    apply Hvalid. intros j Hj.
    apply (valid_ensemble_without_NaN [100; 102; 101; 105; 104] 2 200
             (repeat (1 / 2) 830) tp1 allPaths); trivial.
    + simpl. lia.
    + repeat constructor; lra.
Defined.

(* ================================================================== *)
(** * The percentile reads of a run (lines 104-117) *)
(* ================================================================== *)

(** C7. In every day aggregate of a run, each of the five percentile fields
    is the element the engine reads from that day's cross-section
    ([pricesAtT], the paths' prices at that day, sorted: a permutation of
    them, ascending when none is NaN) at the index floor(pathCount * q) of
    its quantile q. For a path count of at least 1 that index lies in
    [0, pathCount - 1]: clamping it to that range changes nothing, and the
    read returns an element of the cross-section, never [undefined]. Up to
    a million paths the same index is the floor of the product computed on
    doubles. *)
Theorem percentile_reads_in_bounds (historicalPrices : list num)
  (days numSimulations : nat) (tp : tape) :
  historicalPrices <> [] ->
  (1 <= numSimulations)%nat ->
  fair_tape tp days numSimulations ->
  exists allPaths tp1 res rest,
    ensemble_of historicalPrices days numSimulations tp = Done allPaths tp1
    /\ runGBM (Some historicalPrices) days numSimulations tp = Done (Some res) rest
    /\ forall t, (t <= days)%nat ->
         length (pricesAtT_of allPaths t) = numSimulations
         /\ Permutation (pricesAtT_of allPaths t)
              (map (fun path => number_at path t) allPaths)
         /\ ((forall j, (j < numSimulations)%nat -> price_at allPaths j t <> NaN) ->
             StronglySorted num_le (pricesAtT_of allPaths t))
         /\ forall field q, In (field, q) percentile_fields ->
              exists k : nat,
                percentile_index numSimulations q = of_nat k
                /\ INR k <= INR numSimulations * q < INR k + 1
                /\ (0 <= Z.of_nat k <= Z.of_nat numSimulations - 1)%Z
                /\ clamp 0 (Z.of_nat numSimulations - 1) (Z.of_nat k) = Z.of_nat k
                /\ nth_error (pricesAtT_of allPaths t) k
                   = Some (field (day_aggregate res t))
                /\ ((Z.of_nat numSimulations <= 1000000)%Z ->
                    forall (a : int) (qd : float),
                      In (a, qd) double_quantiles -> q = IZR (Uint63.to_Z a) / 100 ->
                      is_floor_of (Uint63.of_Z (Z.of_nat k))
                        (PrimFloat.mul
                           (PrimFloat.of_uint63
                              (Uint63.of_Z (Z.of_nat numSimulations))) qd)
                      = true).
Proof.
  intros Hne Hn Hfair.
  destruct (runGBM_runs historicalPrices days numSimulations tp Hne Hn Hfair)
    as (allPaths & tp1 & imin & imax & draws & sampled & rest & Hrun).
  destruct Hrun as [Hens Hcount _ _ _ _ _ _ _ _ _ _ Hres].
  exists allPaths, tp1. eexists. exists rest.
  split; [exact Hens |]. split; [exact Hres |].
  intros t Ht. rewrite result_value_day by exact Ht.
  split; [now rewrite pricesAtT_length |].
  split; [apply Array_sort_perm |]. split.
  - intros Hreal. rewrite <- Hcount in Hreal.
    exact (Array_sort_sorted num (fun x => x) _
             (cross_section_without_NaN allPaths t Hreal)).
  - intros field q Hin.
    assert (Hq : In q quantiles /\
                 field (dayData_value allPaths numSimulations imin imax sampled t)
                 = number_item (pricesAtT_of allPaths t)
                     (percentile_index numSimulations q)).
    { unfold percentile_fields, quantiles in *. cbn [In] in *.
      destruct Hin as [E | [E | [E | [E | [E | []]]]]];
        injection E as <- <-; (split; [tauto | reflexivity]). }
    destruct Hq as [Hq Hfield].
    destruct (quantile_read_in_bounds allPaths numSimulations t q Hn Hcount Hq)
      as (k & Hk & Hfl & Hrange & Hclamp & _ & (x & Hx & Hread) & Hdouble).
    exists k. rewrite Hfield, Hread. repeat (split; [assumption |]). exact Hdouble.
Qed.

Lemma percentile_reads_in_bounds_witness :
  exists allPaths tp1 res rest,
    ensemble_of (price_series [100; 102; 101; 105; 104]) 2 200 (repeat (1 / 2) 830)
    = Done allPaths tp1
    /\ runGBM (Some (price_series [100; 102; 101; 105; 104])) 2 200
         (repeat (1 / 2) 830)
       = Done (Some res) rest
    /\ exists k : nat,
         percentile_index 200 (95 / 100) = of_nat k
         /\ (0 <= Z.of_nat k <= Z.of_nat 200 - 1)%Z
         /\ nth_error (pricesAtT_of allPaths 2) k = Some (p95 (day_aggregate res 2)).
Proof.
  destruct (percentile_reads_in_bounds
              (price_series [100; 102; 101; 105; 104]) 2 200 (repeat (1 / 2) 830))
    as (allPaths & tp1 & res & rest & Hens & Hres & Hreads).
  - discriminate.
  - lia.
  - apply fair_tape_repeat. simpl. lia.
  - exists allPaths, tp1, res, rest. split; [exact Hens |]. split; [exact Hres |].
    destruct (Hreads 2%nat (Nat.le_refl 2)) as (_ & _ & _ & Hfields).
    destruct (Hfields p95 (95 / 100)) as (k & Hk & _ & Hrange & _ & Hread & _).
    + unfold percentile_fields. cbn [In]. tauto.
    + exists k. split; [exact Hk |]. split; [exact Hrange | exact Hread].
Defined.

(* ================================================================== *)
(** * Runs on a series of one or two prices *)
(* ================================================================== *)

Lemma meanReturn_empty : meanReturn_of [] = NaN.
Proof.
  unfold meanReturn_of, of_nat. cbn [fold_left length INR num_div].
  now rewrite Rsgn_zero.
Qed.

Lemma Rsgn_is_zero (r : R) : r = 0 -> Rsgn r = Eq.
Proof. intros ->. apply Rsgn_zero. Qed.

(** The sample variance of a single return is 0/0. *)
Lemma variance_single (r : num) : variance_of [r] = NaN.
Proof.
  unfold variance_of, meanReturn_of, of_nat.
  cbn [fold_left length INR]. destruct r as [a | | |].
  - cbn [num_add num_div]. rewrite (Rsgn_pos 1) by lra.
    cbn [num_sub num_neg num_add Math_pow num_div].
    rewrite !Rsgn_is_zero; [reflexivity | field | lra].
  - cbn [num_add num_div]. rewrite (Rsgn_pos 1) by lra. reflexivity.
  - cbn [num_add num_div]. rewrite (Rsgn_pos 1) by lra. reflexivity.
  - reflexivity.
Qed.

Lemma degenerate_drift (historicalPrices : list num) :
  (1 <= length historicalPrices <= 2)%nat ->
  drift_of (log_returns historicalPrices) = NaN.
Proof.
  intros Hlen. unfold drift_of.
  destruct historicalPrices as [| p [| q [| x l]]]; cbn [length] in Hlen; try lia.
  - cbn [log_returns length Nat.sub for_each]. now rewrite meanReturn_empty.
  - unfold log_returns. cbn [length Nat.sub for_each app].
    rewrite variance_single. cbn [num_div]. apply num_sub_NaN_r.
Qed.

(** With a NaN drift every path is the last price followed by NaN. *)
Lemma degenerate_price_at {volatility lastPrice : num} {days : nat}
  {allPaths : list (list num)} (j t : nat) :
  Forall (generated_path NaN volatility lastPrice days) allPaths ->
  (j < length allPaths)%nat -> (1 <= t)%nat ->
  price_at allPaths j t = NaN.
Proof.
  intros Hall Hj Ht.
  destruct (generated_paths_nth j Hall Hj) as (_ & _ & HNaN & _).
  unfold price_at, number_at. rewrite (HNaN eq_refl).
  destruct t as [| t]; [lia |]. cbn [nth]. apply nth_repeat.
Qed.

Lemma degenerate_cross_section {volatility lastPrice : num} {days : nat}
  {allPaths : list (list num)} (t : nat) :
  Forall (generated_path NaN volatility lastPrice days) allPaths ->
  (1 <= t)%nat ->
  pricesAtT_of allPaths t = repeat NaN (length allPaths).
Proof.
  intros Hall Ht. unfold pricesAtT_of.
  replace (map (fun path => number_at path t) allPaths)
    with (repeat NaN (length allPaths)).
  - apply Array_sort_repeat.
  - rewrite <- (map_const NaN allPaths).
    apply map_ext_in. intros path Hin.
    destruct (In_nth _ _ [] Hin) as (j & Hj & <-).
    symmetry. exact (degenerate_price_at j t Hall Hj Ht).
Qed.

Lemma number_item_repeat_NaN (k : nat) (i : num) :
  number_item (repeat NaN k) i = NaN.
Proof.
  unfold number_item, number_at. destruct (array_index i); [| reflexivity].
  apply nth_repeat.
Qed.

Lemma degenerate_day {volatility lastPrice : num} {days : nat}
  {allPaths : list (list num)} (numSimulations imin imax : nat)
  (sampled : list nat) (t : nat) :
  Forall (generated_path NaN volatility lastPrice days) allPaths ->
  (imin < length allPaths)%nat -> (imax < length allPaths)%nat ->
  (1 <= t)%nat ->
  let d := dayData_value allPaths numSimulations imin imax sampled t in
  median d = NaN /\ p5 d = NaN /\ p25 d = NaN /\ p75 d = NaN /\ p95 d = NaN
  /\ outlierMin d = NaN /\ outlierMax d = NaN.
Proof.
  intros Hall Hmin Hmax Ht d. unfold d, p25, p75.
  cbn [median p5 p95 innerRange outlierMin outlierMax dayData_value fst snd].
  rewrite (degenerate_cross_section t Hall Ht), !number_item_repeat_NaN.
  rewrite (degenerate_price_at imin t Hall Hmin Ht).
  rewrite (degenerate_price_at imax t Hall Hmax Ht).
  repeat split.
Qed.

(** The run on a series of one or two prices: it goes through, with a NaN
    drift. *)
Lemma degenerate_run (historicalPrices : list num) (days numSimulations : nat)
  (tp : tape) :
  (1 <= length historicalPrices <= 2)%nat ->
  (1 <= numSimulations)%nat ->
  fair_tape tp days numSimulations ->
  exists allPaths tp1 imin imax draws sampled rest,
    run_of historicalPrices days numSimulations tp
      allPaths tp1 imin imax draws sampled rest
    /\ Forall (generated_path NaN (volatility_of (log_returns historicalPrices))
                 (lastPrice_of historicalPrices) days) allPaths.
Proof.
  intros Hlen Hn Hfair.
  destruct (runGBM_runs historicalPrices days numSimulations tp)
    as (allPaths & tp1 & imin & imax & draws & sampled & rest & Hrun); trivial.
  { intros ->. cbn [length] in Hlen. lia. }
  exists allPaths, tp1, imin, imax, draws, sampled, rest. split; [exact Hrun |].
  rewrite <- (degenerate_drift historicalPrices Hlen). apply Hrun.
Qed.

Lemma degenerate_result (historicalPrices : list num) (days numSimulations : nat)
  (tp : tape) :
  (1 <= length historicalPrices <= 2)%nat ->
  (1 <= numSimulations)%nat ->
  fair_tape tp days numSimulations ->
  exists allPaths tp1 res rest,
    ensemble_of historicalPrices days numSimulations tp = Done allPaths tp1
    /\ length allPaths = numSimulations
    /\ runGBM (Some historicalPrices) days numSimulations tp = Done (Some res) rest
    /\ length (data res) = S days
    /\ (forall j t, (j < numSimulations)%nat -> (1 <= t)%nat ->
          price_at allPaths j t = NaN)
    /\ (forall t, (1 <= t <= days)%nat ->
          median (day_aggregate res t) = NaN
          /\ p5 (day_aggregate res t) = NaN
          /\ p25 (day_aggregate res t) = NaN
          /\ p75 (day_aggregate res t) = NaN
          /\ p95 (day_aggregate res t) = NaN
          /\ outlierMin (day_aggregate res t) = NaN
          /\ outlierMax (day_aggregate res t) = NaN)
    /\ ((1 <= days)%nat -> projectedMedian (stats res) = NaN).
Proof.
  intros Hlen Hn Hfair.
  destruct (degenerate_run historicalPrices days numSimulations tp Hlen Hn Hfair)
    as (allPaths & tp1 & imin & imax & draws & sampled & rest & Hrun & Hall).
  destruct Hrun as [Hens Hcount _ Himin Himax _ _ _ _ _ _ _ Hres].
  rewrite <- Hcount in Himin, Himax.
  exists allPaths, tp1. eexists. exists rest.
  split; [exact Hens |]. split; [exact Hcount |]. split; [exact Hres |].
  split; [| split; [| split]].
  - unfold result_value. cbn [data]. now rewrite length_map, length_seq.
  - intros j t Hj Ht. rewrite <- Hcount in Hj.
    exact (degenerate_price_at j t Hall Hj Ht).
  - intros t [Ht1 Ht2]. rewrite result_value_day by exact Ht2.
    exact (degenerate_day numSimulations imin imax sampled t Hall Himin Himax Ht1).
  - intros Hdays. unfold result_value. cbn [stats projectedMedian].
    apply (degenerate_day numSimulations imin imax sampled days Hall Himin Himax Hdays).
Qed.




(** C2, as stated, fails: on the two prices 100, 102, with one day and one
    path, the aggregate of day 1 has NaN percentiles, and NaN <= NaN is
    false. *)
Lemma two_prices_percentiles_not_ordered :
  exists res rest,
    runGBM (Some (price_series [100; 102])) 1 1 (repeat (1 / 2) 32)
    = Done (Some res) rest
    /\ ~ Forall percentiles_ordered (data res).
Proof.
  destruct (degenerate_result (price_series [100; 102]) 1 1 (repeat (1 / 2) 32))
    as (allPaths & tp1 & res & rest & _ & _ & Hres & Hlen & _ & Hdays & _).
  - simpl. lia.
  - lia.
  - apply fair_tape_repeat. simpl. lia.
  - exists res, rest. split; [exact Hres |]. intros Hall.
    rewrite Forall_forall in Hall.
    assert (Hin : In (day_aggregate res 1) (data res))
      by (apply nth_In; rewrite Hlen; lia).
    destruct (Hall _ Hin) as [H _].
    destruct (Hdays 1%nat) as (_ & H5 & _); [lia |].
    rewrite H5 in H. exact (num_le_NaN_l _ H).
Qed.

(** C5, as stated, fails: on the two prices 100, 102, with one day and two
    paths, both terminal prices are NaN, so neither path ends at or above
    the other. *)
Lemma two_prices_outliers_not_extreme :
  exists allPaths tp1 res rest,
    ensemble_of (price_series [100; 102]) 1 2 (repeat (1 / 2) 34) = Done allPaths tp1
    /\ length allPaths = 2%nat
    /\ runGBM (Some (price_series [100; 102])) 1 2 (repeat (1 / 2) 34)
       = Done (Some res) rest
    /\ ~ outlier_paths allPaths 1 res.
Proof.
  destruct (degenerate_result (price_series [100; 102]) 1 2 (repeat (1 / 2) 34))
    as (allPaths & tp1 & res & rest & Hens & Hcount & Hres & _ & HNaN & _).
  - simpl. lia.
  - lia.
  - apply fair_tape_repeat. simpl. lia.
  - exists allPaths, tp1, res, rest.
    split; [exact Hens |]. split; [exact Hcount |]. split; [exact Hres |].
    intros (imin & imax & _ & _ & _ & Hext).
    assert (Hj : exists j, (j < 2)%nat /\ j <> imax).
    { destruct imax; [exists 1%nat | exists 0%nat]; split; lia. }
    destruct Hj as (j & Hj & Hne). rewrite <- Hcount in Hj.
    destruct (Hext j Hj) as [H _]. specialize (H Hne).
    unfold terminal in H. fold (price_at allPaths j 1) in H.
    rewrite HNaN in H by lia. exact (num_le_NaN_l _ H).
Qed.

(* ================================================================== *)
(** * The sample paths (lines 100, 123-125) *)
(* ================================================================== *)




(* ================================================================== *)
(** * The engine on small inputs *)
(* ================================================================== *)

Lemma is_positive_sub_gt (a b : R) : b < a -> is_positive (Fin a - Fin b) = true.
Proof.
  intros H. cbn [num_sub num_neg num_add is_positive].
  destruct (Rlt_dec 0 (a + - b)); [reflexivity | lra].
Qed.

Lemma is_positive_sub_le (a b : R) : a <= b -> is_positive (Fin a - Fin b) = false.
Proof.
  intros H. cbn [num_sub num_neg num_add is_positive].
  destruct (Rlt_dec 0 (a + - b)); [lra | reflexivity].
Qed.

(** Decides the comparisons of a sort of concrete real numbers. *)
Ltac sort_concrete :=
  repeat (cbn [fold_right insert finalPrice];
          first [ rewrite is_positive_sub_gt by lra
                | rewrite is_positive_sub_le by lra ]);
  cbn [fold_right insert finalPrice].

(** The comparator [a - b] sorts in ascending order. *)
Example sort_ascending :
  Array_sort (fun a b => a - b)%num [Fin 3; Fin 1; Fin 2] = [Fin 1; Fin 2; Fin 3].
Proof. unfold Array_sort. sort_concrete. reflexivity. Qed.

(** Paths with the same terminal price keep their order (ties of line 95). *)
Example sort_stable :
  sortedPathIndices_of [[Fin 2]; [Fin 1]; [Fin 2]; [Fin 1]] 0
  = [ {| index := 1; finalPrice := Fin 1 |}; {| index := 3; finalPrice := Fin 1 |};
      {| index := 0; finalPrice := Fin 2 |}; {| index := 2; finalPrice := Fin 2 |} ].
Proof.
  unfold sortedPathIndices_of, mapi, Array_sort, number_at.
  cbn [length seq combine map fst snd nth]. sort_concrete. reflexivity.
Qed.

(** A path count of 0 is no valid configuration: line 97 reads a property
    of [undefined]. *)
Example no_paths_throw (p : num) (prices : list num) (days : nat) (tp : tape) :
  runGBM (Some (p :: prices)) days 0 tp = Thrown TypeError.
Proof. reflexivity. Qed.

(** A constant series has log returns 0, volatility 0 and drift 0. *)
Example constant_series_statistics :
  log_returns (price_series [5; 5; 5]) = [Fin 0; Fin 0]
  /\ volatility_of (log_returns (price_series [5; 5; 5])) = Fin 0
  /\ drift_of (log_returns (price_series [5; 5; 5])) = Fin 0.
Proof.
  assert (Hpos : positive_prices [5; 5; 5]) by (repeat constructor; lra).
  assert (Hrs : spec_log_returns [5; 5; 5] = [0; 0]).
  { unfold spec_log_returns, spec_log_return. cbn [length Nat.sub seq map nth Nat.add].
    replace (5 / 5) with 1 by lra. now rewrite ln_1. }
  rewrite (log_returns_price_series _ Hpos), Hrs.
  assert (Hvar : spec_variance [0; 0] = 0).
  { unfold spec_variance, spec_mean, Rsum. cbn [map fold_right length INR]. field. }
  split; [reflexivity |]. split.
  - rewrite volatility_finite by (cbn [length]; lia).
    unfold spec_volatility. now rewrite Hvar, sqrt_0.
  - rewrite drift_finite by (cbn [length]; lia).
    unfold spec_drift. rewrite Hvar. unfold spec_mean, Rsum.
    cbn [fold_right length INR]. f_equal. field.
Qed.

(** One whole run: three days at the price 5, then one simulated day of one
    path, every draw being 1/2. Drift and volatility are 0, so the path
    stays at 5; the run reads the 32 draws and returns two flat days. *)
Example constant_series_run :
  runGBM (Some (price_series [5; 5; 5])) 1 1 (repeat (1 / 2) 32)
  = Done (Some {| data := [flat_day (Fin 5) 0; flat_day (Fin 5) 1];
                  stats := {| current := Fin 5;
                              projectedMedian := Fin 5;
                              projectedLow := Fin 5;
                              projectedHigh := Fin 5;
                              volatility := toFixed (Fin 0) 2 |} |}) [].
Proof.
  destruct constant_series_statistics as (_ & Hvol & Hdrift).
  assert (Hpaths : ensemble_of (price_series [5; 5; 5]) 1 1 (repeat (1 / 2) 32)
                   = Done [[Fin 5; Fin 5]] (repeat (1 / 2) 30)).
  { unfold ensemble_of. cbv zeta. rewrite Hvol, Hdrift.
    unfold simulate_paths, push_path, simulate_path, path_step, generateGaussian.
    cbn [for_loop repeat]. unfold bind.
    rewrite !draw_nonzero_accepts by lra. unfold ret.
    rewrite box_muller_unit by lra.
    cbn [fst snd app num_mul num_add Math_exp lastPrice_of price_series map length
         Nat.sub number_at nth].
    repeat f_equal. rewrite Rmult_0_l, Rplus_0_l, exp_0. lra. }
  assert (Hidx : draw_randomIndices 1 (repeat (1 / 2) 30)
                 = Done (map of_nat (repeat 0%nat 30)) []).
  { unfold draw_randomIndices.
    destruct (indices_loop 1 30 0 [] (repeat (1 / 2) 30)) as (draws & rest & Hrun & Hlen & Htp);
      [now rewrite repeat_length |].
    assert (Hrest : rest = []).
    { apply (f_equal (@length R)) in Htp.
      rewrite length_app, repeat_length, Hlen in Htp.
      destruct rest; [reflexivity | cbn [length] in Htp; lia]. }
    subst rest. rewrite app_nil_r in Htp. subst draws.
    rewrite Hrun. cbn [app]. rewrite !map_repeat. do 2 f_equal.
    unfold of_nat. cbn [num_mul Math_floor INR]. do 2 f_equal.
    symmetry. apply Int_part_spec. lra. }
  unfold ensemble_of in Hpaths. cbv zeta in Hpaths. rewrite Hvol, Hdrift in Hpaths.
  remember (price_series [5; 5; 5]) as prices eqn:Hprices.
  destruct prices as [| p0 prices]; [discriminate |].
  unfold runGBM. cbv beta iota zeta. rewrite Hvol, Hdrift.
  unfold bind at 1. rewrite Hpaths.
  unfold sortedPathIndices_of, mapi, Array_sort.
  cbn [length seq combine map fst snd fold_right insert nth_error Nat.sub].
  cbn [defined]. unfold bind at 1 2. unfold ret at 1 2. cbn [index].
  unfold bind at 1. rewrite Hidx. unfold bind at 1.
  rewrite aggregate_runs by (cbn [length]; try lia;
                             apply Forall_forall; intros k Hk;
                             apply repeat_spec in Hk; lia).
  cbn [seq map nth_error]. unfold bind. cbn [defined]. unfold ret.
  assert (Hday : forall t, (t <= 1)%nat ->
            dayData_value [[Fin 5; Fin 5]] 1 0 0 (repeat 0%nat 30) t
            = flat_day (Fin 5) t).
  { intros t Ht. unfold dayData_value, flat_day.
    assert (Hcross : pricesAtT_of [[Fin 5; Fin 5]] t = repeat (Fin 5) 1).
    { unfold pricesAtT_of, Array_sort, number_at. cbn [map fold_right insert repeat].
      destruct t as [| [| t]]; [reflexivity | reflexivity | lia]. }
    assert (Hprice : price_at [[Fin 5; Fin 5]] 0 t = Fin 5).
    { unfold price_at, number_at. cbn [nth].
      destruct t as [| [| t]]; [reflexivity | reflexivity | lia]. }
    rewrite Hcross, !number_item_repeat by (try lia; lra).
    rewrite Hprice, map_repeat, Hprice. reflexivity. }
  rewrite !Hday by lia. rewrite Hprices.
  cbn [median p5 p95 flat_day lastPrice_of price_series map
       length Nat.sub number_at nth num_mul].
  now rewrite Rmult_0_l.
Qed.

(* ================================================================== *)
(** * Further properties of a run *)
(* ================================================================== *)

(** Every entry of a sorted cross-section is the price of some path. *)
Lemma cross_section_attained (allPaths : list (list num)) (t k : nat) :
  (k < length allPaths)%nat ->
  exists j, (j < length allPaths)%nat
    /\ nth k (pricesAtT_of allPaths t) NaN = price_at allPaths j t.
Proof.
  intros Hk.
  assert (Hin : In (nth k (pricesAtT_of allPaths t) NaN) (pricesAtT_of allPaths t))
    by (apply nth_In; now rewrite pricesAtT_length).
  unfold pricesAtT_of in Hin at 2.
  apply (Permutation_in _ (Array_sort_perm _ _ _)) in Hin.
  apply in_map_iff in Hin. destruct Hin as (path & Hpath & Hin).
  destruct (In_nth _ _ [] Hin) as (j & Hj & Hnth).
  exists j. split; [exact Hj |]. unfold price_at. now rewrite Hnth.
Qed.

Lemma percentile_attained (allPaths : list (list num)) (numSimulations t : nat)
  (q : R) :
  (1 <= numSimulations)%nat -> length allPaths = numSimulations -> 0 <= q < 1 ->
  exists j, (j < numSimulations)%nat
    /\ number_item (pricesAtT_of allPaths t) (percentile_index numSimulations q)
       = price_at allPaths j t.
Proof.
  intros Hn Hlen Hq.
  destruct (percentile_index_in_range numSimulations q Hn Hq) as (k & _ & Hk & Hlt & _).
  destruct (cross_section_attained allPaths t k) as (j & Hj & Hnth); [lia |].
  exists j. split; [lia |]. unfold number_item, number_at. now rewrite Hk.
Qed.

(** The summary repeats the aggregate of the last day (lines 134-137). *)
Theorem projected_stats_are_final_day (historicalPrices : list num)
  (days numSimulations : nat) (tp : tape) :
  historicalPrices <> [] ->
  (1 <= numSimulations)%nat ->
  fair_tape tp days numSimulations ->
  exists res rest,
    runGBM (Some historicalPrices) days numSimulations tp = Done (Some res) rest
    /\ nth_error (data res) days = Some (day_aggregate res days)
    /\ day (day_aggregate res days) = days
    /\ projectedMedian (stats res) = median (day_aggregate res days)
    /\ projectedLow (stats res) = p5 (day_aggregate res days)
    /\ projectedHigh (stats res) = p95 (day_aggregate res days)
    /\ volatility (stats res)
       = toFixed (volatility_of (log_returns historicalPrices) * Fin 100) 2.
Proof.
  intros Hne Hn Hfair.
  destruct (runGBM_runs historicalPrices days numSimulations tp Hne Hn Hfair)
    as (allPaths & tp1 & imin & imax & draws & sampled & rest & Hrun).
  eexists. exists rest. split; [exact (run_result _ _ _ _ _ _ _ _ _ _ _ Hrun) |].
  rewrite result_value_day by lia. split; [| repeat split].
  unfold result_value. cbn [data].
  rewrite nth_error_map, (nth_error_nth' _ 0%nat) by (rewrite length_seq; lia).
  now rewrite seq_nth by lia.
Qed.

Lemma projected_stats_are_final_day_witness :
  exists res rest,
    runGBM (Some [Fin 100; Fin 102; Fin 101; Fin 105; Fin 104]) 2 200
      (repeat (1 / 2) 830)
    = Done (Some res) rest
    /\ nth_error (data res) 2 = Some (day_aggregate res 2)
    /\ day (day_aggregate res 2) = 2%nat
    /\ projectedMedian (stats res) = median (day_aggregate res 2)
    /\ projectedLow (stats res) = p5 (day_aggregate res 2)
    /\ projectedHigh (stats res) = p95 (day_aggregate res 2)
    /\ volatility (stats res)
       = toFixed (volatility_of
                    (log_returns [Fin 100; Fin 102; Fin 101; Fin 105; Fin 104])
                  * Fin 100) 2.
Proof.
  apply (projected_stats_are_final_day
           [Fin 100; Fin 102; Fin 101; Fin 105; Fin 104] 2 200).
  - discriminate.
  - lia.
  - apply fair_tape_repeat. simpl. lia.
Defined.

(** Nearest-rank percentiles are attained: at every day, each of the five
    percentiles is the price at that day of some path of the ensemble
    (nothing is interpolated). *)
Theorem percentiles_are_path_prices (historicalPrices : list num)
  (days numSimulations : nat) (tp : tape) :
  historicalPrices <> [] ->
  (1 <= numSimulations)%nat ->
  fair_tape tp days numSimulations ->
  exists allPaths tp1 res rest,
    ensemble_of historicalPrices days numSimulations tp = Done allPaths tp1
    /\ length allPaths = numSimulations
    /\ runGBM (Some historicalPrices) days numSimulations tp = Done (Some res) rest
    /\ forall t, (t <= days)%nat ->
         forall pct, In pct [p5; p25; median; p75; p95] ->
           exists j, (j < numSimulations)%nat
             /\ pct (day_aggregate res t) = price_at allPaths j t.
Proof.
  intros Hne Hn Hfair.
  destruct (runGBM_runs historicalPrices days numSimulations tp Hne Hn Hfair)
    as (allPaths & tp1 & imin & imax & draws & sampled & rest & Hrun).
  destruct Hrun as [Hens Hcount _ _ _ _ _ _ _ _ _ _ Hres].
  exists allPaths, tp1. eexists. exists rest.
  split; [exact Hens |]. split; [exact Hcount |]. split; [exact Hres |].
  intros t Ht pct Hpct. rewrite result_value_day by exact Ht.
  cbn [In] in Hpct.
  destruct Hpct as [<- | [<- | [<- | [<- | [<- | []]]]]]; unfold p25, p75;
    cbn [p5 median p95 innerRange fst snd dayData_value];
    apply percentile_attained; trivial; lra.
Qed.

Lemma percentiles_are_path_prices_witness :
  exists allPaths tp1 res rest,
    ensemble_of [Fin 100; Fin 102; Fin 101; Fin 105; Fin 104] 2 200
      (repeat (1 / 2) 830)
    = Done allPaths tp1
    /\ length allPaths = 200%nat
    /\ runGBM (Some [Fin 100; Fin 102; Fin 101; Fin 105; Fin 104]) 2 200
         (repeat (1 / 2) 830)
       = Done (Some res) rest
    /\ forall t, (t <= 2)%nat ->
         forall pct, In pct [p5; p25; median; p75; p95] ->
           exists j, (j < 200)%nat
             /\ pct (day_aggregate res t) = price_at allPaths j t.
Proof.
  apply (percentiles_are_path_prices
           [Fin 100; Fin 102; Fin 101; Fin 105; Fin 104] 2 200).
  - discriminate.
  - lia.
  - apply fair_tape_repeat. simpl. lia.
Defined.

(** At the last day the two outlier lines enclose the percentile band: when
    no terminal price is NaN, outlierMin <= p5 <= p95 <= outlierMax there,
    and so the projected low, median and high of the summary lie, in this
    order, between the two outliers. *)
Theorem final_band_within_outliers (historicalPrices : list num)
  (days numSimulations : nat) (tp : tape) :
  historicalPrices <> [] ->
  (1 <= numSimulations)%nat ->
  fair_tape tp days numSimulations ->
  exists allPaths tp1 res rest,
    ensemble_of historicalPrices days numSimulations tp = Done allPaths tp1
    /\ runGBM (Some historicalPrices) days numSimulations tp = Done (Some res) rest
    /\ ((forall j, (j < numSimulations)%nat -> terminal allPaths days j <> NaN) ->
        (forall pct, In pct [p5; p25; median; p75; p95] ->
           num_le (outlierMin (day_aggregate res days)) (pct (day_aggregate res days))
           /\ num_le (pct (day_aggregate res days))
                (outlierMax (day_aggregate res days)))
        /\ num_le (outlierMin (day_aggregate res days)) (projectedLow (stats res))
        /\ num_le (projectedLow (stats res)) (projectedMedian (stats res))
        /\ num_le (projectedMedian (stats res)) (projectedHigh (stats res))
        /\ num_le (projectedHigh (stats res)) (outlierMax (day_aggregate res days))).
Proof.
  intros Hne Hn Hfair.
  destruct (runGBM_runs historicalPrices days numSimulations tp Hne Hn Hfair)
    as (allPaths & tp1 & imin & imax & draws & sampled & rest & Hrun).
  destruct Hrun as [Hens Hcount Hall Himin Himax Hfirst Hlast _ _ _ _ _ Hres].
  exists allPaths, tp1. eexists. exists rest.
  split; [exact Hens |]. split; [exact Hres |].
  rewrite result_value_day by lia. intros Hreal.
  assert (Hband : forall q, 0 <= q < 1 ->
                    num_le (price_at allPaths imin days)
                      (number_item (pricesAtT_of allPaths days)
                         (percentile_index numSimulations q))
                    /\ num_le (number_item (pricesAtT_of allPaths days)
                                 (percentile_index numSimulations q))
                         (price_at allPaths imax days)).
  { intros q Hq. rewrite <- Hcount in Hreal.
    destruct (percentile_attained allPaths numSimulations days q Hn Hcount Hq)
      as (j & Hj & ->).
    rewrite <- Hcount in Hj.
    exact (sortedPathIndices_extreme allPaths days imin imax Hreal Hfirst Hlast j Hj). }
  assert (Hcross : Forall (fun x => x <> NaN)
                     (map (fun path => number_at path days) allPaths)).
  { apply cross_section_without_NaN. rewrite Hcount. exact Hreal. }
  split.
  - intros pct Hpct. cbn [In] in Hpct.
    destruct Hpct as [<- | [<- | [<- | [<- | [<- | []]]]]]; unfold p25, p75;
      cbn [p5 median p95 innerRange fst snd outlierMin outlierMax dayData_value];
      apply Hband; lra.
  - unfold result_value.
    cbn [stats projectedLow projectedMedian projectedHigh p5 median p95
         outlierMin outlierMax dayData_value].
    split; [apply Hband; lra |].
    split; [| split; [| apply Hband; lra]];
      apply percentile_pair_ordered; trivial; lra.
Qed.

Lemma final_band_within_outliers_witness :
  exists allPaths tp1 res rest,
    ensemble_of (price_series [100; 102; 101; 105; 104]) 2 200 (repeat (1 / 2) 830)
    = Done allPaths tp1
    /\ runGBM (Some (price_series [100; 102; 101; 105; 104])) 2 200
         (repeat (1 / 2) 830)
       = Done (Some res) rest
    /\ num_le (outlierMin (day_aggregate res 2)) (projectedLow (stats res))
    /\ num_le (projectedLow (stats res)) (projectedMedian (stats res))
    /\ num_le (projectedMedian (stats res)) (projectedHigh (stats res))
    /\ num_le (projectedHigh (stats res)) (outlierMax (day_aggregate res 2)).
Proof.
  assert (Hfair : fair_tape (repeat (1 / 2) 830) 2 200)
    by (apply fair_tape_repeat; simpl; lia).
  destruct (final_band_within_outliers
              (price_series [100; 102; 101; 105; 104]) 2 200 (repeat (1 / 2) 830))
    as (allPaths & tp1 & res & rest & Hens & Hres & Hvalid).
  - discriminate.
  - lia.
  - exact Hfair.
  - exists allPaths, tp1, res, rest. repeat (split; [assumption |]).
    apply Hvalid. intros j Hj.
    apply (valid_ensemble_without_NaN [100; 102; 101; 105; 104] 2 200
             (repeat (1 / 2) 830) tp1 allPaths); trivial.
    + simpl. lia.
    + repeat constructor; lra.
Defined.

(** On a series of at least three positive prices every number of every day
    aggregate is a positive real (exact arithmetic): the five percentiles,
    the two outlier values and the thirty sample values. *)
Theorem valid_run_reports_positive_prices (prices : list R)
  (days numSimulations : nat) (tp : tape) :
  (3 <= length prices)%nat ->
  positive_prices prices ->
  (1 <= numSimulations)%nat ->
  fair_tape tp days numSimulations ->
  exists res rest,
    runGBM (Some (price_series prices)) days numSimulations tp = Done (Some res) rest
    /\ forall t, (t <= days)%nat ->
         (forall pct, In pct [p5; p25; median; p75; p95; outlierMin; outlierMax] ->
            positive_finite (pct (day_aggregate res t)))
         /\ Forall positive_finite (sims (day_aggregate res t)).
Proof.
  intros Hlen Hpos Hn Hfair.
  destruct (valid_series_statistics prices Hlen Hpos) as (Hd & Hv & Hp).
  destruct (runGBM_runs (price_series prices) days numSimulations tp)
    as (allPaths & tp1 & imin & imax & draws & sampled & rest & Hrun); trivial.
  { destruct prices; [cbn [length] in Hlen; lia | discriminate]. }
  destruct Hrun as [_ Hcount Hall Himin Himax _ _ _ _ _ Hrange _ Hres].
  eexists. exists rest. split; [exact Hres |].
  intros t Ht. rewrite result_value_day by exact Ht.
  assert (Hprice : forall j, (j < numSimulations)%nat ->
                             positive_finite (price_at allPaths j t)).
  { intros j Hj. rewrite <- Hcount in Hj.
    exact (valid_price_at j t Hall Hd Hv Hp Hj Ht). }
  assert (Hpct : forall q, 0 <= q < 1 ->
            positive_finite (number_item (pricesAtT_of allPaths t)
                               (percentile_index numSimulations q))).
  { intros q Hq.
    destruct (percentile_attained allPaths numSimulations t q Hn Hcount Hq)
      as (j & Hj & ->).
    now apply Hprice. }
  split.
  - intros pct Hin. cbn [In] in Hin.
    destruct Hin as [<- | [<- | [<- | [<- | [<- | [<- | [<- | []]]]]]]];
      unfold p25, p75;
      cbn [p5 median p95 innerRange fst snd outlierMin outlierMax dayData_value];
      try (apply Hpct; lra); now apply Hprice.
  - cbn [sims dayData_value]. apply Forall_forall. intros x Hx.
    apply in_map_iff in Hx. destruct Hx as (j & <- & Hj).
    apply Hprice. rewrite Forall_forall in Hrange. now apply Hrange.
Qed.

Lemma valid_run_reports_positive_prices_witness :
  exists res rest,
    runGBM (Some (price_series [100; 102; 101; 105; 104])) 2 200 (repeat (1 / 2) 830)
    = Done (Some res) rest
    /\ forall t, (t <= 2)%nat ->
         (forall pct, In pct [p5; p25; median; p75; p95; outlierMin; outlierMax] ->
            positive_finite (pct (day_aggregate res t)))
         /\ Forall positive_finite (sims (day_aggregate res t)).
Proof.
  apply (valid_run_reports_positive_prices [100; 102; 101; 105; 104] 2 200).
  - simpl. lia.
  - repeat constructor; lra.
  - lia.
  - apply fair_tape_repeat. simpl. lia.
Defined.

(** On a series of at least three positive prices whose consecutive ratios
    lie within [1/max_ratio, max_ratio] the volatility the summary reports
    is [toFixed(2)] of a non-negative real: one hundred times the square
    root of the sample variance of the log returns, at most
    300 ln max_ratio. *)
Theorem volatility_reported_nonnegative (prices : list R)
  (days numSimulations : nat) (tp : tape) :
  (3 <= length prices)%nat ->
  positive_prices prices ->
  bounded_ratios prices ->
  (1 <= numSimulations)%nat ->
  fair_tape tp days numSimulations ->
  exists res rest v,
    runGBM (Some (price_series prices)) days numSimulations tp = Done (Some res) rest
    /\ volatility (stats res) = toFixed (Fin v) 2
    /\ v = sqrt (spec_variance (spec_log_returns prices)) * 100
    /\ 0 <= v <= 300 * ln max_ratio.
Proof.
  intros Hlen Hpos Hbound Hn Hfair.
  destruct (runGBM_runs (price_series prices) days numSimulations tp)
    as (allPaths & tp1 & imin & imax & draws & sampled & rest & Hrun); trivial.
  { destruct prices; [cbn [length] in Hlen; lia | discriminate]. }
  eexists. exists rest, (sqrt (spec_variance (spec_log_returns prices)) * 100).
  split; [exact (run_result _ _ _ _ _ _ _ _ _ _ _ Hrun) |].
  assert (Hrs : (2 <= length (spec_log_returns prices))%nat).
  { unfold spec_log_returns. rewrite length_map, length_seq. lia. }
  split; [| split; [reflexivity |]].
  - unfold result_value. cbn [stats volatility].
    rewrite log_returns_price_series, volatility_finite by assumption.
    reflexivity.
  - pose proof (volatility_bounded (ln max_ratio) (spec_log_returns prices)
                  ln_max_ratio_nonneg Hrs (log_returns_bounded prices Hbound)) as H.
    unfold spec_volatility in H. lra.
Qed.

Lemma volatility_reported_nonnegative_witness :
  exists res rest v,
    runGBM (Some (price_series [100; 102; 101; 105; 104])) 2 200 (repeat (1 / 2) 830)
    = Done (Some res) rest
    /\ volatility (stats res) = toFixed (Fin v) 2
    /\ v = sqrt (spec_variance (spec_log_returns [100; 102; 101; 105; 104])) * 100
    /\ 0 <= v <= 300 * ln max_ratio.
Proof.
  apply (volatility_reported_nonnegative [100; 102; 101; 105; 104] 2 200).
  - simpl. lia.
  - repeat constructor; lra.
  - apply (bounded_ratios_between 100 105); [lra | | repeat constructor; lra].
    pose proof max_ratio_ge_10. lra.
  - lia.
  - apply fair_tape_repeat. simpl. lia.
Defined.

(* ================================================================== *)
(** * The random draws of a run *)
(* ================================================================== *)

Lemma nonzero_draws_zero_free (tp : tape) :
  Forall (fun x => x <> 0) tp -> nonzero_draws tp = length tp.
Proof.
  induction 1 as [| x tp Hx _ IH]; [reflexivity |].
  cbn [nonzero_draws length]. rewrite (is_zero_Fin_nonzero _ Hx), IH. reflexivity.
Qed.

Lemma consumes_zero_free (tp rest : tape) (k : nat) :
  Forall (fun x => x <> 0) tp -> consumes tp rest k -> rest = skipn k tp.
Proof.
  intros Hz [[read ->] Hn].
  rewrite (nonzero_draws_zero_free _ Hz) in Hn.
  apply Forall_app in Hz. destruct Hz as [_ Hrest].
  rewrite (nonzero_draws_zero_free _ Hrest), length_app in Hn.
  assert (Hk : k = length read) by lia. subst k.
  now rewrite skipn_app, skipn_all, Nat.sub_diag.
Qed.

(** The draws a run makes: the ensemble accepts exactly two non-zero draws
    per simulated day of every path, the sample indices then read exactly
    thirty draws (a zero counts), and nothing is read after them. On a
    tape without a zero the run reads exactly
    [2 * days * numSimulations + 30] values. *)
Theorem run_draw_budget (historicalPrices : list num)
  (days numSimulations : nat) (tp : tape) :
  historicalPrices <> [] ->
  (1 <= numSimulations)%nat ->
  fair_tape tp days numSimulations ->
  exists allPaths tp1 draws res rest,
    ensemble_of historicalPrices days numSimulations tp = Done allPaths tp1
    /\ consumes tp tp1 (2 * (days * numSimulations))
    /\ tp1 = draws ++ rest
    /\ length draws = 30%nat
    /\ runGBM (Some historicalPrices) days numSimulations tp = Done (Some res) rest
    /\ (Forall (fun x => x <> 0) tp ->
        rest = skipn (2 * (days * numSimulations) + 30) tp).
Proof.
  intros Hne Hn Hfair.
  destruct (runGBM_runs historicalPrices days numSimulations tp Hne Hn Hfair)
    as (allPaths & tp1 & imin & imax & draws & sampled & rest & Hrun).
  destruct Hrun as [Hens _ _ _ _ _ _ Htp1 Hlen _ _ _ Hres].
  destruct Hfair as [Hu Hd]. unfold enough_draws in Hd.
  destruct (simulate_paths_runs (drift_of (log_returns historicalPrices))
              (volatility_of (log_returns historicalPrices))
              (lastPrice_of historicalPrices) days numSimulations tp Hu)
    as (ps & r & Hps & _ & _ & Hc); [lia |].
  assert (Hens' := Hens). unfold ensemble_of in Hens'. cbv zeta in Hens'.
  rewrite Hps in Hens'. injection Hens' as Ha Hr. subst ps r.
  exists allPaths, tp1, draws. eexists. exists rest.
  repeat (split; [eassumption |]).
  intros Hz. rewrite (consumes_zero_free _ _ _ Hz Hc) in Htp1.
  rewrite Nat.add_comm, <- skipn_skipn, Htp1, <- Hlen.
  now rewrite skipn_app, skipn_all, Nat.sub_diag.
Qed.

Lemma run_draw_budget_witness :
  exists allPaths tp1 draws res rest,
    ensemble_of (price_series [100; 102; 101; 105; 104]) 2 200 (repeat (1 / 2) 830)
    = Done allPaths tp1
    /\ consumes (repeat (1 / 2) 830) tp1 (2 * (2 * 200))
    /\ tp1 = draws ++ rest
    /\ length draws = 30%nat
    /\ runGBM (Some (price_series [100; 102; 101; 105; 104])) 2 200
         (repeat (1 / 2) 830)
       = Done (Some res) rest
    /\ rest = skipn (2 * (2 * 200) + 30) (repeat (1 / 2) 830).
Proof.
  destruct (run_draw_budget
              (price_series [100; 102; 101; 105; 104]) 2 200 (repeat (1 / 2) 830))
    as (allPaths & tp1 & draws & res & rest & H1 & H2 & H3 & H4 & H5 & H6).
  - discriminate.
  - lia.
  - apply fair_tape_repeat. simpl. lia.
  - exists allPaths, tp1, draws, res, rest.
    repeat (split; [assumption |]).
    apply H6. apply Forall_forall. intros x Hx. apply repeat_spec in Hx. lra.
Defined.

(** With a non-empty price array and a fair tape, [runGBM] throws exactly
    when it is asked for no path: line 97 then reads [index] of
    [undefined]. With at least one path it returns a result. *)
Theorem TypeError_iff_no_paths (historicalPrices : list num)
  (days numSimulations : nat) (tp : tape) :
  historicalPrices <> [] ->
  fair_tape tp days numSimulations ->
  (runGBM (Some historicalPrices) days numSimulations tp = Thrown TypeError
   <-> numSimulations = 0%nat)
  /\ ((exists res rest,
         runGBM (Some historicalPrices) days numSimulations tp = Done (Some res) rest)
      <-> (1 <= numSimulations)%nat).
Proof.
  intros Hne Hfair. destruct numSimulations as [| n].
  - destruct historicalPrices as [| p prices]; [contradiction |].
    rewrite no_paths_throw. split; split; trivial; try lia.
    intros (res & rest & H). discriminate.
  - destruct (runGBM_runs historicalPrices days (S n) tp Hne) as
      (allPaths & tp1 & imin & imax & draws & sampled & rest & Hrun);
      [lia | exact Hfair |].
    rewrite (run_result _ _ _ _ _ _ _ _ _ _ _ Hrun).
    split; split; try discriminate; try lia.
    intros _. eexists. eexists. reflexivity.
Qed.

Lemma TypeError_iff_no_paths_witness :
  (runGBM (Some [Fin 100; Fin 102]) 1 0 (repeat (1 / 2) 30) = Thrown TypeError
   <-> 0%nat = 0%nat)
  /\ ((exists res rest,
         runGBM (Some [Fin 100; Fin 102]) 1 0 (repeat (1 / 2) 30)
         = Done (Some res) rest)
      <-> (1 <= 0)%nat).
Proof.
  apply (TypeError_iff_no_paths [Fin 100; Fin 102] 1 0 (repeat (1 / 2) 30)).
  - discriminate.
  - apply fair_tape_repeat. simpl. lia.
Defined.

(* ================================================================== *)
(** * Flat ensembles: horizon 0 and constant series *)
(* ================================================================== *)

Lemma flat_cross_section (p : num) (days n t : nat) :
  (t <= days)%nat ->
  pricesAtT_of (repeat (repeat p (S days)) n) t = repeat p n.
Proof.
  intros Ht. unfold pricesAtT_of. rewrite map_repeat. unfold number_at.
  rewrite (nth_indep _ NaN p) by (rewrite repeat_length; lia).
  rewrite nth_repeat. apply Array_sort_repeat.
Qed.

Lemma flat_price_at (p : num) (days n j t : nat) :
  (j < n)%nat -> (t <= days)%nat ->
  price_at (repeat (repeat p (S days)) n) j t = p.
Proof.
  intros Hj Ht. unfold price_at, number_at.
  rewrite (nth_indep _ [] (repeat p (S days))) by (rewrite repeat_length; lia).
  rewrite nth_repeat.
  rewrite (nth_indep _ NaN p) by (rewrite repeat_length; lia).
  apply nth_repeat.
Qed.

Lemma flat_ensemble_day (p : num) (days n imin imax : nat) (sampled : list nat)
  (t : nat) :
  (1 <= n)%nat -> (imin < n)%nat -> (imax < n)%nat ->
  Forall (fun k => (k < n)%nat) sampled -> length sampled = 30%nat ->
  (t <= days)%nat ->
  dayData_value (repeat (repeat p (S days)) n) n imin imax sampled t = flat_day p t.
Proof.
  intros Hn Hmin Hmax Hs Hlen Ht. unfold dayData_value, flat_day.
  rewrite (flat_cross_section p days n t Ht).
  rewrite !number_item_repeat by (trivial; lra).
  rewrite !flat_price_at by trivial.
  f_equal. rewrite <- Hlen. clear Hlen.
  induction Hs as [| k l Hk _ IH]; [reflexivity |].
  cbn [map length]. rewrite flat_price_at by trivial. rewrite IH. reflexivity.
Qed.

Lemma flat_result (historicalPrices : list num) (p : num)
  (days n imin imax : nat) (sampled : list nat) :
  (1 <= n)%nat -> (imin < n)%nat -> (imax < n)%nat ->
  Forall (fun k => (k < n)%nat) sampled -> length sampled = 30%nat ->
  result_value historicalPrices (repeat (repeat p (S days)) n) days n
    imin imax sampled
  = {| data := map (flat_day p) (seq 0 (S days));
       stats := {| current := lastPrice_of historicalPrices;
                   projectedMedian := p;
                   projectedLow := p;
                   projectedHigh := p;
                   volatility :=
                     toFixed (volatility_of (log_returns historicalPrices) * Fin 100) 2
                |} |}.
Proof.
  intros Hn Hmin Hmax Hs Hlen. unfold result_value. cbv zeta.
  rewrite (flat_ensemble_day p days n imin imax sampled days) by (trivial; lia).
  rewrite (map_ext_in _ (flat_day p)); [reflexivity |].
  intros t Ht. apply in_seq in Ht. apply flat_ensemble_day; trivial; lia.
Qed.

Lemma no_days_loop (drift volatility lastPrice : num) (count lo : nat)
  (acc : list (list num)) (tp : tape) :
  for_loop lo count (fun _ => push_path drift volatility lastPrice 0) acc tp
  = Done (acc ++ repeat [lastPrice] count) tp.
Proof.
  revert lo acc. induction count as [| c IH]; intros lo acc.
  - cbn [for_loop repeat]. unfold ret. now rewrite app_nil_r.
  - assert (Hpush : push_path drift volatility lastPrice 0 acc tp
                    = Done (acc ++ [[lastPrice]]) tp) by reflexivity.
    cbn [for_loop]. unfold bind at 1. rewrite Hpush, IH, <- app_assoc. reflexivity.
Qed.

(** With a horizon of 0 days no path takes a step: the run makes no
    Gaussian draw, reads the thirty draws of the sample indices, and returns
    the single aggregate of day 0, flat at the last historical price, which
    is also the projected median, low and high. *)
Theorem horizon_zero_is_last_price (historicalPrices : list num)
  (numSimulations : nat) (tp : tape) :
  historicalPrices <> [] ->
  (1 <= numSimulations)%nat ->
  fair_tape tp 0 numSimulations ->
  runGBM (Some historicalPrices) 0 numSimulations tp
  = Done (Some {| data := [flat_day (last historicalPrices NaN) 0];
                  stats := {| current := last historicalPrices NaN;
                              projectedMedian := last historicalPrices NaN;
                              projectedLow := last historicalPrices NaN;
                              projectedHigh := last historicalPrices NaN;
                              volatility :=
                                toFixed (volatility_of (log_returns historicalPrices)
                                         * Fin 100) 2 |} |})
      (skipn 30 tp).
Proof.
  intros Hne Hn Hfair.
  destruct (runGBM_runs historicalPrices 0 numSimulations tp Hne Hn Hfair)
    as (allPaths & tp1 & imin & imax & draws & sampled & rest & Hrun).
  destruct Hrun as [Hens _ _ Himin Himax _ _ Htp1 Hlen Hslen Hrange _ Hres].
  unfold ensemble_of, simulate_paths in Hens. cbv zeta in Hens.
  rewrite no_days_loop in Hens. cbn [app] in Hens.
  injection Hens as Ha Ht. subst allPaths tp1.
  rewrite Hres. rewrite <- lastPrice_of_last. f_equal.
  - f_equal.
    exact (flat_result historicalPrices (lastPrice_of historicalPrices) 0
             numSimulations imin imax sampled Hn Himin Himax Hrange Hslen).
  - rewrite Htp1, <- Hlen. now rewrite skipn_app, skipn_all, Nat.sub_diag.
Qed.

Lemma horizon_zero_is_last_price_witness :
  runGBM (Some [Fin 100; Fin 102; Fin 101]) 0 200 (repeat (1 / 2) 40)
  = Done (Some {| data := [flat_day (last [Fin 100; Fin 102; Fin 101] NaN) 0];
                  stats := {| current := last [Fin 100; Fin 102; Fin 101] NaN;
                              projectedMedian := last [Fin 100; Fin 102; Fin 101] NaN;
                              projectedLow := last [Fin 100; Fin 102; Fin 101] NaN;
                              projectedHigh := last [Fin 100; Fin 102; Fin 101] NaN;
                              volatility :=
                                toFixed (volatility_of
                                           (log_returns [Fin 100; Fin 102; Fin 101])
                                         * Fin 100) 2 |} |})
      (skipn 30 (repeat (1 / 2) 40)).
Proof.
  apply (horizon_zero_is_last_price [Fin 100; Fin 102; Fin 101] 200
           (repeat (1 / 2) 40)).
  - discriminate.
  - lia.
  - apply fair_tape_repeat. simpl. lia.
Defined.

Lemma Rsum_zeros (m : nat) : Rsum (repeat 0 m) = 0.
Proof.
  induction m as [| m IH]; [reflexivity |].
  cbn [repeat]. unfold Rsum in *. cbn [fold_right]. rewrite IH. lra.
Qed.

Lemma constant_series_returns (c : R) (k : nat) :
  0 < c -> spec_log_returns (repeat c k) = repeat 0 (k - 1).
Proof.
  intros Hc. unfold spec_log_returns. rewrite repeat_length.
  transitivity (map (fun _ : nat => 0) (seq 0 (k - 1))).
  - apply map_ext_in. intros i Hi. apply in_seq in Hi. unfold spec_log_return.
    rewrite !(nth_indep _ 0 c) by (rewrite repeat_length; lia).
    rewrite !nth_repeat. replace (c / c) with 1 by (field; lra). apply ln_1.
  - now rewrite map_const, length_seq.
Qed.

Lemma constant_series_moments (c : R) (k : nat) :
  0 < c -> (3 <= k)%nat ->
  drift_of (log_returns (price_series (repeat c k))) = Fin 0
  /\ volatility_of (log_returns (price_series (repeat c k))) = Fin 0
  /\ lastPrice_of (price_series (repeat c k)) = Fin c.
Proof.
  intros Hc Hk.
  assert (Hpos : positive_prices (repeat c k)).
  { apply Forall_forall. intros x Hx. apply repeat_spec in Hx. now subst x. }
  rewrite (log_returns_price_series _ Hpos), (constant_series_returns c k Hc).
  assert (Hlen : (2 <= length (repeat 0%R (k - 1)))%nat)
    by (rewrite repeat_length; lia).
  assert (Hmean : spec_mean (repeat 0 (k - 1)) = 0).
  { unfold spec_mean. rewrite Rsum_zeros. unfold Rdiv. apply Rmult_0_l. }
  assert (Hvar : spec_variance (repeat 0 (k - 1)) = 0).
  { unfold spec_variance. rewrite Hmean, map_repeat.
    replace ((0 - 0) ^ 2) with 0 by ring.
    rewrite Rsum_zeros. unfold Rdiv. apply Rmult_0_l. }
  split; [| split].
  - rewrite drift_finite by exact Hlen. unfold spec_drift.
    rewrite Hmean, Hvar. f_equal. lra.
  - rewrite volatility_finite by exact Hlen. unfold spec_volatility.
    now rewrite Hvar, sqrt_0.
  - unfold lastPrice_of, price_series, number_at. rewrite map_repeat, repeat_length.
    rewrite (nth_indep _ NaN (Fin c)) by (rewrite repeat_length; lia).
    apply nth_repeat.
Qed.

Lemma flat_step (c z : R) :
  (Fin c * Math_exp (Fin 0 + Fin 0 * Fin z))%num = Fin c.
Proof.
  transitivity (Fin (c * exp (0 + 0 * z))); [reflexivity |].
  f_equal. rewrite Rmult_0_l, Rplus_0_l, exp_0. lra.
Qed.

Lemma flat_path_loop (c : R) (count lo : nat) (path : list num) (tp : tape) :
  Forall unit_draw tp ->
  (2 * count <= nonzero_draws tp)%nat ->
  exists rest,
    for_loop lo count (fun _ => path_step (Fin 0) (Fin 0)) (path, Fin c) tp
    = Done (path ++ repeat (Fin c) count, Fin c) rest
    /\ consumes tp rest (2 * count).
Proof.
  revert lo path tp. induction count as [| n IH]; intros lo path tp Hu Hn.
  - exists tp. cbn [for_loop repeat]. unfold ret. rewrite app_nil_r.
    split; [reflexivity | apply consumes_refl].
  - destruct (generateGaussian_runs Hu) as (z & r1 & Hz & Hc1); [lia |].
    destruct (IH (S lo) (path ++ [Fin c]) r1) as (rest & Hrun & Hc).
    { exact (consumes_Forall Hc1 Hu). }
    { destruct Hc1. lia. }
    exists rest. split.
    + cbn [for_loop]. unfold bind at 1. unfold path_step at 1. unfold bind at 1.
      rewrite Hz. cbn [fst snd]. unfold ret at 1. rewrite flat_step.
      rewrite Hrun, <- app_assoc. reflexivity.
    + replace (2 * S n)%nat with (2 + 2 * n)%nat by lia.
      exact (consumes_trans Hc1 Hc).
Qed.

Lemma flat_paths_loop (c : R) (days count lo : nat) (acc : list (list num))
  (tp : tape) :
  Forall unit_draw tp ->
  (2 * (days * count) <= nonzero_draws tp)%nat ->
  exists rest,
    for_loop lo count (fun _ => push_path (Fin 0) (Fin 0) (Fin c) days) acc tp
    = Done (acc ++ repeat (repeat (Fin c) (S days)) count) rest
    /\ consumes tp rest (2 * (days * count)).
Proof.
  revert lo acc tp. induction count as [| n IH]; intros lo acc tp Hu Hn.
  - exists tp. cbn [for_loop repeat]. unfold ret. rewrite app_nil_r.
    split; [reflexivity |]. replace (2 * (days * 0))%nat with 0%nat by lia.
    apply consumes_refl.
  - destruct (flat_path_loop c days 1 [Fin c] tp Hu) as (r1 & Hpath & Hc1); [lia |].
    destruct (IH (S lo) (acc ++ [repeat (Fin c) (S days)]) r1) as (rest & Hrun & Hc).
    { exact (consumes_Forall Hc1 Hu). }
    { destruct Hc1. nia. }
    exists rest. split.
    + cbn [for_loop]. unfold bind at 1. unfold push_path at 1. unfold bind at 1.
      unfold simulate_path at 1. unfold bind at 1. rewrite Hpath.
      unfold ret at 1 2. cbn [fst app]. 
      change (Fin c :: repeat (Fin c) days) with (repeat (Fin c) (S days)).
      rewrite Hrun, <- app_assoc. reflexivity.
    + replace (2 * (days * S n))%nat with (2 * days + 2 * (days * n))%nat by lia.
      exact (consumes_trans Hc1 Hc).
Qed.

(** A constant series of at least three prices [c > 0] has drift 0 and
    volatility 0, so every path stays at [c]: every aggregate of the result
    is flat at [c], the projected median, low and high are [c], and the
    reported volatility is [toFixed(2)] of 0. *)
Theorem constant_series_stays_flat (c : R) (k days numSimulations : nat) (tp : tape) :
  0 < c ->
  (3 <= k)%nat ->
  (1 <= numSimulations)%nat ->
  fair_tape tp days numSimulations ->
  exists rest,
    runGBM (Some (price_series (repeat c k))) days numSimulations tp
    = Done (Some {| data := map (flat_day (Fin c)) (seq 0 (S days));
                    stats := {| current := Fin c;
                                projectedMedian := Fin c;
                                projectedLow := Fin c;
                                projectedHigh := Fin c;
                                volatility := toFixed (Fin 0) 2 |} |}) rest.
Proof.
  intros Hc Hk Hn Hfair.
  destruct (constant_series_moments c k Hc Hk) as (Hd & Hv & Hl).
  destruct (runGBM_runs (price_series (repeat c k)) days numSimulations tp)
    as (allPaths & tp1 & imin & imax & draws & sampled & rest & Hrun); trivial.
  { destruct k; [lia | discriminate]. }
  destruct Hrun as [Hens _ _ Himin Himax _ _ _ _ Hslen Hrange _ Hres].
  unfold ensemble_of, simulate_paths in Hens. cbv zeta in Hens.
  rewrite Hd, Hv, Hl in Hens.
  destruct Hfair as [Hu Hdraws]. unfold enough_draws in Hdraws.
  destruct (flat_paths_loop c days numSimulations 0 [] tp Hu) as (r & Hflat & _);
    [lia |].
  rewrite Hflat in Hens. cbn [app] in Hens. injection Hens as Ha Hr. subst allPaths r.
  exists rest. rewrite Hres.
  rewrite (flat_result _ (Fin c) days numSimulations imin imax sampled)
    by assumption.
  rewrite Hl, Hv. cbn [num_mul]. now rewrite Rmult_0_l.
Qed.

Lemma constant_series_stays_flat_witness :
  exists rest,
    runGBM (Some (price_series (repeat 5 3))) 2 200 (repeat (1 / 2) 830)
    = Done (Some {| data := map (flat_day (Fin 5)) (seq 0 (S 2));
                    stats := {| current := Fin 5;
                                projectedMedian := Fin 5;
                                projectedLow := Fin 5;
                                projectedHigh := Fin 5;
                                volatility := toFixed (Fin 0) 2 |} |}) rest.
Proof.
  apply (constant_series_stays_flat 5 3 2 200 (repeat (1 / 2) 830)).
  - lra.
  - lia.
  - lia.
  - apply fair_tape_repeat. simpl. lia.
Defined.

(** The shock of one day is bounded by the smallest non-zero value the
    random source can return: when every non-zero draw of the tape is at
    least [u0], the sampler returns a real [z] with
    [|z| <= sqrt (-2 ln u0)]. *)
Theorem gaussian_shock_bounded (u0 : R) (tp : tape) :
  0 < u0 ->
  Forall unit_draw tp ->
  Forall (fun x => x = 0 \/ u0 <= x) tp ->
  (2 <= nonzero_draws tp)%nat ->
  exists z rest,
    generateGaussian tp = Done (Fin z) rest
    /\ Rabs z <= sqrt (-2 * ln u0).
Proof.
  intros Hu0 Hu Hgrain Hn.
  destruct (draw_nonzero_runs tp) as (u & r1 & Hr1 & Hnz & Hin & Hc1); [lia |].
  destruct (draw_nonzero_runs r1) as (v & r2 & Hr2 & _ & _ & _).
  { destruct Hc1. lia. }
  rewrite Forall_forall in Hu, Hgrain.
  pose proof (Hu u Hin) as Hunit. unfold unit_draw in Hunit.
  destruct (Hgrain u Hin) as [Hz | Hge]; [contradiction |].
  assert (Hur : 0 < u < 1) by lra.
  exists (sqrt (-2 * ln u) * cos (2 * PI * v)), r2. split.
  - unfold generateGaussian, bind. rewrite Hr1, Hr2. unfold ret.
    now rewrite (box_muller_unit _ v Hur).
  - assert (Hln1 : ln u < 0) by (rewrite <- ln_1; apply ln_increasing; lra).
    assert (Hln : ln u0 <= ln u).
    { destruct Hge as [Hlt | ->]; [left; now apply ln_increasing | right; reflexivity]. }
    rewrite Rabs_mult, (Rabs_pos_eq (sqrt _)) by apply sqrt_pos.
    assert (Hcos : Rabs (cos (2 * PI * v)) <= 1).
    { apply Rabs_le. apply COS_bound. }
    assert (Hs : sqrt (-2 * ln u) <= sqrt (-2 * ln u0)) by (apply sqrt_le_1; lra).
    pose proof (sqrt_pos (-2 * ln u)) as Hs0.
    pose proof (Rabs_pos (cos (2 * PI * v))) as Hc0.
    nra.
Qed.

Lemma gaussian_shock_bounded_witness :
  exists z rest,
    generateGaussian [0; 1 / 2; 1 / 4] = Done (Fin z) rest
    /\ Rabs z <= sqrt (-2 * ln (1 / 4)).
Proof.
  apply (gaussian_shock_bounded (1 / 4) [0; 1 / 2; 1 / 4]).
  - lra.
  - repeat constructor; lra.
  - repeat constructor; lra.
  - cbn [nonzero_draws]. rewrite is_zero_Fin_0, !is_zero_Fin_nonzero by lra. lia.
Defined.

(* ================================================================== *)
(** * Strings *)
(* ================================================================== *)

Lemma substring_empty (n m : nat) :
  String.substring n m EmptyString = EmptyString.
Proof. destruct n, m; reflexivity. Qed.

Lemma substring_0_0 (s : string) : String.substring 0 0 s = EmptyString.
Proof. destruct s; reflexivity. Qed.

Lemma substring_all (s : string) : String.substring 0 (String.length s) s = s.
Proof.
  induction s as [| c s IH]; [reflexivity |].
  cbn [String.length String.substring]. now rewrite IH.
Qed.

Lemma substring_head_tail (s : string) (k : nat) :
  (String.substring 0 k s ++ String.substring k (String.length s - k) s)%string = s.
Proof.
  revert k. induction s as [| c s IH]; intros k.
  - now rewrite !substring_empty.
  - destruct k as [| k].
    + rewrite substring_0_0, Nat.sub_0_r. cbn [String.append]. apply substring_all.
    + cbn [String.length String.substring Nat.sub String.append]. now rewrite IH.
Qed.

(** A string is the part before position [i], the [k] characters from [i]
    on, and the rest. *)
Lemma substring_split (s : string) (i k : nat) :
  (String.substring 0 i s ++ String.substring i k s
   ++ String.substring (i + k) (String.length s - (i + k)) s)%string = s.
Proof.
  revert i. induction s as [| c s IH]; intros i.
  - now rewrite !substring_empty.
  - destruct i as [| i].
    + rewrite substring_0_0. cbn [String.append Nat.add]. apply substring_head_tail.
    + cbn [String.length String.substring Nat.sub Nat.add String.append].
      now rewrite IH.
Qed.

Lemma length_append (a b : string) :
  String.length (a ++ b) = (String.length a + String.length b)%nat.
Proof.
  induction a as [| c a IH]; [reflexivity |].
  cbn [String.append String.length Nat.add]. now rewrite IH.
Qed.

Lemma append_assoc (a b c : string) : ((a ++ b) ++ c)%string = (a ++ (b ++ c))%string.
Proof.
  induction a as [| x a IH]; [reflexivity |].
  cbn [String.append]. now rewrite IH.
Qed.

Lemma substring_append_l (a b : string) :
  String.substring 0 (String.length a) (a ++ b) = a.
Proof.
  induction a as [| c a IH].
  - cbn [String.length String.append]. apply substring_0_0.
  - cbn [String.length String.append String.substring]. now rewrite IH.
Qed.

Lemma substring_append_skip (a b : string) (m k : nat) :
  String.substring (String.length a + m) k (a ++ b) = String.substring m k b.
Proof.
  induction a as [| c a IH]; [reflexivity |].
  cbn [String.length String.append Nat.add String.substring]. exact IH.
Qed.

Lemma substring_within (a c : string) (m k : nat) :
  (m + k <= String.length a)%nat ->
  String.substring m k (a ++ c) = String.substring m k a.
Proof.
  revert m k. induction a as [| x a IH]; intros m k H.
  - cbn [String.length] in H. assert (m = 0%nat) by lia. assert (k = 0%nat) by lia.
    subst. cbn [String.append]. now rewrite substring_0_0.
  - cbn [String.length] in H. destruct m as [| m].
    + destruct k as [| k]; [reflexivity |].
      cbn [String.append String.substring]. f_equal. apply IH. lia.
    + cbn [String.append String.substring]. apply IH. lia.
Qed.

(** The first occurrence of a pattern [q ++ x] in [base ++ pattern ++ rest]
    is at the end of [base], when the pattern does not occur in [base ++ q]. *)
Lemma index_first_occurrence (q : string) (x : ascii) (base rest : string) :
  String.index 0 (q ++ String x EmptyString) (base ++ q) = None ->
  String.index 0 (q ++ String x EmptyString)
    (base ++ (q ++ String x EmptyString) ++ rest)
  = Some (String.length base).
Proof.
  set (p := (q ++ String x EmptyString)%string). intros Hnone.
  assert (Hp : p <> EmptyString).
  { intros E. apply (f_equal String.length) in E. unfold p in E.
    rewrite length_append in E. cbn [String.length] in E. lia. }
  assert (Hlen : String.length p = S (String.length q)).
  { unfold p. rewrite length_append. cbn [String.length]. lia. }
  assert (Hat : String.substring (String.length base) (String.length p)
                  (base ++ p ++ rest) = p).
  { rewrite <- (Nat.add_0_r (String.length base)), substring_append_skip.
    apply substring_append_l. }
  destruct (String.index 0 p (base ++ p ++ rest)) as [m |] eqn:E.
  - destruct (Nat.lt_trichotomy m (String.length base)) as [Hlt | [-> | Hgt]].
    + exfalso. apply index_correct1 in E.
      apply (index_correct3 0 m _ _ Hnone Hp); [lia |].
      rewrite <- E at 2. symmetry.
      unfold p at 2. rewrite (append_assoc q), <- (append_assoc base q).
      apply substring_within. rewrite length_append. lia.
    + reflexivity.
    + exfalso. exact (index_correct2 _ _ _ _ E (String.length base)
                        (Nat.le_0_l _) Hgt Hat).
  - exfalso. exact (index_correct3 0 (String.length base) _ _ E Hp
                      (Nat.le_0_l _) Hat).
Qed.

(** Replacing a pattern by itself changes nothing. *)
Lemma String_replace_same (s p : string) : String_replace s p p = s.
Proof.
  unfold String_replace. destruct (String.index 0 p s) as [i |] eqn:E; [| reflexivity].
  apply index_correct1 in E.
  pose proof (substring_split s i (String.length p)) as H.
  now rewrite E in H.
Qed.

Lemma map_chars_compose (f g : ascii -> ascii) (s : string) :
  map_chars f (map_chars g s) = map_chars (fun c => f (g c)) s.
Proof.
  induction s as [| c s IH]; [reflexivity |].
  cbn [map_chars]. now rewrite IH.
Qed.

Lemma map_chars_ext (f g : ascii -> ascii) (s : string) :
  (forall c, f c = g c) -> map_chars f s = map_chars g s.
Proof.
  intros H. induction s as [| c s IH]; [reflexivity |].
  cbn [map_chars]. now rewrite H, IH.
Qed.

Lemma map_chars_empty (f : ascii -> ascii) (s : string) :
  map_chars f s = EmptyString <-> s = EmptyString.
Proof. destruct s; cbn [map_chars]; split; intros H; try discriminate; reflexivity. Qed.

Lemma upper_of_lower (c : ascii) :
  char_toUpperCase (char_toLowerCase c) = char_toUpperCase c.
Proof. destruct c as [[] [] [] [] [] [] [] []]; reflexivity. Qed.

Lemma upper_of_upper (c : ascii) :
  char_toUpperCase (char_toUpperCase c) = char_toUpperCase c.
Proof. destruct c as [[] [] [] [] [] [] [] []]; reflexivity. Qed.

Lemma toUpperCase_toLowerCase (s : string) :
  toUpperCase (toLowerCase s) = toUpperCase s.
Proof.
  unfold toUpperCase, toLowerCase. rewrite map_chars_compose.
  apply map_chars_ext, upper_of_lower.
Qed.

Lemma toUpperCase_idempotent (s : string) :
  toUpperCase (toUpperCase s) = toUpperCase s.
Proof.
  unfold toUpperCase. rewrite map_chars_compose.
  apply map_chars_ext, upper_of_upper.
Qed.

(* ================================================================== *)
(** * Utilities: [getCoinLogo] and [formatCurrency] *)
(* ================================================================== *)

(** [getCoinLogo] removes the first occurrence of USDT, wherever it is, and
    nothing else: for an ASCII symbol [base ++ USDT ++ rest] in which USDT does
    not begin inside [base], the logo is the file of the lower-cased
    [base ++ rest]. *)
Theorem getCoinLogo_strips_first_USDT (base rest : string) :
  is_ascii base -> is_ascii rest ->
  String.index 0 "USDT" (base ++ "USD") = None ->
  getCoinLogo (base ++ "USDT" ++ rest)
  = (logo_directory ++ toLowerCase (base ++ rest) ++ ".png")%string.
Proof.
  intros _ _ Hnone.
  pose proof (index_first_occurrence "USD" "T" base rest Hnone) as Hidx.
  change ("USD" ++ "T")%string with "USDT"%string in Hidx.
  unfold getCoinLogo. remember (base ++ "USDT" ++ rest)%string as sym eqn:Hsym.
  destruct sym as [| c sym].
  { apply (f_equal String.length) in Hsym. rewrite !length_append in Hsym.
    cbn [String.length] in Hsym. lia. }
  cbv zeta. do 3 f_equal.
  unfold String_replace. rewrite Hidx, Hsym.
  rewrite substring_append_l.
  change (EmptyString ++ ?x)%string with x. f_equal.
  rewrite <- (append_assoc base "USDT" rest), <- length_append.
  rewrite <- (Nat.add_0_r (String.length (base ++ "USDT"))).
  rewrite substring_append_skip.
  replace (String.length ((base ++ "USDT") ++ rest)
           - (String.length (base ++ "USDT") + 0))%nat
    with (String.length rest) by (rewrite length_append; lia).
  now rewrite substring_all.
Qed.

Lemma getCoinLogo_strips_first_USDT_witness :
  getCoinLogo ("USDC" ++ "USDT" ++ "USDT")
  = (logo_directory ++ toLowerCase ("USDC" ++ "USDT") ++ ".png")%string.
Proof.
  apply (getCoinLogo_strips_first_USDT "USDC" "USDT").
  - unfold is_ascii. cbn. repeat constructor.
  - unfold is_ascii. cbn. repeat constructor.
  - reflexivity.
Defined.

(** [formatCurrency]: the fallback for a missing value; the number of
    fraction digits it asks the formatter for (2 from 1 on and for NaN, 4
    below 1, 7 below 0.001, so also for every negative amount); the call of
    [replace] changes nothing; and for an amount of at least 0.0000001 one
    unit of the last digit shown is at most the amount. *)
Theorem formatCurrency_fraction_digits (format : nat -> num -> string) :
  formatCurrency format None = "$0,00"%string
  /\ (forall r, 1 <= r -> formatCurrency format (Some (Fin r)) = format 2%nat (Fin r))
  /\ (forall r, 1 / 1000 <= r < 1 ->
        formatCurrency format (Some (Fin r)) = format 4%nat (Fin r))
  /\ (forall r, r < 1 / 1000 ->
        formatCurrency format (Some (Fin r)) = format 7%nat (Fin r))
  /\ formatCurrency format (Some NaN) = format 2%nat NaN
  /\ formatCurrency format (Some PInf) = format 2%nat PInf
  /\ formatCurrency format (Some NInf) = format 7%nat NInf
  /\ (forall r, 1 / 10000000 <= r ->
        exists digits,
          formatCurrency format (Some (Fin r)) = format digits (Fin r)
          /\ 1 <= r * 10 ^ digits).
Proof.
  assert (H2 : forall r, 1 <= r ->
                 formatCurrency format (Some (Fin r)) = format 2%nat (Fin r)).
  { intros r Hr. unfold formatCurrency, num_lt. rewrite String_replace_same.
    destruct (Rlt_dec r 1); [lra |]. destruct (Rlt_dec r (1 / 1000)); [lra |].
    reflexivity. }
  assert (H4 : forall r, 1 / 1000 <= r < 1 ->
                 formatCurrency format (Some (Fin r)) = format 4%nat (Fin r)).
  { intros r Hr. unfold formatCurrency, num_lt. rewrite String_replace_same.
    destruct (Rlt_dec r 1); [| lra]. destruct (Rlt_dec r (1 / 1000)); [lra |].
    reflexivity. }
  assert (H7 : forall r, r < 1 / 1000 ->
                 formatCurrency format (Some (Fin r)) = format 7%nat (Fin r)).
  { intros r Hr. unfold formatCurrency, num_lt. rewrite String_replace_same.
    destruct (Rlt_dec r (1 / 1000)); [| lra]. reflexivity. }
  split; [reflexivity |]. split; [exact H2 |]. split; [exact H4 |].
  split; [exact H7 |].
  split; [unfold formatCurrency; now rewrite String_replace_same |].
  split; [unfold formatCurrency; now rewrite String_replace_same |].
  split; [unfold formatCurrency; now rewrite String_replace_same |].
  intros r Hr.
  destruct (Rlt_dec r (1 / 1000)) as [Hs | Hs].
  - exists 7%nat. split; [now apply H7 |]. cbn [pow]. lra.
  - destruct (Rlt_dec r 1) as [Hm | Hm].
    + exists 4%nat. split; [apply H4; lra |]. cbn [pow]. lra.
    + exists 2%nat. split; [apply H2; lra |]. cbn [pow]. lra.
Qed.

(* ================================================================== *)
(** * The coin list (lines 546-554) and the search (lines 666-669) *)
(* ================================================================== *)

Section SortByOrder.

Variable A : Type.
Variable cmp : A -> A -> num.
Variable before : A -> A -> Prop.
Variable ordered : A -> Prop.

Hypothesis moved_behind :
  forall x y, ordered x -> ordered y -> is_positive (cmp x y) = true -> before y x.
Hypothesis left_in_front :
  forall x y, ordered x -> ordered y -> is_positive (cmp x y) = false -> before x y.
Hypothesis before_trans :
  forall x y z, before x y -> before y z -> before x z.

Lemma insert_ordered (x : A) (l : list A) :
  ordered x -> Forall ordered l ->
  StronglySorted before l -> StronglySorted before (insert cmp x l).
Proof.
  intros Hx Hl Hs. induction Hs as [| y l Hs IH Hy]; cbn [insert].
  - repeat constructor.
  - inversion Hl as [| ? ? Hky Hl']; subst.
    destruct (is_positive (cmp x y)) eqn:E.
    + constructor; [now apply IH |].
      eapply Permutation_Forall; [symmetry; apply insert_perm |].
      constructor; [| exact Hy].
      now apply moved_behind.
    + assert (Hxy : before x y) by now apply left_in_front.
      constructor; [now constructor |].
      constructor; [exact Hxy |].
      eapply Forall_impl; [| exact Hy].
      intros z Hz. exact (before_trans _ _ _ Hxy Hz).
Qed.

Lemma Array_sort_ordered (l : list A) :
  Forall ordered l -> StronglySorted before (Array_sort cmp l).
Proof.
  induction l as [| x l IH]; intros H; cbn [Array_sort fold_right].
  - constructor.
  - inversion H; subst. apply insert_ordered; trivial.
    + now apply Array_sort_Forall.
    + now apply IH.
Qed.

Lemma sorted_app (l1 l2 : list A) :
  StronglySorted before (l1 ++ l2) ->
  StronglySorted before l1
  /\ forall x y, In x l1 -> In y l2 -> before x y.
Proof.
  induction l1 as [| a l1 IH]; cbn [app]; intros H.
  - split; [constructor | intros x y []].
  - inversion H as [| ? ? Hs Ha]; subst. destruct (IH Hs) as [Hs1 Hcross].
    rewrite Forall_app in Ha. destruct Ha as [Ha1 Ha2]. split.
    + now constructor.
    + intros x y [<- | Hx] Hy; [| now apply Hcross].
      rewrite Forall_forall in Ha2. now apply Ha2.
Qed.

End SortByOrder.

(** The list [fetchCoins] stores is made of the USDT pairs with the highest
    quote volume, at most 300 of them: the pairs are split into those kept
    and those dropped, every coin comes from a kept pair, and, when no
    volume parses to NaN, the kept pairs are in descending order of volume
    and no dropped pair has a higher volume than a kept one. *)
Theorem coin_list_is_top_300_by_volume (parseFloat : string -> num)
  (data : list BinanceTicker.t) :
  exists kept dropped,
    filtered_of parseFloat data = map (coin_of parseFloat) kept
    /\ Permutation (kept ++ dropped) (filter is_USDT_pair data)
    /\ length kept = Nat.min 300 (length (filter is_USDT_pair data))
    /\ Forall (fun c => String_endsWith (symbol c) "USDT" = true)
         (filtered_of parseFloat data)
    /\ (Forall (fun t => volume_of parseFloat t <> NaN) (filter is_USDT_pair data) ->
        StronglySorted (volume_descending parseFloat) kept
        /\ forall k d, In k kept -> In d dropped ->
             num_le (volume_of parseFloat d) (volume_of parseFloat k)).
Proof.
  set (pairs := filter is_USDT_pair data).
  set (sorted := Array_sort (by_quoteVolume parseFloat) pairs).
  assert (Hperm : Permutation sorted pairs) by apply Array_sort_perm.
  exists (firstn 300 sorted), (skipn 300 sorted).
  split; [reflexivity |]. split; [now rewrite firstn_skipn |].
  split; [rewrite length_firstn; unfold sorted; now rewrite Array_sort_length |].
  split.
  - change (filtered_of parseFloat data)
      with (map (coin_of parseFloat) (firstn 300 sorted)).
    apply Forall_forall. intros c Hc. apply in_map_iff in Hc.
    destruct Hc as (t & <- & Hkept).
    assert (Ht : In t sorted)
      by (rewrite <- (firstn_skipn 300 sorted); apply in_or_app; now left).
    apply (Permutation_in _ Hperm) in Ht. unfold pairs in Ht.
    apply filter_In in Ht. exact (proj2 Ht).
  - intros Hvol.
    assert (Hs : StronglySorted (volume_descending parseFloat) sorted).
    { apply (Array_sort_ordered _ (by_quoteVolume parseFloat)
               (volume_descending parseFloat)
               (fun t => volume_of parseFloat t <> NaN)); trivial.
      - intros x y Hx Hy. unfold by_quoteVolume, volume_descending.
        now apply comparator_positive.
      - intros x y Hx Hy. unfold by_quoteVolume, volume_descending.
        now apply comparator_not_positive.
      - intros x y z Hxy Hyz. unfold volume_descending in *.
        exact (num_le_trans _ _ _ Hyz Hxy). }
    rewrite <- (firstn_skipn 300 sorted) in Hs.
    destruct (sorted_app _ _ _ _ Hs) as [Hkept Hcross]. split; [exact Hkept |].
    intros k d Hk Hd. exact (Hcross k d Hk Hd).
Qed.

(** The suggestions of the search box, for an ASCII search term: at most
    five coins, the first matches in the order of the coin list (all of them
    when at most five match); a match is a coin whose symbol includes the
    upper-cased term, so the case of the term does not matter; and an empty
    term suggests nothing, although every symbol includes it. *)
Theorem filteredCoins_suggestions (coins : list Coin) (searchTerm : string) :
  is_ascii searchTerm ->
  searchTerm <> EmptyString ->
  (length (filteredCoins coins searchTerm) <= 5)%nat
  /\ (exists more,
        matching_coins coins searchTerm = filteredCoins coins searchTerm ++ more)
  /\ ((length (matching_coins coins searchTerm) <= 5)%nat ->
      forall c, In c (filteredCoins coins searchTerm)
                <-> In c coins
                    /\ String_includes (symbol c) (toUpperCase searchTerm) = true)
  /\ filteredCoins coins (toLowerCase searchTerm) = filteredCoins coins searchTerm
  /\ filteredCoins coins (toUpperCase searchTerm) = filteredCoins coins searchTerm
  /\ filteredCoins coins EmptyString = []
  /\ matching_coins coins EmptyString = coins.
Proof.
  intros _ Hterm.
  assert (Hdef : forall term, term <> EmptyString ->
            filteredCoins coins term = firstn 5 (matching_coins coins term)).
  { intros term H. destruct term; [contradiction | reflexivity]. }
  rewrite (Hdef searchTerm Hterm).
  split; [rewrite length_firstn; lia |].
  split; [exists (skipn 5 (matching_coins coins searchTerm));
          now rewrite firstn_skipn |].
  split; [| split; [| split; [| split]]].
  - intros Hfew c. rewrite firstn_all2 by exact Hfew.
    unfold matching_coins. apply filter_In.
  - rewrite Hdef by (intros E; now apply map_chars_empty in E).
    unfold matching_coins. now rewrite toUpperCase_toLowerCase.
  - rewrite Hdef by (intros E; now apply map_chars_empty in E).
    unfold matching_coins. now rewrite toUpperCase_idempotent.
  - reflexivity.
  - unfold matching_coins. cbn [toUpperCase map_chars]. clear Hdef.
    induction coins as [| c l IH]; [reflexivity |].
    cbn [filter]. unfold String_includes at 1.
    destruct (symbol c); cbn [String.index String.prefix]; now rewrite IH.
Qed.

Lemma filteredCoins_suggestions_witness :
  (length (filteredCoins
             [{| symbol := "BTCUSDT"; price := Fin 1; change := Fin 0 |};
              {| symbol := "ETHUSDT"; price := Fin 1; change := Fin 0 |}] "btc")
   <= 5)%nat
  /\ filteredCoins
       [{| symbol := "BTCUSDT"; price := Fin 1; change := Fin 0 |};
        {| symbol := "ETHUSDT"; price := Fin 1; change := Fin 0 |}]
       (toUpperCase "btc")
     = filteredCoins
         [{| symbol := "BTCUSDT"; price := Fin 1; change := Fin 0 |};
          {| symbol := "ETHUSDT"; price := Fin 1; change := Fin 0 |}] "btc".
Proof.
  destruct (filteredCoins_suggestions
              [{| symbol := "BTCUSDT"; price := Fin 1; change := Fin 0 |};
               {| symbol := "ETHUSDT"; price := Fin 1; change := Fin 0 |}] "btc")
    as (H1 & _ & _ & _ & H5 & _).
  - unfold is_ascii. cbn. repeat constructor.
  - discriminate.
  - split; [exact H1 | exact H5].
Defined.

(* ================================================================== *)
(** * The Gemini helpers *)
(* ================================================================== *)

Lemma or_else_not_empty (text : option string) (fallback : string) :
  fallback <> EmptyString -> or_else text fallback <> EmptyString.
Proof.
  intros H. destruct text as [[| c s] |]; cbn [or_else]; trivial. discriminate.
Qed.

Lemma getGenAI_cases (API_KEY : option string) :
  (exists c k, API_KEY = Some (String c k)
               /\ getGenAI API_KEY = ([], Some {| apiKey := String c k |}))
  \/ ((API_KEY = None \/ API_KEY = Some EmptyString)
      /\ getGenAI API_KEY
         = ([console_error "API_KEY is missing in environment variables." None],
            None)).
Proof.
  destruct API_KEY as [[| c k] |].
  - right. split; [now right | reflexivity].
  - left. exists c, k. split; reflexivity.
  - right. split; [now left | reflexivity].
Qed.

Lemma answers_not_empty (API_KEY : option string)
  (generateContent : GoogleGenAI -> GenerateContentParameters -> reply)
  (Number_toString : num -> string)
  (symbol : string) (stats : option Stats) (duration : nat) :
  snd (fetchAIInsight API_KEY generateContent Number_toString symbol stats duration)
  <> EmptyString
  /\ snd (fetchNewsSummary API_KEY generateContent symbol) <> EmptyString.
Proof.
  unfold fetchAIInsight, fetchNewsSummary.
  destruct (getGenAI_cases API_KEY) as [(c & k & Hkey & Hai) | [Hkey Hai]];
    rewrite Hai.
  - split.
    + destruct stats as [st |]; [| discriminate].
      destruct (generateContent _ _) as [text | error]; cbn [snd];
        [apply or_else_not_empty |]; discriminate.
    + destruct (generateContent _ _) as [text | error]; cbn [snd];
        [apply or_else_not_empty |]; discriminate.
  - split; [destruct stats |]; discriminate.
Qed.

(** The two requests always answer with a non-empty string, whatever the
    key, the statistics and the service do. Without a key (absent or
    empty) the service is not consulted, one line is logged and a fixed
    message is returned; so it is, without a line logged, for
    [fetchAIInsight] without statistics. With a key, each of the two
    helpers returns the text of the service exactly when it is a non-empty
    string, a fallback when the text is [undefined] or empty, and, when the
    service rejects, logs the error caught and returns a fixed message. *)
Theorem gemini_helpers_always_answer (API_KEY : option string)
  (generateContent : GoogleGenAI -> GenerateContentParameters -> reply)
  (Number_toString : num -> string)
  (symbol : string) (stats : option Stats) (duration : nat) :
  let insight :=
    fetchAIInsight API_KEY generateContent Number_toString symbol stats duration in
  let news := fetchNewsSummary API_KEY generateContent symbol in
  snd insight <> EmptyString
  /\ snd news <> EmptyString
  /\ ((API_KEY = None \/ API_KEY = Some EmptyString) ->
      insight
      = ([console_error "API_KEY is missing in environment variables." None],
         "API Anahtarı eksik veya veri yok."%string)
      /\ news
         = ([console_error "API_KEY is missing in environment variables." None],
            "API Anahtarı eksik."%string))
  /\ (forall key st,
        API_KEY = Some key -> key <> EmptyString -> stats = Some st ->
        match generateContent {| apiKey := key |}
                {| model := "gemini-2.5-flash";
                   contents := insight_query Number_toString symbol st duration;
                   systemInstruction :=
                     "Sen bir Finansal AI Analistisin. Kısa, öz ve tarafsız ol. Yatırım tavsiyesi verme.";
                   tools := None |}
        with
        | fulfilled (Some (String c s)) => insight = ([], String c s)
        | fulfilled _ => insight = ([], "Yapay zeka yanıtı alınamadı."%string)
        | rejected error =>
            insight = ([console_error "Gemini Error:" (Some error)],
                       "Analiz servisi şu anda kullanılamıyor."%string)
        end)
  /\ (forall key,
        API_KEY = Some key -> key <> EmptyString -> stats = None ->
        insight = ([], "API Anahtarı eksik veya veri yok."%string))
  /\ (forall key,
        API_KEY = Some key -> key <> EmptyString ->
        match generateContent {| apiKey := key |}
                {| model := "gemini-2.5-flash";
                   contents :=
                     (symbol ++ " kripto parası için son piyasa gelişmeleri ve duyarlılık özeti (3 kısa madde).")%string;
                   systemInstruction :=
                     "Güncel verilere dayan. Yatırım tavsiyesi verme.";
                   tools := Some [googleSearch] |}
        with
        | fulfilled (Some (String c s)) => news = ([], String c s)
        | fulfilled _ => news = ([], "Haber verisi alınamadı."%string)
        | rejected error =>
            news = ([console_error "Gemini News Error:" (Some error)],
                    "Haber servisi şu anda kullanılamıyor."%string)
        end).
Proof.
  intros insight news. subst insight news.
  destruct (answers_not_empty API_KEY generateContent Number_toString
              symbol stats duration) as [Hinsight Hnews].
  split; [exact Hinsight |]. split; [exact Hnews |]. clear Hinsight Hnews.
  unfold fetchAIInsight, fetchNewsSummary.
  destruct (getGenAI_cases API_KEY) as [(c & k & Hkey & Hai) | [Hkey Hai]];
    rewrite Hai.
  - split; [| split; [| split]].
    + intros [E | E]; rewrite Hkey in E; discriminate.
    + intros key st Ekey _ ->. rewrite Hkey in Ekey. injection Ekey as <-.
      destruct (generateContent _ _) as [[[| c' s] |] | error]; reflexivity.
    + intros key Ekey _ ->. reflexivity.
    + intros key Ekey _. rewrite Hkey in Ekey. injection Ekey as <-.
      destruct (generateContent _ _) as [[[| c' s] |] | error]; reflexivity.
  - assert (Hno : forall key, API_KEY = Some key -> key <> EmptyString -> False).
    { intros key Ekey Hne.
      destruct Hkey as [E | E]; rewrite E in Ekey; [discriminate |].
      injection Ekey as <-. now apply Hne. }
    split; [| split; [| split]].
    + intros _. destruct stats; split; reflexivity.
    + intros key st Ekey Hne _. exfalso. exact (Hno key Ekey Hne).
    + intros key Ekey Hne _. exfalso. exact (Hno key Ekey Hne).
    + intros key Ekey Hne. exfalso. exact (Hno key Ekey Hne).
Qed.

(* ================================================================== *)
(** * Running a simulation from the page *)
(* ================================================================== *)

Lemma perform_then {B : Type} (a : action) (k : handler B) (tp : tape) :
  (perform a ;;; k) tp = (a :: fst (k tp), snd (k tp)).
Proof.
  unfold and_then, perform. destruct (k tp) as [more r]. reflexivity.
Qed.

Lemma run_then {A B : Type} (m : M A) (k : A -> handler B) (a : A)
  (tp rest : tape) :
  m tp = Done a rest ->
  (x <~ run m ;; k x) tp = k a rest.
Proof.
  intros H. unfold and_then, run. rewrite H. destruct (k a rest). reflexivity.
Qed.

(** The simulation that [runAnalysis] schedules, on a fair tape: with
    closing prices it shows the result and starts the two requests, which
    later set two non-empty texts and clear the two loading flags; with an
    empty array of closing prices [runGBM] returns [null], the callback
    shows the analysis view, sets [aiLoading] and then throws a [TypeError]
    at [result!.stats], with no request started that would clear the flag. *)
Theorem runAnalysis_simulation_outcome (API_KEY : option string)
  (generateContent : GoogleGenAI -> GenerateContentParameters -> reply)
  (Number_toString : num -> string)
  (coin : Coin) (closingPrices : list num) (duration : nat) (tp : tape) :
  fair_tape tp duration default_numSimulations ->
  (closingPrices = []
   /\ runAnalysis_simulation coin closingPrices duration tp
      = ([setSimResult None; setView analysis; setIsSimulating false;
          setAiLoading true],
         Thrown TypeError))
  \/ (closingPrices <> []
      /\ exists res rest insight news,
           runGBM (Some closingPrices) duration default_numSimulations tp
           = Done (Some res) rest
           /\ runAnalysis_simulation coin closingPrices duration tp
              = ([setSimResult (Some res); setView analysis; setIsSimulating false]
                 ++ shown_and_requested res (symbol coin) duration,
                 Done tt rest)
           /\ flat_map (settle API_KEY generateContent Number_toString)
                (shown_and_requested res (symbol coin) duration)
              = [setAiInsight insight; setAiLoading false;
                 setNewsSummary news; setNewsLoading false]
           /\ insight <> EmptyString /\ news <> EmptyString).
Proof.
  intros Hfair. destruct closingPrices as [| p prices].
  - left. split; reflexivity.
  - right. split; [discriminate |].
    destruct (runGBM_runs (p :: prices) duration default_numSimulations tp)
      as (allPaths & tp1 & imin & imax & draws & sampled & rest & Hrun);
      [discriminate | unfold default_numSimulations; lia | exact Hfair |].
    pose proof (run_result _ _ _ _ _ _ _ _ _ _ _ Hrun) as Hres.
    eexists. exists rest. eexists. eexists.
    split; [exact Hres |]. split; [| split; [reflexivity |]].
    + unfold runAnalysis_simulation. rewrite (run_then _ _ _ _ _ Hres).
      rewrite !perform_then.
      rewrite (run_then _ _ (stats _) rest rest) by reflexivity.
      rewrite !perform_then. reflexivity.
    + exact (answers_not_empty API_KEY generateContent Number_toString
               (symbol coin)
               (Some (stats (result_value (p :: prices) allPaths duration
                               default_numSimulations imin imax sampled)))
               duration).
Qed.

Lemma runAnalysis_simulation_outcome_witness :
  ([Fin 100; Fin 102; Fin 101] = []
   /\ runAnalysis_simulation
        {| symbol := "BTCUSDT"; price := Fin 101; change := Fin 0 |}
        [Fin 100; Fin 102; Fin 101] 1 (repeat (1 / 2) 1030)
      = ([setSimResult None; setView analysis; setIsSimulating false;
          setAiLoading true],
         Thrown TypeError))
  \/ ([Fin 100; Fin 102; Fin 101] <> []
      /\ exists res rest insight news,
           runGBM (Some [Fin 100; Fin 102; Fin 101]) 1 default_numSimulations
             (repeat (1 / 2) 1030)
           = Done (Some res) rest
           /\ runAnalysis_simulation
                {| symbol := "BTCUSDT"; price := Fin 101; change := Fin 0 |}
                [Fin 100; Fin 102; Fin 101] 1 (repeat (1 / 2) 1030)
              = ([setSimResult (Some res); setView analysis; setIsSimulating false]
                 ++ shown_and_requested res "BTCUSDT" 1,
                 Done tt rest)
           /\ flat_map (settle None (fun _ _ => fulfilled None) (fun _ => "0"%string))
                (shown_and_requested res "BTCUSDT" 1)
              = [setAiInsight insight; setAiLoading false;
                 setNewsSummary news; setNewsLoading false]
           /\ insight <> EmptyString /\ news <> EmptyString).
Proof.
  apply (runAnalysis_simulation_outcome None (fun _ _ => fulfilled None)
           (fun _ => "0"%string)
           {| symbol := "BTCUSDT"; price := Fin 101; change := Fin 0 |}
           [Fin 100; Fin 102; Fin 101] 1 (repeat (1 / 2) 1030)).
  apply fair_tape_repeat. unfold default_numSimulations. simpl. lia.
Defined.

(** Changing the duration: the same duration does nothing; without data or
    without a selected coin only the duration is set; otherwise the
    simulation is started again, with its three timers, and the callback of
    the last timer, on a fair tape, always has a result to show (the data
    being non-empty), never throws, and starts the two requests. *)
Theorem handleDurationChange_restarts_simulation (duration newDuration : nat)
  (historicalData : list num) (selectedCoin : option Coin) (tp : tape) :
  fair_tape tp newDuration default_numSimulations ->
  (newDuration = duration ->
   handleDurationChange duration historicalData selectedCoin newDuration = ([], []))
  /\ (newDuration <> duration -> historicalData = [] \/ selectedCoin = None ->
      handleDurationChange duration historicalData selectedCoin newDuration
      = ([setDuration newDuration], []))
  /\ (newDuration <> duration -> historicalData <> [] ->
      forall coin, selectedCoin = Some coin ->
      exists warming scanning simulation res rest,
        handleDurationChange duration historicalData selectedCoin newDuration
        = ([setDuration newDuration; setIsSimulating true;
            setAiInsight EmptyString; setNewsSummary EmptyString;
            setSimulationText warming],
           [(1500%nat, perform (setSimulationText scanning));
            (2800%nat,
             perform (setSimulationText "10,000+ Olasılık Hesaplanıyor..."));
            (4000%nat, simulation)])
        /\ runGBM (Some historicalData) newDuration default_numSimulations tp
           = Done (Some res) rest
        /\ simulation tp
           = ([setSimResult (Some res); setIsSimulating false]
              ++ shown_and_requested res (symbol coin) newDuration,
              Done tt rest)).
Proof.
  intros Hfair. unfold handleDurationChange. split; [| split].
  - intros ->. now rewrite Nat.eqb_refl.
  - intros Hd Hnone. apply Nat.eqb_neq in Hd. rewrite Hd.
    destruct Hnone as [-> | ->]; [reflexivity |].
    destruct historicalData; reflexivity.
  - intros Hd Hdata coin ->. apply Nat.eqb_neq in Hd. rewrite Hd.
    destruct historicalData as [| p prices]; [contradiction |].
    destruct (runGBM_runs (p :: prices) newDuration default_numSimulations tp)
      as (allPaths & tp1 & imin & imax & draws & sampled & rest & Hrun);
      [discriminate | unfold default_numSimulations; lia | exact Hfair |].
    pose proof (run_result _ _ _ _ _ _ _ _ _ _ _ Hrun) as Hres.
    do 3 eexists. eexists. exists rest.
    split; [reflexivity |]. split; [exact Hres |].
    unfold triggerSimulation_simulation. rewrite (run_then _ _ _ _ _ Hres).
    rewrite !perform_then. reflexivity.
Qed.

Lemma handleDurationChange_restarts_simulation_witness :
  exists warming scanning simulation res rest,
    handleDurationChange 20 [Fin 100; Fin 102; Fin 101]
      (Some {| symbol := "BTCUSDT"; price := Fin 101; change := Fin 0 |}) 1
    = ([setDuration 1; setIsSimulating true;
        setAiInsight EmptyString; setNewsSummary EmptyString;
        setSimulationText warming],
       [(1500%nat, perform (setSimulationText scanning));
        (2800%nat, perform (setSimulationText "10,000+ Olasılık Hesaplanıyor..."));
        (4000%nat, simulation)])
    /\ runGBM (Some [Fin 100; Fin 102; Fin 101]) 1 default_numSimulations
         (repeat (1 / 2) 1030)
       = Done (Some res) rest
    /\ simulation (repeat (1 / 2) 1030)
       = ([setSimResult (Some res); setIsSimulating false]
          ++ shown_and_requested res "BTCUSDT" 1,
          Done tt rest).
Proof.
  destruct (handleDurationChange_restarts_simulation 20 1
              [Fin 100; Fin 102; Fin 101]
              (Some {| symbol := "BTCUSDT"; price := Fin 101; change := Fin 0 |})
              (repeat (1 / 2) 1030)) as (_ & _ & H).
  - apply fair_tape_repeat. unfold default_numSimulations. simpl. lia.
  - apply (H ltac:(discriminate) ltac:(discriminate) _ eq_refl).
Defined.

(* ================================================================== *)
(** * The paths in terms of the tape *)
(* ================================================================== *)

Lemma bind_Done {A B : Type} (m : M A) (k : A -> M B) (tp rest : tape) (b : B) :
  bind m k tp = Done b rest ->
  exists a r1, m tp = Done a r1 /\ k a r1 = Done b rest.
Proof.
  unfold bind. destruct (m tp) as [a r1 | e |]; intros H; try discriminate.
  now exists a, r1.
Qed.

Lemma accepted_length (tp : tape) : length (accepted tp) = nonzero_draws tp.
Proof.
  unfold accepted. induction tp as [| x tp IH]; [reflexivity |].
  cbn [filter nonzero_draws]. destruct (is_zero (Fin x)); cbn [negb length]; lia.
Qed.

Lemma accepted_unit (tp : tape) (k : nat) :
  Forall unit_draw tp -> (k < length (accepted tp))%nat ->
  0 < nth k (accepted tp) 0 < 1.
Proof.
  intros Hu Hk. pose proof (nth_In (accepted tp) 0 Hk) as Hin.
  unfold accepted in Hin at 2. apply filter_In in Hin. destruct Hin as [Hin Hnz].
  rewrite Forall_forall in Hu. pose proof (Hu _ Hin) as Hunit.
  unfold unit_draw in Hunit.
  assert (nth k (accepted tp) 0 <> 0).
  { intros E. rewrite E, is_zero_Fin_0 in Hnz. discriminate. }
  lra.
Qed.

Lemma draw_nonzero_accepted (tp rest : tape) (u : num) :
  draw_nonzero tp = Done u rest ->
  exists x, u = Fin x /\ accepted tp = x :: accepted rest.
Proof.
  unfold accepted. induction tp as [| x tp IH]; cbn [draw_nonzero]; [discriminate |].
  cbn [filter]. destruct (is_zero (Fin x)); cbn [negb].
  - exact IH.
  - intros H. injection H as <- <-. exists x. split; reflexivity.
Qed.

Lemma generateGaussian_accepted (tp rest : tape) (z : num) :
  generateGaussian tp = Done z rest ->
  exists u v, accepted tp = u :: v :: accepted rest
              /\ z = box_muller (Fin u) (Fin v).
Proof.
  unfold generateGaussian. intros H.
  apply bind_Done in H. destruct H as (u & r1 & Hu & H).
  apply bind_Done in H. destruct H as (v & r2 & Hv & H).
  unfold ret in H. injection H as <- <-.
  apply draw_nonzero_accepted in Hu. destruct Hu as (x & -> & Hx).
  apply draw_nonzero_accepted in Hv. destruct Hv as (y & -> & Hy).
  exists x, y. rewrite Hx, Hy. split; reflexivity.
Qed.

Lemma walk_loop (drift volatility : num) (count lo : nat)
  (path : list num) (cur : num) (tp rest : tape) (st : list num * num) :
  for_loop lo count (fun _ => path_step drift volatility) (path, cur) tp
  = Done st rest ->
  fst st = path ++ walk drift volatility cur (gaussians count (accepted tp))
  /\ accepted rest = skipn (2 * count) (accepted tp).
Proof.
  revert lo path cur tp. induction count as [| c IH]; intros lo path cur tp H.
  - cbn [for_loop] in H. unfold ret in H. injection H as <- <-.
    cbn [gaussians walk fst]. rewrite app_nil_r. split; reflexivity.
  - cbn [for_loop] in H. apply bind_Done in H. destruct H as (s1 & r1 & Hstep & H).
    unfold path_step in Hstep. cbv zeta in Hstep. cbn [fst snd] in Hstep.
    apply bind_Done in Hstep. destruct Hstep as (z & r1' & Hz & Hret).
    unfold ret in Hret. injection Hret as <- <-.
    apply generateGaussian_accepted in Hz. destruct Hz as (u & v & Hacc & ->).
    apply IH in H. destruct H as [Hfst Hrest].
    rewrite Hfst, Hrest, Hacc. cbn [gaussians walk]. rewrite <- app_assoc.
    split; [reflexivity |].
    replace (2 * S c)%nat with (S (S (2 * c))) by lia. reflexivity.
Qed.

Lemma simulate_path_walk (drift volatility lastPrice : num) (days : nat)
  (tp rest : tape) (path : list num) :
  simulate_path drift volatility lastPrice days tp = Done path rest ->
  path = lastPrice
         :: walk drift volatility lastPrice (gaussians days (accepted tp))
  /\ accepted rest = skipn (2 * days) (accepted tp).
Proof.
  unfold simulate_path. intros H.
  apply bind_Done in H. destruct H as (st & r & Hloop & Hret).
  unfold ret in Hret. injection Hret as <- <-.
  apply walk_loop in Hloop. destruct Hloop as [Hfst Hrest].
  rewrite Hfst. split; [reflexivity | exact Hrest].
Qed.

Lemma paths_walk (drift volatility lastPrice : num) (days count lo : nat)
  (acc : list (list num)) (tp rest : tape) (all : list (list num)) :
  for_loop lo count (fun _ => push_path drift volatility lastPrice days) acc tp
  = Done all rest ->
  all = acc ++ map (gbm_path_of drift volatility lastPrice days tp) (seq 0 count)
  /\ accepted rest = skipn (2 * days * count) (accepted tp).
Proof.
  revert lo acc tp. induction count as [| c IH]; intros lo acc tp H.
  - cbn [for_loop] in H. unfold ret in H. injection H as <- <-.
    cbn [seq map]. rewrite app_nil_r, Nat.mul_0_r. split; reflexivity.
  - cbn [for_loop] in H. apply bind_Done in H. destruct H as (a1 & r1 & Hpush & H).
    unfold push_path in Hpush. apply bind_Done in Hpush.
    destruct Hpush as (path & r1' & Hpath & Hret).
    unfold ret in Hret. injection Hret as <- <-.
    apply simulate_path_walk in Hpath. destruct Hpath as [-> Hr1].
    apply IH in H. destruct H as [-> Hrest].
    assert (Hshift : forall j, gbm_path_of drift volatility lastPrice days r1' j
                               = gbm_path_of drift volatility lastPrice days tp (S j)).
    { intros j. unfold gbm_path_of. rewrite Hr1, skipn_skipn.
      replace (2 * days * j + 2 * days)%nat with (2 * days * S j)%nat by nia.
      reflexivity. }
    split.
    + rewrite <- app_assoc. f_equal. cbn [seq map app]. f_equal.
      * unfold gbm_path_of. now rewrite Nat.mul_0_r.
      * rewrite <- seq_shift, map_map. apply map_ext. exact Hshift.
    + rewrite Hrest, Hr1, skipn_skipn. f_equal. nia.
Qed.

Lemma walk_step (drift volatility : num) (zs : list num) (cur : num) (t : nat) :
  (t < length zs)%nat ->
  nth (S t) (cur :: walk drift volatility cur zs) NaN
  = (nth t (cur :: walk drift volatility cur zs) NaN
     * Math_exp (drift + volatility * nth t zs NaN))%num.
Proof.
  revert cur t. induction zs as [| z zs IH]; intros cur t Ht;
    cbn [length] in Ht; [lia |].
  destruct t as [| t].
  - reflexivity.
  - cbn [walk]. cbn [nth]. apply (IH _ t). lia.
Qed.

Lemma gaussians_nth (count : nat) (draws : list R) (t : nat) :
  (2 * count <= length draws)%nat -> (t < count)%nat ->
  length (gaussians count draws) = count
  /\ nth t (gaussians count draws) NaN
     = box_muller (Fin (nth (2 * t) draws 0)) (Fin (nth (2 * t + 1) draws 0)).
Proof.
  revert draws t. induction count as [| c IH]; intros draws t Hlen Ht; [lia |].
  destruct draws as [| u [| v draws]]; cbn [length] in Hlen; try lia.
  cbn [gaussians length]. destruct t as [| t].
  - split; [| reflexivity]. destruct c as [| c]; [reflexivity |].
    f_equal. apply (IH draws 0%nat); lia.
  - destruct (IH draws t) as [Hl Hn]; try lia. split; [now rewrite Hl |].
    cbn [nth]. rewrite Hn.
    replace (2 * S t)%nat with (S (S (2 * t))) by lia.
    replace (S (S (2 * t)) + 1)%nat with (S (S (2 * t + 1))) by lia.
    reflexivity.
Qed.

(** Every simulated path is the geometric Brownian motion its draws
    define. The ensemble is given in closed form from the tape: path [j]
    starts at the last historical price and multiplies the running price,
    day after day, by [exp (drift + volatility * Z)], where the [Z] of day
    [t + 1] is the Box-Muller value of the accepted (non-zero) draws number
    [2 (days j + t)] and [2 (days j + t) + 1] of the run, both in (0, 1),
    and drift and volatility are the statistics of the price array. *)
Theorem paths_follow_gbm (historicalPrices : list num)
  (days numSimulations : nat) (tp : tape) :
  historicalPrices <> [] ->
  (1 <= numSimulations)%nat ->
  fair_tape tp days numSimulations ->
  exists allPaths tp1 res rest,
    ensemble_of historicalPrices days numSimulations tp = Done allPaths tp1
    /\ runGBM (Some historicalPrices) days numSimulations tp = Done (Some res) rest
    /\ allPaths
       = map (gbm_path_of (drift_of (log_returns historicalPrices))
                (volatility_of (log_returns historicalPrices))
                (lastPrice_of historicalPrices) days tp)
             (seq 0 numSimulations)
    /\ accepted tp1 = skipn (2 * days * numSimulations) (accepted tp)
    /\ (forall k, (k < 2 * days * numSimulations)%nat ->
          0 < nth k (accepted tp) 0 < 1)
    /\ (forall j t, (j < numSimulations)%nat -> (t < days)%nat ->
          price_at allPaths j (S t)
          = (price_at allPaths j t
             * Math_exp (drift_of (log_returns historicalPrices)
                         + volatility_of (log_returns historicalPrices)
                           * shock_draws days tp j t))%num).
Proof.
  intros Hne Hn Hfair.
  destruct (runGBM_runs historicalPrices days numSimulations tp Hne Hn Hfair)
    as (allPaths & tp1 & imin & imax & draws & sampled & rest & Hrun).
  destruct Hrun as [Hens _ _ _ _ _ _ _ _ _ _ _ Hres].
  destruct Hfair as [Hu Hd]. unfold enough_draws in Hd.
  assert (Hacc : (2 * days * numSimulations + 30 <= length (accepted tp))%nat)
    by (rewrite accepted_length; lia).
  assert (Hclosed := Hens). unfold ensemble_of, simulate_paths in Hclosed.
  cbv zeta in Hclosed. apply paths_walk in Hclosed. cbn [app] in Hclosed.
  destruct Hclosed as [Hall Hrest].
  exists allPaths, tp1. eexists. exists rest.
  split; [exact Hens |]. split; [exact Hres |]. split; [exact Hall |].
  split; [exact Hrest |]. split.
  - intros k Hk. apply accepted_unit; [exact Hu | lia].
  - intros j t Hj Ht. unfold price_at, number_at. rewrite Hall.
    set (f := gbm_path_of _ _ _ days tp).
    rewrite (nth_indep _ [] (f 0%nat)) by (rewrite length_map, length_seq; lia).
    rewrite map_nth, seq_nth by lia. cbn [Nat.add]. unfold f, gbm_path_of.
    assert (Hj' : (2 * days * j + 2 * days <= 2 * days * numSimulations)%nat) by nia.
    destruct (gaussians_nth days (skipn (2 * days * j) (accepted tp)) t) as [Hl Hz];
      [rewrite length_skipn; lia | exact Ht |].
    rewrite walk_step by (rewrite Hl; exact Ht).
    rewrite Hz, !nth_skipn. unfold shock_draws.
    replace (2 * days * j + 2 * t)%nat with (2 * (days * j + t))%nat by lia.
    replace (2 * days * j + (2 * t + 1))%nat with (2 * (days * j + t) + 1)%nat by lia.
    reflexivity.
Qed.

Lemma paths_follow_gbm_witness :
  exists allPaths tp1 res rest,
    ensemble_of (price_series [100; 102; 101; 105; 104]) 2 200 (repeat (1 / 2) 830)
    = Done allPaths tp1
    /\ runGBM (Some (price_series [100; 102; 101; 105; 104])) 2 200
         (repeat (1 / 2) 830)
       = Done (Some res) rest
    /\ price_at allPaths 199 2
       = (price_at allPaths 199 1
          * Math_exp (drift_of (log_returns (price_series [100; 102; 101; 105; 104]))
                      + volatility_of
                          (log_returns (price_series [100; 102; 101; 105; 104]))
                        * shock_draws 2 (repeat (1 / 2)%R 830) 199 1))%num.
Proof.
  destruct (paths_follow_gbm
              (price_series [100; 102; 101; 105; 104]) 2 200 (repeat (1 / 2) 830))
    as (allPaths & tp1 & res & rest & Hens & Hres & _ & _ & _ & Hstep).
  - discriminate.
  - lia.
  - apply fair_tape_repeat. simpl. lia.
  - exists allPaths, tp1, res, rest. split; [exact Hens |]. split; [exact Hres |].
    apply Hstep; lia.
Defined.
